(** * pv-news: the polling and de-duplication pipeline of [index.js]

    A shallow embedding of the SQLite store ([insertPost], [selectBySource],
    [selectAll], [countBySource]), of the three pollers ([pollReddit],
    [pollSubredditComments], [pollX]), of [pollAll] and of the
    [/api/refresh] handler, then of the session routes, the feed routes
    and the [ago] of the page script, followed by their properties. *)

From Stdlib Require Import String Ascii List Bool Arith ZArith Lia.
From Stdlib Require Import Numbers.DecimalString.
From Stdlib Require Import Sorting.Sorted Sorting.Permutation.
Import ListNotations.
Open Scope string_scope.

Set Implicit Arguments.
Set Warnings "-register-all".


(* ================================================================== *)
(** * JavaScript values *)

(** Numbers are IEEE doubles in the engine; the pipeline never computes
    with them, it only tests them for truthiness and prints them inside
    template literals, so they are kept behind an interface. *)
Class JsNumber : Type := {
  number : Type;
  (** [true] on [+0], [-0] and [NaN], the falsy numbers *)
  number_falsy : number -> bool;
  (** [Number.prototype.toString] in radix 10 *)
  number_toString : number -> string;
  (** the double of a non-negative integer literal or SQL count *)
  number_of_nat : nat -> number
}.

(** The exceptions the pollers can meet inside their [try] blocks. *)
Inductive exn : Type :=
| TypeError      (* member access on null/undefined, not iterable, no primitive, unbindable value *)
| RangeError     (* [toISOString] on an invalid date *)
| SyntaxError    (* [res.json()] / [res.text()] rejects *)
| FetchError.    (* [fetch] rejects *)

Inductive Completion (A : Type) : Type :=
| Normal (a : A)
| Throw (e : exn).
Arguments Throw {A} e.

Definition cbind {A B} (c : Completion A) (k : A -> Completion B) : Completion B :=
  match c with
  | Normal a => k a
  | Throw e => Throw e
  end.

Section Values.
Context {N : JsNumber}.

(** What [res.json()] can produce, plus [undefined], which member access
    on a missing property yields. *)
Inductive JSValue : Type :=
| JUndefined
| JNull
| JBool (b : bool)
| JNum (n : number)
| JStr (s : string)
| JArr (items : list JSValue)
| JObj (props : list (string * JSValue)).

(** Own-property lookup in a parsed JSON object. *)
Fixpoint lookup (name : string) (props : list (string * JSValue)) : JSValue :=
  match props with
  | [] => JUndefined
  | (k, v) :: rest => if k =? name then v else lookup name rest
  end.

(** [v.name] on a value that is neither [null] nor [undefined].  None of
    the names read by the pollers ([data], [children], [kind], [id],
    [title], [selftext], ...) exists on a primitive or array prototype, so
    everything but an object answers [undefined]. *)
Definition prop (v : JSValue) (name : string) : JSValue :=
  match v with
  | JObj props => lookup name props
  | _ => JUndefined
  end.

Definition nullish (v : JSValue) : bool :=
  match v with
  | JUndefined | JNull => true
  | _ => false
  end.

(** [v.name]: a TypeError on [null] and [undefined]. *)
Definition member (v : JSValue) (name : string) : Completion JSValue :=
  if nullish v then Throw TypeError else Normal (prop v name).

(** [v?.name] *)
Definition optMember (v : JSValue) (name : string) : JSValue :=
  if nullish v then JUndefined else prop v name.

(** [a ?? b] *)
Definition coalesce (a b : JSValue) : JSValue :=
  if nullish a then b else a.

(** ToBoolean *)
Definition truthy (v : JSValue) : bool :=
  match v with
  | JUndefined | JNull => false
  | JBool b => b
  | JNum n => negb (number_falsy n)
  | JStr s => negb (s =? "")
  | JArr _ | JObj _ => true
  end.

(** [a || b] *)
Definition js_or (a b : JSValue) : JSValue :=
  if truthy a then a else b.

(** [v === "lit"] *)
Definition strict_eq_str (v : JSValue) (lit : string) : bool :=
  match v with
  | JStr s => s =? lit
  | _ => false
  end.

(** Whether the conversion of [v] to a primitive returns.  The values here
    were parsed from JSON: a member [toString] of an object is then an own
    data property that is not callable, [valueOf] is not callable either or
    returns the object itself, and the conversion ends in a TypeError.
    Without such a member the inherited [toString] answers.  An array
    converts its elements one by one, [null] and [undefined] apart. *)
Fixpoint printable (v : JSValue) : bool :=
  match v with
  | JArr items =>
      let fix all (l : list JSValue) : bool :=
        match l with
        | [] => true
        | x :: rest =>
            match x with
            | JUndefined | JNull => true
            | _ => printable x
            end && all rest
        end in
      all items
  | JObj props => negb (existsb (fun kv => fst kv =? "toString") props)
  | _ => true
  end.

(** ToString of a value that converts (see [template]). *)
Fixpoint ToString (v : JSValue) : string :=
  match v with
  | JUndefined => "undefined"
  | JNull => "null"
  | JBool true => "true"
  | JBool false => "false"
  | JNum n => number_toString n
  | JStr s => s
  | JArr items =>
      let fix join (l : list JSValue) : string :=
        match l with
        | [] => ""
        | x :: rest =>
            let e := match x with
                     | JUndefined | JNull => ""
                     | _ => ToString x
                     end in
            match rest with
            | [] => e
            | _ :: _ => e ++ "," ++ join rest
            end
        end in
      join items
  | JObj _ => "[object Object]"
  end.

(** [`${v}`] in a template literal: ToString, or the TypeError of the
    conversion. *)
Definition template (v : JSValue) : Completion string :=
  if printable v then Normal (ToString v) else Throw TypeError.

(** The elements a [for ... of] visits.  A string is iterable too (one
    element per character); numbers, booleans and plain objects are not. *)
Definition iterate (v : JSValue) : Completion (list JSValue) :=
  match v with
  | JArr items => Normal items
  | JStr s => Normal (map (fun c => JStr (String c "")) (list_ascii_of_string s))
  | _ => Throw TypeError
  end.

End Values.


(** Built-ins of the engine whose results the pipeline stores verbatim. *)
Class JsBuiltins {N : JsNumber} : Type := {
  (** [new Date(v * 1000).toISOString()]; [None] is the RangeError of an
      invalid date *)
  epoch_toISOString : JSValue -> option string;
  (** [new Date(v).toISOString()] *)
  date_toISOString : JSValue -> option string;
  (** [JSON.stringify(v)] on a value that came out of [JSON.parse] *)
  JSON_stringify : JSValue -> string
}.

(* ================================================================== *)
(** * The store: table [posts] *)

Section Store.
Context {N : JsNumber}.

(** A bound SQL value.  [SqlNumber n] stands for what SQLite keeps when the
    double [n] is bound into the column (a numeric or its text rendering,
    by column affinity). *)
Inductive SqlValue : Type :=
| SqlNull
| SqlText (s : string)
| SqlNumber (n : number).

(** One row of [posts]; [id] is the primary key. *)
Record Row : Type := {
  id : string;
  source : string;
  title : SqlValue;
  body : SqlValue;
  url : SqlValue;
  author : SqlValue;
  score : SqlValue;
  subreddit : SqlValue;
  permalink : SqlValue;
  metrics : SqlValue;
  created_at : string;
  fetched_at : string
}.

(** The table in rowid order. *)
Definition Table : Type := list Row.

Definition has_id (i : string) (t : Table) : bool :=
  existsb (fun r => id r =? i) t.

Definition find_id (i : string) (t : Table) : option Row :=
  find (fun r => id r =? i) t.

Definition count_id (i : string) (t : Table) : nat :=
  length (filter (fun r => id r =? i) t).

(** The PRIMARY KEY constraint. *)
Definition pk_unique (t : Table) : Prop := NoDup (map id t).

(** [INSERT OR IGNORE INTO posts ...]: a row whose [id] is taken is
    skipped.  Returns the table and the statement's [changes]. *)
Definition insert_or_ignore (r : Row) (t : Table) : Table * nat :=
  if has_id (id r) t then (t, 0) else ((t ++ [r])%list, 1).

(** [ORDER BY created_at DESC]: TEXT under the BINARY collation compares
    byte-wise.  Rows with equal keys stay in rowid order. *)
Fixpoint insert_desc (r : Row) (sorted : list Row) : list Row :=
  match sorted with
  | [] => [r]
  | x :: rest =>
      if (created_at r <? created_at x)%string
      then x :: insert_desc r rest
      else r :: x :: rest
  end.

Fixpoint order_by_created_at_desc (t : list Row) : list Row :=
  match t with
  | [] => []
  | r :: rest => insert_desc r (order_by_created_at_desc rest)
  end.

(** [SELECT * FROM posts WHERE source = ? ORDER BY created_at DESC LIMIT 200] *)
Definition selectBySource (src : string) (t : Table) : list Row :=
  firstn 200 (order_by_created_at_desc (filter (fun r => source r =? src) t)).

(** [SELECT * FROM posts ORDER BY created_at DESC LIMIT 400] *)
Definition selectAll (t : Table) : list Row :=
  firstn 400 (order_by_created_at_desc t).

Definition count_source (src : string) (t : Table) : nat :=
  length (filter (fun r => source r =? src) t).

(** The distinct values of [source], in order of first appearance. *)
Fixpoint sources (t : Table) : list string :=
  match t with
  | [] => []
  | r :: rest =>
      source r :: filter (fun s => negb (s =? source r)) (sources rest)
  end.

(** [SELECT source, COUNT( * ) as count FROM posts GROUP BY source] *)
Definition countBySource (t : Table) : list (string * nat) :=
  map (fun s => (s, count_source s t)) (sources t).

(** [a] is not older than [b], comparing the stored texts. *)
Definition not_older (a b : Row) : Prop :=
  (created_at b <=? created_at a)%string = true.

(** [a] is strictly later than [b]. *)
Definition strictly_later (a b : Row) : Prop :=
  (created_at b <? created_at a)%string = true.

(** The rows of the microblog source. *)
Definition x_rows (t : Table) : list Row :=
  filter (fun r => source r =? "x") t.

End Store.

(* ================================================================== *)
(** * The world of one process: environment, network, clock *)

Section Pipeline.
Context {N : JsNumber} {B : JsBuiltins}.

(** What [await fetch(url)] resolves to. *)
Record Response : Type := {
  status : nat;
  (** [await res.json()]; [None] when it rejects *)
  json : option JSValue;
  (** [await res.text()]; [None] when it rejects *)
  text : option string
}.

(** [res.ok] *)
Definition ok (res : Response) : bool :=
  Nat.leb 200 (status res) && Nat.leb (status res) 299.

Record World : Type := {
  (** [process.env.X_BEARER_TOKEN] *)
  X_BEARER_TOKEN : option string;
  (** [process.env.REDDIT_SUBREDDITS] *)
  env_REDDIT_SUBREDDITS : option string;
  (** the outcome of a GET on a URL during the cycle; [None] when
      [fetch] rejects *)
  fetch : string -> option Response;
  (** [datetime('now')] as seen by the n-th statement run on the store *)
  datetime_now : nat -> string
}.

(** An environment variable as the script reads it. *)
Definition env_value (o : option string) : JSValue :=
  match o with
  | None => JUndefined
  | Some s => JStr s
  end.

(** [s.split(",")] *)
Fixpoint split_comma (s : string) : list string :=
  match s with
  | EmptyString => [""]
  | String c rest =>
      if (c =? ",")%char then "" :: split_comma rest
      else match split_comma rest with
           | [] => [String c ""]
           | h :: t => String c h :: t
           end
  end.

(** The console, one constructor per call site. *)
Inductive LogEvent : Type :=
| log_reddit_polling
| error_reddit_new (err : exn)
| error_reddit_returned (subreddit : string) (st : nat)
| error_reddit_fetching (subreddit : string) (err : exn)
| log_reddit_done (inserted : nat)
| error_comments_returned (st : nat)
| error_comments_fetching (err : exn)
| log_comments_new (inserted : nat)
| warn_x_skipping
| log_x_polling
| error_x_returned (st : nat) (body : string)
| error_x (err : exn)
| log_x_done (inserted : nat).

(** The three activations that own a local [inserted]. *)
Inductive Frame : Type := in_pollReddit | in_pollSubredditComments | in_pollX.

Record State : Type := {
  posts : Table;
  (** statements run on the store so far *)
  statements : nat;
  console : list LogEvent;
  inserted_pollReddit : nat;
  inserted_pollSubredditComments : nat;
  inserted_pollX : nat
}.

Definition inserted (f : Frame) (st : State) : nat :=
  match f with
  | in_pollReddit => inserted_pollReddit st
  | in_pollSubredditComments => inserted_pollSubredditComments st
  | in_pollX => inserted_pollX st
  end.

Definition set_inserted (f : Frame) (n : nat) (st : State) : State :=
  match f with
  | in_pollReddit =>
      {| posts := posts st; statements := statements st; console := console st;
         inserted_pollReddit := n;
         inserted_pollSubredditComments := inserted_pollSubredditComments st;
         inserted_pollX := inserted_pollX st |}
  | in_pollSubredditComments =>
      {| posts := posts st; statements := statements st; console := console st;
         inserted_pollReddit := inserted_pollReddit st;
         inserted_pollSubredditComments := n;
         inserted_pollX := inserted_pollX st |}
  | in_pollX =>
      {| posts := posts st; statements := statements st; console := console st;
         inserted_pollReddit := inserted_pollReddit st;
         inserted_pollSubredditComments := inserted_pollSubredditComments st;
         inserted_pollX := n |}
  end.

Definition write_console (ev : LogEvent) (st : State) : State :=
  {| posts := posts st; statements := statements st;
     console := (console st ++ [ev])%list;
     inserted_pollReddit := inserted_pollReddit st;
     inserted_pollSubredditComments := inserted_pollSubredditComments st;
     inserted_pollX := inserted_pollX st |}.

Definition after_statement (t : Table) (st : State) : State :=
  {| posts := t; statements := S (statements st); console := console st;
     inserted_pollReddit := inserted_pollReddit st;
     inserted_pollSubredditComments := inserted_pollSubredditComments st;
     inserted_pollX := inserted_pollX st |}.

(** ** Computations: state passing with exceptions *)

Definition M (A : Type) : Type := State -> Completion A * State.

Definition ret {A} (a : A) : M A := fun st => (Normal a, st).

Definition bind {A C} (m : M A) (k : A -> M C) : M C :=
  fun st =>
    match m st with
    | (Normal a, st') => k a st'
    | (Throw e, st') => (Throw e, st')
    end.

Definition lift {A} (c : Completion A) : M A := fun st => (c, st).

(** [try { body } catch (err) { handler }] *)
Definition try_catch {A} (body : M A) (handler : exn -> M A) : M A :=
  fun st =>
    match body st with
    | (Normal a, st') => (Normal a, st')
    | (Throw e, st') => handler e st'
    end.

Definition log (ev : LogEvent) : M unit :=
  fun st => (Normal tt, write_console ev st).

Definition get_inserted (f : Frame) : M nat :=
  fun st => (Normal (inserted f st), st).

Definition let_inserted (f : Frame) (n : nat) : M unit :=
  fun st => (Normal tt, set_inserted f n st).

(** ** Statements about computations *)

(** Every run of [m], whether it returns or throws, relates the state
    before to the state after. *)
Definition sound {A} (R : State -> State -> Prop) (m : M A) : Prop :=
  forall st, R st (snd (m st)).

(** [m] never completes by throwing. *)
Definition no_throw {A} (m : M A) : Prop :=
  forall st, exists a, fst (m st) = Normal a.

(** Which poller writes an event. *)
Definition x_event (ev : LogEvent) : bool :=
  match ev with
  | warn_x_skipping | log_x_polling | error_x_returned _ _
  | error_x _ | log_x_done _ => true
  | _ => false
  end.

(** The [console.error] calls. *)
Definition is_error (ev : LogEvent) : bool :=
  match ev with
  | error_reddit_new _ | error_reddit_returned _ _
  | error_reddit_fetching _ _ | error_comments_returned _
  | error_comments_fetching _ | error_x_returned _ _ | error_x _ => true
  | _ => false
  end.

End Pipeline.

Notation "x <~ c ;; k" := (cbind c (fun x => k))
  (at level 61, c at next level, right associativity).
Notation "x <- m ;; k" := (bind m (fun x => k))
  (at level 61, m at next level, right associativity).
Notation "m ;;; k" := (bind m (fun _ => k))
  (at level 61, right associativity).

(* ================================================================== *)
(** * [insertPost] and the pollers *)

Section Pollers.
Context {N : JsNumber} {B : JsBuiltins}.
Variable w : World.

(** The object handed to [insertPost.run]: one field per named parameter.
    [@id], [@source] and [@created_at] are strings at every call site. *)
Record PostParams : Type := {
  at_id : string;
  at_source : string;
  at_title : JSValue;
  at_body : JSValue;
  at_url : JSValue;
  at_author : JSValue;
  at_score : JSValue;
  at_subreddit : JSValue;
  at_permalink : JSValue;
  at_metrics : JSValue;
  at_created_at : string
}.

(** What better-sqlite3 binds: numbers, strings and null ([undefined]
    binds as NULL); anything else is a TypeError before the statement runs. *)
Definition bindValue (v : JSValue) : Completion SqlValue :=
  match v with
  | JUndefined | JNull => Normal SqlNull
  | JStr s => Normal (SqlText s)
  | JNum n => Normal (SqlNumber n)
  | JBool _ | JArr _ | JObj _ => Throw TypeError
  end.

(** The row of the VALUES clause; [fetched_at] takes the column default. *)
Definition bindRow (p : PostParams) (now : string) : Completion Row :=
  v_title <~ bindValue (at_title p);;
  v_body <~ bindValue (at_body p);;
  v_url <~ bindValue (at_url p);;
  v_author <~ bindValue (at_author p);;
  v_score <~ bindValue (at_score p);;
  v_subreddit <~ bindValue (at_subreddit p);;
  v_permalink <~ bindValue (at_permalink p);;
  v_metrics <~ bindValue (at_metrics p);;
  Normal {| id := at_id p; source := at_source p; title := v_title;
            body := v_body; url := v_url; author := v_author;
            score := v_score; subreddit := v_subreddit;
            permalink := v_permalink; metrics := v_metrics;
            created_at := at_created_at p; fetched_at := now |}.

(** [insertPost.run(params)]; the result is [result.changes]. *)
Definition insertPost (p : PostParams) : M nat :=
  fun st =>
    match bindRow p (datetime_now w (statements st)) with
    | Throw e => (Throw e, st)
    | Normal r =>
        let (t, changes) := insert_or_ignore r (posts st) in
        (Normal changes, after_statement t st)
    end.

(** [if (result.changes > 0) inserted++] *)
Definition count_changes (f : Frame) (changes : nat) : M unit :=
  if Nat.ltb 0 changes
  then (n <- get_inserted f;; let_inserted f (S n))
  else ret tt.

(** [const result = insertPost.run(params); if (result.changes > 0) inserted++;] *)
Definition run_and_count (f : Frame) (p : PostParams) : M unit :=
  changes <- insertPost p;;
  count_changes f changes.

(** [for (const x of items) body] *)
Fixpoint forOf (body : JSValue -> M unit) (items : list JSValue) : M unit :=
  match items with
  | [] => ret tt
  | x :: rest => body x ;;; forOf body rest
  end.

Definition await_fetch (url : string) : M Response :=
  fun st =>
    match fetch w url with
    | Some res => (Normal res, st)
    | None => (Throw FetchError, st)
    end.

Definition await_json (res : Response) : M JSValue :=
  fun st =>
    match json res with
    | Some data => (Normal data, st)
    | None => (Throw SyntaxError, st)
    end.

Definition await_text (res : Response) : M string :=
  fun st =>
    match text res with
    | Some s => (Normal s, st)
    | None => (Throw SyntaxError, st)
    end.

Definition toISOString (o : option string) : Completion string :=
  match o with
  | Some s => Normal s
  | None => Throw RangeError
  end.

(** [new Date(v * 1000).toISOString()] and [new Date(v).toISOString()]:
    the argument is converted to a primitive first, which may end in a
    TypeError; [iso] is what the engine makes of a value that converts. *)
Definition date_string (v : JSValue) (iso : option string) : Completion string :=
  if printable v then toISOString iso else Throw TypeError.

(** ** Configuration *)

Definition REDDIT_PRIMARY_SUB : string := "puertovallarta".

(** [(process.env.REDDIT_SUBREDDITS || "puertovallarta,mexico,travel").split(",")] *)
Definition REDDIT_SUBREDDITS : list string :=
  match js_or (env_value (env_REDDIT_SUBREDDITS w))
              (JStr "puertovallarta,mexico,travel") with
  | JStr s => split_comma s
  | _ => []
  end.

(** ** Reddit posts *)

(** The object literal of both post loops of [pollReddit]. *)
Definition redditPost (child : JSValue) : Completion PostParams :=
  d <~ member child "data";;
  d_id <~ member d "id";;
  s_id <~ template d_id;;
  d_title <~ member d "title";;
  d_selftext <~ member d "selftext";;
  d_url <~ member d "url";;
  d_author <~ member d "author";;
  d_score <~ member d "score";;
  d_subreddit <~ member d "subreddit";;
  d_permalink <~ member d "permalink";;
  s_permalink <~ template d_permalink;;
  d_created_utc <~ member d "created_utc";;
  created <~ date_string d_created_utc (epoch_toISOString d_created_utc);;
  Normal {| at_id := "reddit_" ++ s_id;
            at_source := "reddit";
            at_title := d_title;
            at_body := js_or d_selftext JNull;
            at_url := d_url;
            at_author := d_author;
            at_score := d_score;
            at_subreddit := d_subreddit;
            at_permalink := JStr ("https://www.reddit.com" ++ s_permalink);
            at_metrics := JNull;
            at_created_at := created |}.

Definition insertRedditChild (child : JSValue) : M unit :=
  p <- lift (redditPost child);;
  run_and_count in_pollReddit p.

(** [data?.data?.children ?? []] *)
Definition listing_children (data : JSValue) : JSValue :=
  coalesce (optMember (optMember data "data") "children") (JArr []).

Definition primary_url : string :=
  "https://www.reddit.com/r/" ++ REDDIT_PRIMARY_SUB ++ "/new.json?limit=25".

Definition search_url (subreddit : string) : string :=
  "https://www.reddit.com/r/" ++ subreddit
  ++ "/search.json?q=puerto+vallarta&sort=new&restrict_sr=on&limit=25".

Definition comments_url : string :=
  "https://www.reddit.com/r/" ++ REDDIT_PRIMARY_SUB ++ "/comments.json?limit=100".

Definition x_url : string :=
  "https://api.x.com/2/tweets/search/recent?query=puerto%20vallarta"
  ++ "&sort_order=relevancy&max_results=100"
  ++ "&tweet.fields=created_at,public_metrics,author_id".

(** 1. Primary subreddit: the [try] block on [/new]. *)
Definition pollReddit_primary : M unit :=
  try_catch
    (res <- await_fetch primary_url;;
     if ok res then
       data <- await_json res;;
       children <- lift (iterate (listing_children data));;
       forOf insertRedditChild children
     else ret tt)
    (fun err => log (error_reddit_new err)).

(** 2. One iteration of the loop over [searchSubs]. *)
Definition pollReddit_search (subreddit : string) : M unit :=
  try_catch
    (res <- await_fetch (search_url subreddit);;
     if negb (ok res) then
       log (error_reddit_returned subreddit (status res))
     else
       data <- await_json res;;
       children <- lift (iterate (listing_children data));;
       forOf insertRedditChild children)
    (fun err => log (error_reddit_fetching subreddit err)).

Definition searchSubs : list string :=
  filter (fun s => negb (s =? REDDIT_PRIMARY_SUB)) REDDIT_SUBREDDITS.

(** ** Reddit comments *)

Definition redditComment (c : JSValue) : Completion PostParams :=
  c_id <~ member c "id";;
  s_id <~ template c_id;;
  c_body <~ member c "body";;
  c_author <~ member c "author";;
  c_score <~ member c "score";;
  c_subreddit <~ member c "subreddit";;
  c_permalink <~ member c "permalink";;
  s_permalink <~ template c_permalink;;
  c_link_id <~ member c "link_id";;
  c_link_title <~ member c "link_title";;
  c_created_utc <~ member c "created_utc";;
  created <~ date_string c_created_utc (epoch_toISOString c_created_utc);;
  Normal {| at_id := "reddit_comment_" ++ s_id;
            at_source := "reddit_comment";
            at_title := JNull;
            at_body := c_body;
            at_url := JNull;
            at_author := c_author;
            at_score := c_score;
            at_subreddit := c_subreddit;
            at_permalink := JStr ("https://www.reddit.com" ++ s_permalink);
            at_metrics := JStr (JSON_stringify
                                  (JObj [("link_id", c_link_id);
                                         ("link_title", c_link_title)]));
            at_created_at := created |}.

(** One iteration of the comments loop up to the call of [insertPost.run]:
    [None] when the iteration ends in [continue]. *)
Definition commentItem (child : JSValue) : Completion (option PostParams) :=
  kind <~ member child "kind";;
  if negb (strict_eq_str kind "t1") then Normal None
  else
    c <~ member child "data";;
    c_body <~ member c "body";;
    if negb (truthy c_body) || strict_eq_str c_body "[deleted]"
       || strict_eq_str c_body "[removed]"
    then Normal None
    else
      p <~ redditComment c;;
      Normal (Some p).

Definition insertCommentChild (child : JSValue) : M unit :=
  o <- lift (commentItem child);;
  match o with
  | None => ret tt
  | Some p => run_and_count in_pollSubredditComments p
  end.

(** [pollSubredditComments]; the [try] block answers [true] when it
    executed [return]. *)
Definition pollSubredditComments : M unit :=
  let_inserted in_pollSubredditComments 0;;;
  returned <-
    try_catch
      (res <- await_fetch comments_url;;
       if negb (ok res) then
         log (error_comments_returned (status res));;;
         ret true
       else
         data <- await_json res;;
         children <- lift (iterate (listing_children data));;
         forOf insertCommentChild children;;;
         ret false)
      (fun err => log (error_comments_fetching err);;; ret false);;
  if (returned : bool) then ret tt
  else n <- get_inserted in_pollSubredditComments;; log (log_comments_new n).

(** ** X *)

Definition xPost (tweet : JSValue) : Completion PostParams :=
  tweet_id <~ member tweet "id";;
  s_id <~ template tweet_id;;
  tweet_text <~ member tweet "text";;
  s_url <~ template tweet_id;;
  tweet_author_id <~ member tweet "author_id";;
  tweet_public_metrics <~ member tweet "public_metrics";;
  tweet_created_at <~ member tweet "created_at";;
  created <~ date_string tweet_created_at (date_toISOString tweet_created_at);;
  Normal {| at_id := "x_" ++ s_id;
            at_source := "x";
            at_title := JNull;
            at_body := tweet_text;
            at_url := JStr ("https://x.com/i/status/" ++ s_url);
            at_author := tweet_author_id;
            at_score := JNum (number_of_nat 0);
            at_subreddit := JNull;
            at_permalink := JNull;
            at_metrics := JStr (JSON_stringify
                                  (js_or tweet_public_metrics (JObj [])));
            at_created_at := created |}.

Definition insertTweet (tweet : JSValue) : M unit :=
  p <- lift (xPost tweet);;
  run_and_count in_pollX p.

(** [pollX] past its credential gate, from the first [await] on. *)
Definition pollX_search : M unit :=
  returned <-
    try_catch
      (res <- await_fetch x_url;;
       if negb (ok res) then
         body <- await_text res;;
         log (error_x_returned (status res) body);;;
         ret true
       else
         data <- await_json res;;
         tweets <- lift (iterate (coalesce (optMember data "data") (JArr [])));;
         forOf insertTweet tweets;;;
         ret false)
      (fun err => log (error_x err);;; ret false);;
  if (returned : bool) then ret tt
  else n <- get_inserted in_pollX;; log (log_x_done n).

(** ** The pollers as sequences of steps

    An [async] function runs without interruption from one [await] to
    the next; no statement on the store sits between an [await fetch]
    and the matching [await res.json()].  Each poller is the list of its
    steps in program order, the first one being what runs synchronously
    when the function is called. *)

Definition pollReddit_steps : list (M unit) :=
  ([ log log_reddit_polling ;;; let_inserted in_pollReddit 0 ]
   ++ [ pollReddit_primary ]
   ++ map pollReddit_search searchSubs
   ++ [ n <- get_inserted in_pollReddit;; log (log_reddit_done n) ]
   ++ [ pollSubredditComments ])%list.

Definition pollX_steps : list (M unit) :=
  if negb (truthy (env_value (X_BEARER_TOKEN w)))
  then [ log warn_x_skipping ]
  else [ log log_x_polling ;;; let_inserted in_pollX 0 ; pollX_search ].

(** Running the steps of one poller alone. *)
Fixpoint run_steps (steps : list (M unit)) : M unit :=
  match steps with
  | [] => ret tt
  | step :: rest => step ;;; run_steps rest
  end.

Definition pollReddit : M unit := run_steps pollReddit_steps.

Definition pollX : M unit := run_steps pollX_steps.

(** ** [Promise.allSettled] on two pollers *)

Inductive Settled : Type :=
| fulfilled
| rejected (reason : exn).

Fixpoint settle (steps : list (M unit)) (st : State) : Settled * State :=
  match steps with
  | [] => (fulfilled, st)
  | step :: rest =>
      match step st with
      | (Normal _, st') => settle rest st'
      | (Throw e, st') => (rejected e, st')
      end
  end.

(** The event loop resumes one of the two pollers at a time; [sched]
    says which ([true]: the first).  A poller that throws is settled as
    rejected and the other one carries on.  When [sched] runs out the
    first poller finishes, then the second. *)
Fixpoint allSettled (sched : list bool) (a b : list (M unit)) (st : State)
  : (Settled * Settled) * State :=
  match sched with
  | [] =>
      let (ra, st1) := settle a st in
      let (rb, st2) := settle b st1 in
      ((ra, rb), st2)
  | true :: sched' =>
      match a with
      | [] => let (rb, st') := settle b st in ((fulfilled, rb), st')
      | step :: a' =>
          match step st with
          | (Normal _, st') => allSettled sched' a' b st'
          | (Throw e, st') =>
              let (rb, st'') := settle b st' in ((rejected e, rb), st'')
          end
      end
  | false :: sched' =>
      match b with
      | [] => let (ra, st') := settle a st in ((ra, fulfilled), st')
      | step :: b' =>
          match step st with
          | (Normal _, st') => allSettled sched' a b' st'
          | (Throw e, st') =>
              let (ra, st'') := settle a st' in ((ra, rejected e), st'')
          end
      end
  end.

(** [Promise.allSettled([pollReddit(), pollX()])]: calling [pollReddit()]
    runs its first step, calling [pollX()] runs its first step, the rest
    is up to the event loop. *)
Definition pollAll_settled (sched : list bool) (st : State)
  : (Settled * Settled) * State :=
  allSettled (true :: false :: sched) pollReddit_steps pollX_steps st.

(** [pollAll]: the settled outcomes are dropped. *)
Definition pollAll (sched : list bool) : M unit :=
  fun st => (Normal tt, snd (pollAll_settled sched st)).

(** ** [POST /api/refresh] *)

(** Assignment of an own property: in place when the key exists. *)
Fixpoint obj_set (k : string) (v : JSValue) (props : list (string * JSValue))
  : list (string * JSValue) :=
  match props with
  | [] => [(k, v)]
  | (k', v') :: rest =>
      if k' =? k then (k', v) :: rest else (k', v') :: obj_set k v rest
  end.

(** [Object.fromEntries(entries)], and the spread of its result. *)
Definition assign_entries (entries : list (string * JSValue))
  (props : list (string * JSValue)) : list (string * JSValue) :=
  fold_left (fun o kv => obj_set (fst kv) (snd kv) o) entries props.

(** The handler: the value passed to [res.json]. *)
Definition api_refresh (sched : list bool) : M JSValue :=
  pollAll sched;;;
  fun st =>
    let counts :=
      assign_entries
        (map (fun r => (fst r, JNum (number_of_nat (snd r))))
             (countBySource (posts st))) [] in
    (Normal (JObj (assign_entries counts [("ok", JBool true)])), st).

(** ** What each path hands to the store *)

(** Whether better-sqlite3 accepts every value of the object. *)
Definition bindable (p : PostParams) : bool :=
  match bindRow p "" with
  | Normal _ => true
  | Throw _ => false
  end.

(** The parameter objects a loop passes to a successful [insertPost.run],
    in order, up to the first iteration that throws.  [item] is the
    iteration up to the call: [Normal None] for [continue]. *)
Fixpoint yielded (item : JSValue -> Completion (option PostParams))
  (children : list JSValue) : list PostParams :=
  match children with
  | [] => []
  | child :: rest =>
      match item child with
      | Throw _ => []
      | Normal None => yielded item rest
      | Normal (Some p) => if bindable p then p :: yielded item rest else []
      end
  end.

Definition redditItem (child : JSValue) : Completion (option PostParams) :=
  p <~ redditPost child;; Normal (Some p).

Definition tweetItem (tweet : JSValue) : Completion (option PostParams) :=
  p <~ xPost tweet;; Normal (Some p).

(** The elements the loop of a path visits: none unless the request
    resolves with a 2xx status, a body that parses and an iterable
    listing. *)
Definition visited (children_of : JSValue -> JSValue) (o : option Response)
  : list JSValue :=
  match o with
  | None => []
  | Some res =>
      if ok res then
        match json res with
        | None => []
        | Some data =>
            match iterate (children_of data) with
            | Normal items => items
            | Throw _ => []
            end
        end
      else []
  end.

Definition primary_items : list PostParams :=
  yielded redditItem (visited listing_children (fetch w primary_url)).

Definition search_items (subreddit : string) : list PostParams :=
  yielded redditItem (visited listing_children (fetch w (search_url subreddit))).

Definition comment_items : list PostParams :=
  yielded commentItem (visited listing_children (fetch w comments_url)).

Definition x_items : list PostParams :=
  yielded tweetItem
    (visited (fun data => coalesce (optMember data "data") (JArr []))
       (fetch w x_url)).

(** ** Vocabulary of the properties *)

(** The local counter of frame [f] moved by as much as the table grew. *)
Definition counts (f : Frame) (st st' : State) : Prop :=
  inserted f st' + length (posts st) = inserted f st + length (posts st').

(** Two calls of [insertPost.run] in a row; the state they leave. *)
Definition upsert_both (p q : PostParams) (st : State) : State :=
  snd (insertPost q (snd (insertPost p st))).

(** A comment body that is missing or is one of the two markers Reddit
    leaves in place of a deleted or removed comment. *)
Definition absent_or_sentinel (v : JSValue) : Prop :=
  v = JUndefined \/ v = JNull \/ v = JStr "[deleted]" \/ v = JStr "[removed]".

(** No stored comment has a NULL body or one of the markers as body. *)
Definition no_sentinel_comment (t : Table) : Prop :=
  forall r, In r t -> source r = "reddit_comment" ->
            body r <> SqlNull /\ body r <> SqlText "[deleted]"
            /\ body r <> SqlText "[removed]".

(** No stored post has a falsy body: the empty string or a falsy number. *)
Definition no_falsy_post_body (t : Table) : Prop :=
  forall r, In r t -> source r = "reddit" ->
            body r <> SqlText ""
            /\ (forall n, body r = SqlNumber n -> number_falsy n = false).

(** Every item of the list has its id in the table. *)
Definition all_stored (items : list PostParams) (st : State) : Prop :=
  forall p, In p items -> has_id (at_id p) (posts st) = true.

(** What is stored under id [i] stays stored. *)
Definition keeps (i : string) (st st' : State) : Prop :=
  has_id i (posts st) = true -> has_id i (posts st') = true.

(** The summary of [/api/refresh] read as a report on the cycle that
    took the store from [before] to [after]: under each source, the
    number of rows of that source the cycle inserted. *)
Definition reports_cycle_insertions (before after : State)
  (summary : JSValue) : Prop :=
  forall src,
    In src (sources (posts after)) ->
    prop summary src =
      JNum (number_of_nat
              (count_source src (posts after) - count_source src (posts before))).

End Pollers.

(* ================================================================== *)
(** * Vocabulary for whole cycles *)

Section CycleVocabulary.
Context {N : JsNumber} {B : JsBuiltins}.
Variable w : World.

(** The table after is the table before with rows added at the end. *)
Definition appended (st st' : State) : Prop :=
  exists added, posts st' = (posts st ++ added)%list.

(** Every id in the table after was there before or is one of [ids]. *)
Definition adds_only (ids : list string) (st st' : State) : Prop :=
  forall i, has_id i (posts st') = true ->
            has_id i (posts st) = true \/ In i ids.

(** Every row of the table after was there before or was bound from one
    of [items]: it has the id and the source of the item and holds in
    [body] what the item's [body] binds to. *)
Definition rows_from (items : list PostParams) (st st' : State) : Prop :=
  forall r, In r (posts st') ->
            In r (posts st) \/
            exists p, In p items /\ id r = at_id p /\ source r = at_source p /\
                      bindValue (at_body p) = Normal (body r).

(** The items of all the paths of one cycle. *)
Definition all_items : list PostParams :=
  (primary_items w
   ++ flat_map (search_items w) (searchSubs w)
   ++ comment_items w
   ++ (if truthy (env_value (X_BEARER_TOKEN w)) then x_items w else []))%list.

(** A row carries one of the three sources and the id prefix that goes
    with it. *)
Definition well_sourced (r : Row) : Prop :=
  (source r = "reddit" /\ prefix "reddit_" (id r) = true) \/
  (source r = "reddit_comment" /\ prefix "reddit_comment_" (id r) = true) \/
  (source r = "x" /\ prefix "x_" (id r) = true).

(** The counter of frame [f] moved by as much as the number of rows of
    source [src]. *)
Definition counts_source (f : Frame) (src : string) (st st' : State) : Prop :=
  inserted f st' + count_source src (posts st)
  = inserted f st + count_source src (posts st').

(** The source each loop writes. *)
Definition source_of_frame (f : Frame) : string :=
  match f with
  | in_pollReddit => "reddit"
  | in_pollSubredditComments => "reddit_comment"
  | in_pollX => "x"
  end.

End CycleVocabulary.

(* ================================================================== *)
(** * Session auth *)

Section Auth.
Context {N : JsNumber}.

(** [s.split(sep)] for a separator of one character. *)
Fixpoint split_char (sep : ascii) (s : string) : list string :=
  match s with
  | EmptyString => [""]
  | String c rest =>
      if (c =? sep)%char then "" :: split_char sep rest
      else match split_char sep rest with
           | [] => [String c ""]
           | h :: t => String c h :: t
           end
  end.

(** [parts.join(sep)] *)
Fixpoint join (sep : string) (parts : list string) : string :=
  match parts with
  | [] => ""
  | [x] => x
  | x :: rest => x ++ sep ++ join sep rest
  end.

(** The characters [trim] strips.  A header reaches the script with one
    character per byte, so these are TAB, LF, VT, FF, CR, the space and
    the no-break space. *)
Definition is_space (c : ascii) : bool :=
  let n := nat_of_ascii c in
  (Nat.leb 9 n && Nat.leb n 13) || Nat.eqb n 32 || Nat.eqb n 160.

Fixpoint trim_start (s : string) : string :=
  match s with
  | EmptyString => ""
  | String c rest => if is_space c then trim_start rest else s
  end.

Fixpoint trim_end (s : string) : string :=
  match s with
  | EmptyString => ""
  | String c rest =>
      match trim_end rest with
      | EmptyString => if is_space c then "" else String c ""
      | kept => String c kept
      end
  end.

(** [s.trim()] *)
Definition trim (s : string) : string := trim_end (trim_start s).

(** [cookies[k.trim()] = v.join("=").trim()] for one [pair] of the header.
    Assigning a string to [__proto__] goes to the inherited setter, which
    ignores it. *)
Definition set_cookie_pair (cookies : list (string * JSValue)) (pair : string)
  : list (string * JSValue) :=
  match split_char "=" pair with
  | [] => cookies
  | k :: v =>
      if trim k =? "__proto__" then cookies
      else obj_set (trim k) (JStr (trim (join "=" v))) cookies
  end.

(** [parseCookies(header)]: the own properties of the object returned. *)
Definition parseCookies (header : option string) : list (string * JSValue) :=
  if negb (truthy (env_value header)) then []
  else match header with
       | Some h => fold_left set_cookie_pair (split_char ";" h) []
       | None => []
       end.

(** What a handler needs of a request. *)
Record Request : Type := {
  path : string;
  (** [req.headers.cookie] *)
  cookie : option string;
  (** [req.body] *)
  req_body : JSValue
}.

Inductive Reply : Type :=
| redirect (location : string) (set_cookie : option string)
| json_status (code : nat) (payload : JSValue).

(** What a middleware does: hand over to the next handler or answer. *)
Inductive Guard : Type :=
| next
| answer (r : Reply).

(** The [Set] of session tokens, in insertion order. *)
Definition Sessions : Type := list string.

Definition sessions_has (t : string) (sessions : Sessions) : bool :=
  existsb (String.eqb t) sessions.

Definition sessions_add (t : string) (sessions : Sessions) : Sessions :=
  if sessions_has t sessions then sessions else (sessions ++ [t])%list.

Definition sessions_delete (t : string) (sessions : Sessions) : Sessions :=
  filter (fun s => negb (s =? t)) sessions.

(** [parseCookies(req.headers.cookie).session] *)
Definition session_token (req : Request) : JSValue :=
  lookup "session" (parseCookies (cookie req)).

(** [token && sessions.has(token)] as a condition *)
Definition token_known (token : JSValue) (sessions : Sessions) : bool :=
  truthy token &&
  match token with
  | JStr t => sessions_has t sessions
  | _ => false
  end.

Definition requireAuth (sessions : Sessions) (req : Request) : Guard :=
  if token_known (session_token req) sessions then next
  else if prefix "/api/" (path req)
       then answer (json_status 401 (JObj [("error", JStr "unauthorized")]))
       else answer (redirect "/login" None).

(** [process.env.AUTH_PASSWORD || "pvnews"] *)
Definition AUTH_PASSWORD (env_AUTH_PASSWORD : option string) : string :=
  match js_or (env_value env_AUTH_PASSWORD) (JStr "pvnews") with
  | JStr s => s
  | _ => "pvnews"
  end.

Definition hex_digit (n : nat) : ascii :=
  match get n "0123456789abcdef" with
  | Some c => c
  | None => "0"%char
  end.

(** [buffer.toString("hex")] *)
Fixpoint toString_hex (bytes : list ascii) : string :=
  match bytes with
  | [] => ""
  | b :: rest =>
      String (hex_digit (nat_of_ascii b / 16))
        (String (hex_digit (nat_of_ascii b mod 16)) (toString_hex rest))
  end.

(** [POST /login]; [random] is what [crypto.randomBytes(32)] returns.
    The result is the session set and the reply. *)
Definition login (env_AUTH_PASSWORD : option string) (random : list ascii)
  (sessions : Sessions) (req : Request) : Completion (Sessions * Reply) :=
  password <~ member (req_body req) "password";;
  if negb (strict_eq_str password (AUTH_PASSWORD env_AUTH_PASSWORD)) then
    Normal (sessions, redirect "/login?error=1" None)
  else
    let token := toString_hex random in
    Normal (sessions_add token sessions,
            redirect "/"
              (Some ("session=" ++ token
                     ++ "; HttpOnly; Path=/; SameSite=Lax; Max-Age=604800"))).

(** [GET /logout] *)
Definition logout (sessions : Sessions) (req : Request) : Sessions * Reply :=
  let token := session_token req in
  (match token with
   | JStr t => if truthy token then sessions_delete t sessions else sessions
   | _ => sessions
   end,
   redirect "/login" (Some "session=; HttpOnly; Path=/; Max-Age=0")).

(** A string without separators, [=] signs or characters that [trim]
    strips: it goes through [parseCookies] as it is. *)
Definition cookie_safe (s : string) : Prop :=
  Forall (fun c => (c =? ";")%char = false /\ (c =? "=")%char = false
                   /\ is_space c = false)
         (list_ascii_of_string s).

End Auth.


(* ================================================================== *)
(** * The feed routes *)

(** What reading the table back needs from SQLite and the engine: the
    JavaScript value a TEXT column gives for a number that was bound to it,
    the value the INTEGER column [score] gives, and [JSON.parse] ([None]
    for a SyntaxError). *)
Class SqliteRead {N : JsNumber} : Type := {
  text_of_number : number -> JSValue;
  integer_column : SqlValue -> JSValue;
  JSON_parse : string -> option JSValue
}.

Section Feeds.
Context {N : JsNumber} {D : SqliteRead}.

(** A TEXT column read back. *)
Definition read_text (v : SqlValue) : JSValue :=
  match v with
  | SqlNull => JNull
  | SqlText s => JStr s
  | SqlNumber n => text_of_number n
  end.

(** One row of [stmt.all()]: the columns in the order of the table. *)
Definition row_object (r : Row) : list (string * JSValue) :=
  [("id", JStr (id r)); ("source", JStr (source r));
   ("title", read_text (title r)); ("body", read_text (body r));
   ("url", read_text (url r)); ("author", read_text (author r));
   ("score", integer_column (score r));
   ("subreddit", read_text (subreddit r));
   ("permalink", read_text (permalink r));
   ("metrics", read_text (metrics r));
   ("created_at", JStr (created_at r)); ("fetched_at", JStr (fetched_at r))].

(** [formatPost(row)] *)
Definition formatPost (row : list (string * JSValue)) : Completion JSValue :=
  let row_metrics := lookup "metrics" row in
  if truthy row_metrics then
    match JSON_parse (ToString row_metrics) with
    | Some v => Normal (JObj (obj_set "metrics" v row))
    | None => Throw SyntaxError
    end
  else Normal (JObj (obj_set "metrics" JNull row)).

(** [rows.map(formatPost)]: the first exception ends the call. *)
Fixpoint map_formatPost (rows : list (list (string * JSValue)))
  : Completion (list JSValue) :=
  match rows with
  | [] => Normal []
  | row :: rest =>
      post <~ formatPost row;;
      others <~ map_formatPost rest;;
      Normal (post :: others)
  end.

(** The body shared by the three feed routes: the value passed to
    [res.json], or the exception that leaves the handler. *)
Definition feed (rows : list Row) : Completion JSValue :=
  posts <~ map_formatPost (map row_object rows);;
  Normal (JObj [("count", JNum (number_of_nat (length posts)));
                ("posts", JArr posts)]).

Definition api_reddit (t : Table) : Completion JSValue :=
  feed (selectBySource "reddit" t).

Definition api_x (t : Table) : Completion JSValue :=
  feed (selectBySource "x" t).

Definition api_all (t : Table) : Completion JSValue :=
  feed (selectAll t).

(** Whether [formatPost] gets through the row. *)
Definition metrics_readable (r : Row) : bool :=
  let m := read_text (metrics r) in
  if truthy m then
    match JSON_parse (ToString m) with
    | Some _ => true
    | None => false
    end
  else true.

(** The object served for a row: its columns, [metrics] parsed. *)
Definition served_as (r : Row) (post : JSValue) : Prop :=
  prop post "id" = JStr (id r) /\
  prop post "source" = JStr (source r) /\
  prop post "created_at" = JStr (created_at r) /\
  prop post "fetched_at" = JStr (fetched_at r) /\
  prop post "body" = read_text (body r) /\
  prop post "metrics"
  = (if truthy (read_text (metrics r))
     then match JSON_parse (ToString (read_text (metrics r))) with
          | Some v => v
          | None => JUndefined
          end
     else JNull).

(** The answer of a feed route over the rows its query selects: either
    all of them, one object each and in the order of the query, or a
    SyntaxError because [metrics] of one of them does not parse. *)
Definition serves (rows : list Row) (answer : Completion JSValue) : Prop :=
  match answer with
  | Normal v =>
      forallb metrics_readable rows = true /\
      exists posts,
        v = JObj [("count", JNum (number_of_nat (length rows)));
                  ("posts", JArr posts)] /\
        Forall2 served_as rows posts
  | Throw e => e = SyntaxError /\ forallb metrics_readable rows = false
  end.

(** What the pollers write into [metrics]: nothing, or the JSON text of
    an object or of another truthy value. *)
Definition metrics_written {B : JsBuiltins} (r : Row) : Prop :=
  metrics r = SqlNull \/
  exists v, truthy v = true /\ metrics r = SqlText (JSON_stringify v).

End Feeds.
(* ================================================================== *)
(** * An integer engine for running the model

    Numbers are integers, epoch seconds are dated within the years 1970 to
    9999, [new Date(s)] accepts a string only in the 24-character form
    [toISOString] prints, and [JSON.stringify] escapes only the quote and
    the backslash.  The properties below hold for every engine; this one
    evaluates them on concrete feeds. *)

Definition Z_toString (z : Z) : string :=
  NilZero.string_of_int (Z.to_int z).

#[export] Instance IntNumber : JsNumber := {
  number := Z;
  number_falsy := fun z => Z.eqb z 0;
  number_toString := Z_toString;
  number_of_nat := Z.of_nat
}.

Definition pad (width : nat) (z : Z) : string :=
  let s := Z_toString z in
  (fix zeros (n : nat) : string :=
     match n with
     | O => s
     | S n' => "0" ++ zeros n'
     end) (width - String.length s).

(** Proleptic Gregorian date of a day count since 1970-01-01. *)
Definition civil_from_days (days : Z) : Z * Z * Z :=
  let z := (days + 719468)%Z in
  let era := (z / 146097)%Z in
  let doe := (z mod 146097)%Z in
  let yoe := ((doe - doe / 1460 + doe / 36524 - doe / 146096) / 365)%Z in
  let doy := (doe - (365 * yoe + yoe / 4 - yoe / 100))%Z in
  let mp := ((5 * doy + 2) / 153)%Z in
  let d := (doy - (153 * mp + 2) / 5 + 1)%Z in
  let m := (if mp <? 10 then mp + 3 else mp - 9)%Z in
  let y := (yoe + era * 400 + (if m <=? 2 then 1 else 0))%Z in
  (y, m, d).

Definition iso_of_epoch_seconds (s : Z) : option string :=
  if ((0 <=? s) && (s <? 253402300800))%Z then
    let '(y, m, d) := civil_from_days (s / 86400) in
    let r := (s mod 86400)%Z in
    Some (pad 4 y ++ "-" ++ pad 2 m ++ "-" ++ pad 2 d ++ "T"
          ++ pad 2 (r / 3600) ++ ":" ++ pad 2 ((r mod 3600) / 60) ++ ":"
          ++ pad 2 (r mod 60) ++ ".000Z")
  else None.

Definition dquote : string := String (ascii_of_nat 34) "".

Definition backslash : string := String (ascii_of_nat 92) "".

Definition escape (s : string) : string :=
  (fix go (s : string) : string :=
     match s with
     | EmptyString => ""
     | String c rest =>
         if (Nat.eqb (nat_of_ascii c) 34 || Nat.eqb (nat_of_ascii c) 92)%bool
         then backslash ++ String c (go rest)
         else String c (go rest)
     end) s.

Fixpoint int_stringify (v : @JSValue IntNumber) : string :=
  match v with
  | JUndefined => "null"
  | JNull => "null"
  | JBool true => "true"
  | JBool false => "false"
  | JNum n => Z_toString n
  | JStr s => dquote ++ escape s ++ dquote
  | JArr items =>
      let fix elems (l : list JSValue) : string :=
        match l with
        | [] => ""
        | x :: rest =>
            match rest with
            | [] => int_stringify x
            | _ :: _ => int_stringify x ++ "," ++ elems rest
            end
        end in
      "[" ++ elems items ++ "]"
  | JObj props =>
      let fix members (l : list (string * JSValue)) (first : bool) : string :=
        match l with
        | [] => ""
        | (k, JUndefined) :: rest => members rest first
        | (k, x) :: rest =>
            (if first then "" else ",") ++ dquote ++ escape k ++ dquote ++ ":"
            ++ int_stringify x ++ members rest false
        end in
      "{" ++ members props true ++ "}"
  end.

#[export] Instance IntBuiltins : @JsBuiltins IntNumber := {
  epoch_toISOString := fun v =>
    match v with
    | JNum n => iso_of_epoch_seconds n
    | JNull | JBool false => iso_of_epoch_seconds 0
    | _ => None
    end;
  date_toISOString := fun v =>
    match v with
    | JStr s => if Nat.eqb (String.length s) 24 then Some s else None
    | _ => None
    end;
  JSON_stringify := int_stringify
}.


(* ================================================================== *)
(** * Concrete feeds *)

Definition post_child (native_id title selftext : string) (created_utc : Z)
  : @JSValue IntNumber :=
  JObj [("kind", JStr "t3");
        ("data", JObj [("id", JStr native_id);
                       ("title", JStr title);
                       ("selftext", JStr selftext);
                       ("url", JStr ("https://redd.it/" ++ native_id));
                       ("author", JStr "vallartense");
                       ("score", JNum 12%Z);
                       ("subreddit", JStr "puertovallarta");
                       ("permalink", JStr ("/r/puertovallarta/comments/" ++ native_id));
                       ("created_utc", JNum created_utc)])].

Definition comment_child (native_id text : string) (created_utc : Z)
  : @JSValue IntNumber :=
  JObj [("kind", JStr "t1");
        ("data", JObj [("id", JStr native_id);
                       ("body", JStr text);
                       ("author", JStr "malecon");
                       ("score", JNum 3%Z);
                       ("subreddit", JStr "puertovallarta");
                       ("permalink", JStr ("/r/puertovallarta/comments/x/_/" ++ native_id));
                       ("link_id", JStr "t3_x");
                       ("link_title", JStr "Playa");
                       ("created_utc", JNum created_utc)])].

Definition listing (children : list (@JSValue IntNumber)) : @JSValue IntNumber :=
  JObj [("kind", JStr "Listing");
        ("data", JObj [("children", JArr children)])].

Definition http_ok (data : @JSValue IntNumber) : Response :=
  {| status := 200; json := Some data; text := None |}.

Definition http_status (code : nat) : Response :=
  {| status := code; json := None; text := Some "" |}.

Definition empty_state : State :=
  {| posts := []; statements := 0; console := [];
     inserted_pollReddit := 0; inserted_pollSubredditComments := 0;
     inserted_pollX := 0 |}.

(** A day on which r/mexico is unreachable and r/travel rate-limits, while
    the primary listing and the comments listing answer.  One comment was
    deleted; one post has no self-text.  No X credential. *)
Definition busy_day : World :=
  {| X_BEARER_TOKEN := None;
     env_REDDIT_SUBREDDITS := None;
     fetch := fun url =>
       if url =? primary_url then
         Some (http_ok (listing [post_child "a1" "Sunset" "" 1700000000;
                                 post_child "a2" "Tacos" "Where?" 1700000100]))
       else if url =? search_url "mexico" then None
       else if url =? search_url "travel" then Some (http_status 429)
       else if url =? comments_url then
         Some (http_ok (listing [comment_child "c1" "Pipis" 1700000200;
                                 comment_child "c2" "[deleted]" 1700000300;
                                 comment_child "a1" "Same id as a post" 1700000400]))
       else None;
     datetime_now := fun _ => "2023-11-14 22:30:00" |}.

(** The post [a1] and the comment [a1] of [busy_day]. *)
Definition post_a1 : PostParams :=
  match redditPost (post_child "a1" "Sunset" "" 1700000000) with
  | Normal p => p
  | Throw _ =>
      {| at_id := ""; at_source := ""; at_title := JNull; at_body := JNull;
         at_url := JNull; at_author := JNull; at_score := JNull;
         at_subreddit := JNull; at_permalink := JNull; at_metrics := JNull;
         at_created_at := "" |}
  end.

Definition comment_a1 : PostParams :=
  match commentItem (comment_child "a1" "Same id as a post" 1700000400) with
  | Normal (Some p) => p
  | _ => post_a1
  end.

(** Two posts created in the same second. *)
Definition same_second : World :=
  {| X_BEARER_TOKEN := None;
     env_REDDIT_SUBREDDITS := Some "puertovallarta";
     fetch := fun url =>
       if url =? primary_url then
         Some (http_ok (listing [post_child "b1" "Uno" "" 1700000000;
                                 post_child "b2" "Dos" "" 1700000000]))
       else None;
     datetime_now := fun _ => "2023-11-14 22:30:00" |}.

Definition same_second_table : Table :=
  posts (snd (pollAll same_second [] empty_state)).

(** Every request fails. *)
Definition offline : World :=
  {| X_BEARER_TOKEN := Some "token";
     env_REDDIT_SUBREDDITS := None;
     fetch := fun _ => None;
     datetime_now := fun _ => "2023-11-15 08:00:00" |}.

(** The store left by [busy_day], on which [offline] then runs. *)
Definition stocked_state : State :=
  snd (pollAll busy_day [] empty_state).

(** A day with a credential: the X search answers two tweets, the first
    without [public_metrics], the second without [created_at]; Reddit is
    unreachable. *)
Definition tweet_day : World :=
  {| X_BEARER_TOKEN := Some "token";
     env_REDDIT_SUBREDDITS := None;
     fetch := fun url =>
       if url =? x_url then
         Some (http_ok
                 (JObj [("data",
                         JArr [JObj [("id", JStr "1725");
                                     ("text", JStr "Puerto Vallarta hoy");
                                     ("author_id", JStr "42");
                                     ("created_at", JStr "2024-09-07T12:00:00.000Z")];
                               JObj [("id", JStr "1726");
                                     ("text", JStr "sin fecha")]])]))
       else None;
     datetime_now := fun _ => "2024-09-07 12:05:00" |}.

(** What [/api/refresh] answers when [offline] runs on [stocked_state]. *)
Definition offline_summary : @JSValue IntNumber :=
  match fst (api_refresh offline [] stocked_state) with
  | Normal summary => summary
  | Throw _ => JUndefined
  end.


(* ================================================================== *)
(** * The dashboard script *)

(** [ago(d)] of the page script.  [now] is [Date.now()] and [d] the time
    value of [new Date(d)], both in milliseconds, [None] for an invalid
    date: then [s] is NaN, every comparison fails and the last line
    prints it.  The difference of two time values stays below 10^21, where
    a number prints as its decimal digits. *)
Definition ago (now : Z) (d : option Z) : string :=
  match d with
  | None => "NaNd ago"
  | Some t =>
      let s := ((now - t) / 1000)%Z in
      if (s <? 60)%Z then Z_toString s ++ "s ago"
      else if (s <? 3600)%Z then Z_toString (s / 60) ++ "m ago"
      else if (s <? 86400)%Z then Z_toString (s / 3600) ++ "h ago"
      else Z_toString (s / 86400) ++ "d ago"
  end.

(** The units of [ago], in seconds. *)
Definition ago_units : list (Z * string) :=
  [(1%Z, "s ago"); (60%Z, "m ago"); (3600%Z, "h ago"); (86400%Z, "d ago")].

(* ================================================================== *)
(** * Concrete requests and rows *)

(** The post [a2], the comment [c1] of [busy_day] and the first tweet of
    [tweet_day]. *)
Definition post_a2 : PostParams :=
  match redditPost (post_child "a2" "Tacos" "Where?" 1700000100) with
  | Normal p => p
  | Throw _ => post_a1
  end.

Definition comment_c1 : PostParams :=
  match commentItem (comment_child "c1" "Pipis" 1700000200) with
  | Normal (Some p) => p
  | _ => post_a1
  end.

Definition tweet_1725_json : @JSValue IntNumber :=
  JObj [("id", JStr "1725");
        ("text", JStr "Puerto Vallarta hoy");
        ("author_id", JStr "42");
        ("created_at", JStr "2024-09-07T12:00:00.000Z")].

Definition tweet_1725 : PostParams :=
  match xPost tweet_1725_json with
  | Normal p => p
  | Throw _ => post_a1
  end.

(** The last row of [stocked_state]: the comment [a1]. *)
Definition stocked_comment : Row :=
  last (posts stocked_state)
       {| id := ""; source := ""; title := SqlNull; body := SqlNull;
          url := SqlNull; author := SqlNull; score := SqlNull;
          subreddit := SqlNull; permalink := SqlNull; metrics := SqlNull;
          created_at := ""; fetched_at := "" |}.

(** Thirty-two bytes as [crypto.randomBytes(32)] may return them. *)
Definition sample_random : list ascii :=
  map ascii_of_nat
      [61; 200; 7; 19; 254; 0; 133; 90; 17; 66; 201; 48; 5; 99; 180; 222;
       31; 144; 73; 12; 250; 101; 38; 160; 3; 87; 215; 64; 129; 29; 240; 11].

Definition sample_token : string := toString_hex sample_random.

(** The form of the login page, filled in with the default password and
    with a wrong one. *)
Definition login_request : @Request IntNumber :=
  {| path := "/login"; cookie := None;
     req_body := JObj [("password", JStr "pvnews")] |}.

Definition wrong_login_request : @Request IntNumber :=
  {| path := "/login"; cookie := None;
     req_body := JObj [("password", JStr "vallarta")] |}.

(** A request of a browser that holds the session cookie. *)
Definition session_request (p : string) : @Request IntNumber :=
  {| path := p; cookie := Some ("theme=dark; session=" ++ sample_token);
     req_body := JUndefined |}.

Definition anonymous_request (p : string) : @Request IntNumber :=
  {| path := p; cookie := None; req_body := JUndefined |}.

(* ================================================================== *)
(** * A sample reader *)

(** [JSON.parse] on the texts [int_stringify] writes: no white space,
    integers for numbers, and in a string the two escapes of [escape]. *)
Definition is_digit (c : ascii) : bool :=
  (Nat.leb 48 (nat_of_ascii c) && Nat.leb (nat_of_ascii c) 57)%bool.

Fixpoint parse_digits (acc : Z) (s : string) : Z * string :=
  match s with
  | EmptyString => (acc, s)
  | String c rest =>
      if is_digit c
      then parse_digits (acc * 10 + Z.of_nat (nat_of_ascii c - 48)) rest
      else (acc, s)
  end.

(** The characters of a string literal after its opening quote, and what
    follows the closing quote. *)
Fixpoint parse_chars (s : string) : option (string * string) :=
  match s with
  | EmptyString => None
  | String c rest =>
      if Nat.eqb (nat_of_ascii c) 34 then Some ("", rest)
      else if Nat.eqb (nat_of_ascii c) 92 then
        match rest with
        | String e rest' =>
            if (Nat.eqb (nat_of_ascii e) 34 || Nat.eqb (nat_of_ascii e) 92)%bool
            then match parse_chars rest' with
                 | Some (t, r) => Some (String e t, r)
                 | None => None
                 end
            else None
        | EmptyString => None
        end
      else match parse_chars rest with
           | Some (t, r) => Some (String c t, r)
           | None => None
           end
  end.

Definition strip (lit s : string) : option string :=
  if prefix lit s
  then Some (substring (String.length lit) (String.length s - String.length lit) s)
  else None.

Fixpoint parse_value (fuel : nat) (s : string)
  : option (@JSValue IntNumber * string) :=
  match fuel with
  | O => None
  | S fuel' =>
      match s with
      | EmptyString => None
      | String c rest =>
          if (c =? "{")%char then
            match rest with
            | String "}" r => Some (JObj [], r)
            | _ => parse_members fuel' rest []
            end
          else if (c =? "[")%char then
            match rest with
            | String "]" r => Some (JArr [], r)
            | _ => parse_elements fuel' rest []
            end
          else if Nat.eqb (nat_of_ascii c) 34 then
            match parse_chars rest with
            | Some (t, r) => Some (JStr t, r)
            | None => None
            end
          else if (c =? "-")%char then
            match rest with
            | String d _ =>
                if is_digit d
                then let (n, r) := parse_digits 0 rest in Some (JNum (- n)%Z, r)
                else None
            | EmptyString => None
            end
          else if is_digit c then
            let (n, r) := parse_digits 0 s in Some (JNum n, r)
          else
            match strip "true" s, strip "false" s, strip "null" s with
            | Some r, _, _ => Some (JBool true, r)
            | _, Some r, _ => Some (JBool false, r)
            | _, _, Some r => Some (JNull, r)
            | _, _, _ => None
            end
      end
  end
with parse_elements (fuel : nat) (s : string) (acc : list (@JSValue IntNumber))
  : option (@JSValue IntNumber * string) :=
  match fuel with
  | O => None
  | S fuel' =>
      match parse_value fuel' s with
      | Some (v, String "," r) => parse_elements fuel' r (acc ++ [v])%list
      | Some (v, String "]" r) => Some (JArr (acc ++ [v])%list, r)
      | _ => None
      end
  end
with parse_members (fuel : nat) (s : string)
                   (acc : list (string * @JSValue IntNumber))
  : option (@JSValue IntNumber * string) :=
  match fuel with
  | O => None
  | S fuel' =>
      match s with
      | String q rest =>
          if Nat.eqb (nat_of_ascii q) 34 then
            match parse_chars rest with
            | Some (k, String ":" r) =>
                match parse_value fuel' r with
                | Some (v, String "," r') =>
                    parse_members fuel' r' (obj_set k v acc)
                | Some (v, String "}" r') => Some (JObj (obj_set k v acc), r')
                | _ => None
                end
            | _ => None
            end
          else None
      | EmptyString => None
      end
  end.

Definition int_parse (s : string) : option (@JSValue IntNumber) :=
  match parse_value (2 * String.length s + 2) s with
  | Some (v, EmptyString) => Some v
  | _ => None
  end.

(** SQLite renders an integer bound to a TEXT column as its digits; the
    INTEGER column gives integers back as they are. *)
#[export] Instance IntRead : @SqliteRead IntNumber := {
  text_of_number := fun z => JStr (Z_toString z);
  integer_column := fun v =>
    match v with
    | SqlNull => JNull
    | SqlText s => JStr s
    | SqlNumber z => JNum z
    end;
  JSON_parse := int_parse
}.

Definition array_items (v : @JSValue IntNumber) : list (@JSValue IntNumber) :=
  match v with
  | JArr items => items
  | _ => []
  end.

(** [stocked_state] with a row whose [metrics] was written by other means. *)
Definition spoiled_table : Table :=
  ({| id := "x_1"; source := "x"; title := SqlNull; body := SqlText "hola";
      url := SqlNull; author := SqlNull; score := SqlNumber 0%Z;
      subreddit := SqlNull; permalink := SqlNull; metrics := SqlText "{likes";
      created_at := "2023-01-01T00:00:00.000Z";
      fetched_at := "2023-01-01 00:00:05" |} :: posts stocked_state)%list.
(* ================================================================== *)
(** * Properties of the store *)

Section StoreFacts.
Context {N : JsNumber}.

Lemma has_id_app (i : string) (t1 t2 : Table) :
  has_id i (t1 ++ t2)%list = has_id i t1 || has_id i t2.
Proof. unfold has_id. apply existsb_app. Qed.

Lemma has_id_In (i : string) (t : Table) :
  has_id i t = true <-> In i (map id t).
Proof.
  unfold has_id. rewrite existsb_exists, in_map_iff. split.
  - intros [r [Hin Heq]]. apply String.eqb_eq in Heq. now exists r.
  - intros [r [Heq Hin]]. exists r. split; [assumption|]. now apply String.eqb_eq.
Qed.

Lemma count_id_app (i : string) (t1 t2 : Table) :
  count_id i (t1 ++ t2)%list = count_id i t1 + count_id i t2.
Proof. unfold count_id. now rewrite filter_app, length_app. Qed.

Lemma count_id_absent (i : string) (t : Table) :
  has_id i t = false -> count_id i t = 0.
Proof.
  unfold has_id, count_id. induction t as [|r t IH]; simpl; [reflexivity|].
  destruct (id r =? i); simpl; [discriminate|assumption].
Qed.

Lemma count_id_present (i : string) (t : Table) :
  pk_unique t -> has_id i t = true -> count_id i t = 1.
Proof.
  unfold pk_unique, count_id. induction t as [|r t IH]; intros Hnd Hin.
  - discriminate.
  - inversion Hnd as [|? ? Hnotin Hnd']; subst.
    cbn [filter]. unfold has_id in Hin. cbn [existsb] in Hin.
    destruct (id r =? i) eqn:E.
    + apply String.eqb_eq in E. subst i. cbn [length]. f_equal.
      apply (count_id_absent (id r) t).
      destruct (has_id (id r) t) eqn:H; [|reflexivity].
      apply has_id_In in H. contradiction.
    + apply IH; assumption.
Qed.

Lemma NoDup_snoc {A} (l : list A) (a : A) :
  NoDup l -> ~ In a l -> NoDup (l ++ [a])%list.
Proof.
  induction l as [|x l IH]; simpl; intros Hnd Hnotin.
  - constructor; [intros []|constructor].
  - inversion Hnd; subst. constructor.
    + rewrite in_app_iff. simpl. intuition congruence.
    + apply IH; intuition.
Qed.

Lemma insert_or_ignore_present (r : Row) (t : Table) :
  has_id (id r) t = true -> insert_or_ignore r t = (t, 0).
Proof. unfold insert_or_ignore. now intros ->. Qed.

Lemma insert_or_ignore_absent (r : Row) (t : Table) :
  has_id (id r) t = false -> insert_or_ignore r t = ((t ++ [r])%list, 1).
Proof. unfold insert_or_ignore. now intros ->. Qed.

Lemma insert_or_ignore_has_id (r : Row) (t : Table) :
  has_id (id r) (fst (insert_or_ignore r t)) = true.
Proof.
  unfold insert_or_ignore. destruct (has_id (id r) t) eqn:E; simpl.
  - assumption.
  - rewrite has_id_app. unfold has_id at 2. simpl. rewrite String.eqb_refl.
    now rewrite orb_true_r.
Qed.

Lemma insert_or_ignore_extends (r : Row) (t : Table) :
  exists added, fst (insert_or_ignore r t) = (t ++ added)%list.
Proof.
  unfold insert_or_ignore. destruct (has_id (id r) t); simpl.
  - exists []. now rewrite app_nil_r.
  - now exists [r].
Qed.

Lemma insert_or_ignore_pk (r : Row) (t : Table) :
  pk_unique t -> pk_unique (fst (insert_or_ignore r t)).
Proof.
  unfold insert_or_ignore, pk_unique. intros Hnd.
  destruct (has_id (id r) t) eqn:E; simpl; [assumption|].
  rewrite map_app. simpl. apply NoDup_snoc; [assumption|].
  intros Hin. apply has_id_In in Hin. congruence.
Qed.

(** ** Ordering of the read queries *)

Lemma ltb_false_leb (s1 s2 : string) :
  (s1 <? s2)%string = false -> (s2 <=? s1)%string = true.
Proof.
  unfold String.ltb, String.leb. rewrite (String.compare_antisym s1 s2).
  destruct (String.compare s2 s1); simpl; congruence.
Qed.

Lemma ltb_true_leb (s1 s2 : string) :
  (s1 <? s2)%string = true -> (s1 <=? s2)%string = true.
Proof.
  unfold String.ltb, String.leb.
  destruct (String.compare s1 s2); simpl; congruence.
Qed.

Lemma insert_desc_HdRel (x r : Row) (l : list Row) :
  not_older x r -> HdRel not_older x l -> HdRel not_older x (insert_desc r l).
Proof.
  intros Hxr Hhd. destruct l as [|y l]; simpl.
  - now constructor.
  - destruct (created_at r <? created_at y)%string.
    + constructor. now inversion Hhd.
    + now constructor.
Qed.

Lemma insert_desc_Sorted (r : Row) (l : list Row) :
  Sorted not_older l -> Sorted not_older (insert_desc r l).
Proof.
  induction l as [|x l IH]; simpl; intros Hs.
  - repeat constructor.
  - inversion Hs as [|? ? Hs' Hhd]; subst.
    destruct (created_at r <? created_at x)%string eqn:E.
    + constructor; [now apply IH|].
      apply insert_desc_HdRel; [|assumption].
      unfold not_older. now apply ltb_true_leb.
    + constructor; [assumption|]. constructor.
      unfold not_older. now apply ltb_false_leb.
Qed.

Lemma order_by_Sorted (t : list Row) :
  Sorted not_older (order_by_created_at_desc t).
Proof.
  induction t as [|r t IH]; simpl; [constructor|].
  now apply insert_desc_Sorted.
Qed.

Lemma insert_desc_Permutation (r : Row) (l : list Row) :
  Permutation (r :: l) (insert_desc r l).
Proof.
  induction l as [|x l IH]; simpl; [reflexivity|].
  destruct (created_at r <? created_at x)%string; [|reflexivity].
  rewrite perm_swap. now constructor.
Qed.

Lemma order_by_Permutation (t : list Row) :
  Permutation t (order_by_created_at_desc t).
Proof.
  induction t as [|r t IH]; simpl; [constructor|].
  rewrite <- insert_desc_Permutation. now constructor.
Qed.

Lemma Sorted_firstn {A} (R : A -> A -> Prop) (n : nat) (l : list A) :
  Sorted R l -> Sorted R (firstn n l).
Proof.
  revert l. induction n as [|n IH]; intros l Hs; [constructor|].
  destruct l as [|x l]; [constructor|].
  inversion Hs as [|? ? Hs' Hhd]; subst.
  change (firstn (S n) (x :: l)) with (x :: firstn n l).
  constructor; [now apply IH|].
  destruct l as [|y l]; destruct n; try constructor.
  now inversion Hhd.
Qed.

End StoreFacts.

(* ================================================================== *)
(** * Reasoning rules for computations *)

Section Rules.
Context {N : JsNumber} {B : JsBuiltins}.
Variable R : State -> State -> Prop.
Hypothesis R_refl : forall st, R st st.
Hypothesis R_trans : forall s1 s2 s3, R s1 s2 -> R s2 s3 -> R s1 s3.

Lemma sound_ret {A} (a : A) : sound R (ret a).
Proof. intros st. apply R_refl. Qed.

Lemma sound_lift {A} (c : Completion A) : sound R (lift c).
Proof. intros st. apply R_refl. Qed.

Lemma sound_bind {A C} (m : M A) (k : A -> M C) :
  sound R m -> (forall a, sound R (k a)) -> sound R (bind m k).
Proof.
  intros Hm Hk st. unfold bind. specialize (Hm st).
  destruct (m st) as [[a|e] st']; simpl in *; [|assumption].
  eapply R_trans; [eassumption|apply Hk].
Qed.

Lemma sound_bind_lift {A C} (c : Completion A) (k : A -> M C) :
  (forall a, c = Normal a -> sound R (k a)) -> sound R (bind (lift c) k).
Proof.
  intros Hk st. unfold bind, lift. destruct c as [a|e]; simpl.
  - now apply Hk.
  - apply R_refl.
Qed.

Lemma sound_try_catch {A} (body : M A) (handler : exn -> M A) :
  sound R body -> (forall e, sound R (handler e)) ->
  sound R (try_catch body handler).
Proof.
  intros Hb Hh st. unfold try_catch. specialize (Hb st).
  destruct (body st) as [[a|e] st']; simpl in *; [assumption|].
  eapply R_trans; [eassumption|apply Hh].
Qed.

Lemma sound_get_inserted (f : Frame) : sound R (get_inserted f).
Proof. intros st. apply R_refl. Qed.

End Rules.

Section StepRules.
Context {N : JsNumber} {B : JsBuiltins}.
Variable w : World.
Variable R : State -> State -> Prop.
Hypothesis R_refl : forall st, R st st.
Hypothesis R_trans : forall s1 s2 s3, R s1 s2 -> R s2 s3 -> R s1 s3.

Lemma sound_forOf (body : JSValue -> M unit) (items : list JSValue) :
  (forall x, sound R (body x)) -> sound R (forOf body items).
Proof.
  intros Hb. induction items as [|x rest IH]; simpl.
  - now apply sound_ret.
  - apply sound_bind; auto.
Qed.

Lemma sound_await_fetch (url : string) : sound R (await_fetch w url).
Proof. intros st. unfold await_fetch. destruct (fetch w url); apply R_refl. Qed.

Lemma sound_await_json (res : Response) : sound R (await_json res).
Proof. intros st. unfold await_json. destruct (json res); apply R_refl. Qed.

Lemma sound_await_text (res : Response) : sound R (await_text res).
Proof. intros st. unfold await_text. destruct (text res); apply R_refl. Qed.

Lemma sound_run_steps (steps : list (M unit)) :
  (forall step, In step steps -> sound R step) -> sound R (run_steps steps).
Proof.
  induction steps as [|s rest IH]; simpl; intros H.
  - now apply sound_ret.
  - apply sound_bind; auto.
Qed.

Lemma sound_settle (steps : list (M unit)) (st : State) :
  (forall step, In step steps -> sound R step) -> R st (snd (settle steps st)).
Proof.
  revert st. induction steps as [|s rest IH]; simpl; intros st H.
  - apply R_refl.
  - assert (Hs : R st (snd (s st))) by (apply H; now left).
    destruct (s st) as [[[]|e] st']; simpl in *; [|assumption].
    eapply R_trans; [eassumption|]. apply IH. auto.
Qed.

Lemma sound_allSettled (sched : list bool) (a b : list (M unit)) (st : State) :
  (forall step, In step a -> sound R step) ->
  (forall step, In step b -> sound R step) ->
  R st (snd (allSettled sched a b st)).
Proof.
  revert a b st. induction sched as [|pick sched IH]; intros a b st Ha Hb.
  - simpl.
    pose proof (sound_settle a st Ha) as H1.
    destruct (settle a st) as [ra st1]. simpl in H1.
    pose proof (sound_settle b st1 Hb) as H2.
    destruct (settle b st1) as [rb st2]. simpl in *.
    eapply R_trans; eassumption.
  - destruct pick; simpl.
    + destruct a as [|s a'].
      * pose proof (sound_settle b st Hb) as H2.
        now destruct (settle b st).
      * assert (Hs : R st (snd (s st))) by (apply Ha; now left).
        destruct (s st) as [[[]|e] st']; simpl in *.
        -- eapply R_trans; [eassumption|].
           apply IH; auto; intros; apply Ha; now right.
        -- pose proof (sound_settle b st' Hb) as H2.
           destruct (settle b st'). simpl in *. eapply R_trans; eassumption.
    + destruct b as [|s b'].
      * pose proof (sound_settle a st Ha) as H2.
        now destruct (settle a st).
      * assert (Hs : R st (snd (s st))) by (apply Hb; now left).
        destruct (s st) as [[[]|e] st']; simpl in *.
        -- eapply R_trans; [eassumption|].
           apply IH; auto; intros; apply Hb; now right.
        -- pose proof (sound_settle a st' Ha) as H2.
           destruct (settle a st'). simpl in *. eapply R_trans; eassumption.
Qed.

(** What the relation must absorb: the console writes of the events in
    [E], assignments to the counters and the statements run for the items
    of each loop. *)
Variable E : LogEvent -> Prop.
Hypothesis R_console : forall ev st, E ev -> R st (write_console ev st).
Hypothesis R_inserted : forall f n st, R st (set_inserted f n st).

Lemma sound_log (ev : LogEvent) : E ev -> sound R (log ev).
Proof. intros He st. now apply R_console. Qed.

Lemma sound_let_inserted (f : Frame) (n : nat) : sound R (let_inserted f n).
Proof. intros st. apply R_inserted. Qed.

Lemma sound_run_and_count (f : Frame) (p : PostParams) :
  sound R (insertPost w p) -> sound R (run_and_count w f p).
Proof.
  intros H. unfold run_and_count, count_changes.
  apply sound_bind; [assumption|assumption|]. intros c.
  destruct (Nat.ltb 0 c).
  - apply sound_bind; [assumption|now apply sound_get_inserted|].
    intros n. apply sound_let_inserted.
  - now apply sound_ret.
Qed.

Ltac sound_go :=
  repeat (first
            [ exact R_refl
            | exact R_trans
            | match goal with |- forall _, _ => intro end
            | assumption
            | apply sound_ret
            | apply sound_lift
            | apply sound_get_inserted
            | apply sound_await_fetch
            | apply sound_await_json
            | apply sound_await_text
            | apply sound_log;
              match goal with
              | H : forall ev, x_event ev = _ -> E ev |- _ =>
                  apply H; reflexivity
              end
            | apply sound_let_inserted
            | apply sound_run_and_count; solve [eauto]
            | apply sound_bind_lift
            | apply sound_bind
            | apply sound_try_catch
            | apply sound_forOf
            | match goal with
              | |- sound _ (if ?c then _ else _) => destruct c
              | |- sound _ (match ?o with Some _ => _ | None => _ end) =>
                  destruct o
              end ]).

Section Reddit.
Hypothesis E_reddit : forall ev, x_event ev = false -> E ev.
Hypothesis R_post : forall child p,
  redditPost child = Normal p -> sound R (insertPost w p).
Hypothesis R_comment : forall child p,
  commentItem child = Normal (Some p) -> sound R (insertPost w p).

Lemma sound_pollReddit_primary : sound R (pollReddit_primary w).
Proof. unfold pollReddit_primary. sound_go. Qed.

Lemma sound_pollReddit_search (subreddit : string) :
  sound R (pollReddit_search w subreddit).
Proof. unfold pollReddit_search. sound_go. Qed.

Lemma sound_pollSubredditComments : sound R (pollSubredditComments w).
Proof. unfold pollSubredditComments. sound_go. Qed.

Lemma sound_pollReddit_steps (step : M unit) :
  In step (pollReddit_steps w) -> sound R step.
Proof.
  unfold pollReddit_steps. rewrite !in_app_iff. simpl.
  intros [[H|[]]|[[H|[]]|[H|[[H|[]]|[H|[]]]]]]; subst.
  - sound_go.
  - apply sound_pollReddit_primary.
  - apply in_map_iff in H. destruct H as [sub [<- _]].
    apply sound_pollReddit_search.
  - sound_go.
  - apply sound_pollSubredditComments.
Qed.

End Reddit.

Section X.
Hypothesis E_x : forall ev, x_event ev = true -> E ev.
Hypothesis R_tweet : forall tweet p,
  xPost tweet = Normal p -> sound R (insertPost w p).

Lemma sound_pollX_search : sound R (pollX_search w).
Proof. unfold pollX_search. sound_go. Qed.

Lemma sound_pollX_steps (step : M unit) :
  In step (pollX_steps w) -> sound R step.
Proof.
  unfold pollX_steps.
  destruct (negb (truthy (env_value (X_BEARER_TOKEN w)))); simpl.
  - intros [H|[]]; subst. sound_go.
  - intros [H|[H|[]]]; subst.
    + sound_go.
    + apply sound_pollX_search.
Qed.

End X.

End StepRules.

(* ================================================================== *)
(** * No exception leaves a poller *)

Section NoThrow.
Context {N : JsNumber} {B : JsBuiltins}.
Variable w : World.

Lemma no_throw_ret {A} (a : A) : no_throw (ret a).
Proof. intros st. now exists a. Qed.

Lemma no_throw_log (ev : LogEvent) : no_throw (log ev).
Proof. intros st. now exists tt. Qed.

Lemma no_throw_let_inserted (f : Frame) (n : nat) : no_throw (let_inserted f n).
Proof. intros st. now exists tt. Qed.

Lemma no_throw_get_inserted (f : Frame) : no_throw (get_inserted f).
Proof. intros st. now exists (inserted f st). Qed.

Lemma no_throw_bind {A C} (m : M A) (k : A -> M C) :
  no_throw m -> (forall a, no_throw (k a)) -> no_throw (bind m k).
Proof.
  intros Hm Hk st. unfold bind. destruct (Hm st) as [a Ha].
  destruct (m st) as [c st']. simpl in Ha. subst c. apply Hk.
Qed.

Lemma no_throw_try_catch {A} (body : M A) (handler : exn -> M A) :
  (forall e, no_throw (handler e)) -> no_throw (try_catch body handler).
Proof.
  intros Hh st. unfold try_catch.
  destruct (body st) as [[a|e] st']; [now exists a|apply Hh].
Qed.

Ltac no_throw_go :=
  repeat (first
            [ match goal with |- forall _, _ => intro end
            | apply no_throw_ret
            | apply no_throw_log
            | apply no_throw_let_inserted
            | apply no_throw_get_inserted
            | apply no_throw_try_catch
            | apply no_throw_bind
            | match goal with
              | |- no_throw (if ?c then _ else _) => destruct c
              end ]).

Lemma no_throw_pollReddit_steps (step : M unit) :
  In step (pollReddit_steps w) -> no_throw step.
Proof.
  unfold pollReddit_steps. rewrite !in_app_iff. simpl.
  intros [[H|[]]|[[H|[]]|[H|[[H|[]]|[H|[]]]]]]; subst.
  - no_throw_go.
  - unfold pollReddit_primary. no_throw_go.
  - apply in_map_iff in H. destruct H as [sub [<- _]].
    unfold pollReddit_search. no_throw_go.
  - no_throw_go.
  - unfold pollSubredditComments. no_throw_go.
Qed.

Lemma no_throw_pollX_steps (step : M unit) :
  In step (pollX_steps w) -> no_throw step.
Proof.
  unfold pollX_steps.
  destruct (negb (truthy (env_value (X_BEARER_TOKEN w)))); simpl.
  - intros [H|[]]; subst. no_throw_go.
  - intros [H|[H|[]]]; subst.
    + no_throw_go.
    + unfold pollX_search. no_throw_go.
Qed.

(** A poller on its own: settling its steps is running them in order. *)
Lemma settle_run_steps (steps : list (M unit)) (st : State) :
  snd (settle steps st) = snd (run_steps steps st) /\
  (fst (settle steps st) = fulfilled <-> fst (run_steps steps st) = Normal tt).
Proof.
  revert st. induction steps as [|s rest IH]; intros st; simpl.
  - split; [reflexivity|]. split; reflexivity.
  - unfold bind. destruct (s st) as [[[]|e] st']; [apply IH|].
    simpl. split; [reflexivity|]. split; discriminate.
Qed.

Lemma settle_fulfilled (steps : list (M unit)) (st : State) :
  (forall step, In step steps -> no_throw step) ->
  fst (settle steps st) = fulfilled.
Proof.
  revert st. induction steps as [|s rest IH]; simpl; intros st H.
  - reflexivity.
  - destruct (H s (or_introl eq_refl) st) as [[] Hs].
    destruct (s st) as [c st']. simpl in Hs. subst c. apply IH. auto.
Qed.

Lemma allSettled_fulfilled (sched : list bool) (a b : list (M unit)) (st : State) :
  (forall step, In step a -> no_throw step) ->
  (forall step, In step b -> no_throw step) ->
  fst (allSettled sched a b st) = (fulfilled, fulfilled).
Proof.
  revert a b st. induction sched as [|pick sched IH]; intros a b st Ha Hb.
  - simpl. pose proof (settle_fulfilled a st Ha) as H1.
    destruct (settle a st) as [ra st1]. simpl in H1. subst ra.
    pose proof (settle_fulfilled b st1 Hb) as H2.
    destruct (settle b st1) as [rb st2]. simpl in H2. now subst rb.
  - destruct pick; simpl.
    + destruct a as [|s a'].
      * pose proof (settle_fulfilled b st Hb) as H2.
        destruct (settle b st) as [rb st2]. simpl in H2. now subst rb.
      * destruct (Ha s (or_introl eq_refl) st) as [[] Hs].
        destruct (s st) as [c st']. simpl in Hs. subst c.
        apply IH; auto. intros; apply Ha; now right.
    + destruct b as [|s b'].
      * pose proof (settle_fulfilled a st Ha) as H2.
        destruct (settle a st) as [ra st2]. simpl in H2. now subst ra.
      * destruct (Hb s (or_introl eq_refl) st) as [[] Hs].
        destruct (s st) as [c st']. simpl in Hs. subst c.
        apply IH; auto. intros; apply Hb; now right.
Qed.

(** A property that one step establishes and every step keeps holds
    when both pollers have settled. *)
Section Reach.
Variable Q : State -> Prop.

Lemma settle_reaches (steps : list (M unit)) (step : M unit) (st : State) :
  (forall s, In s steps -> no_throw s) ->
  (forall s, In s steps -> sound (fun st st' => Q st -> Q st') s) ->
  In step steps -> (forall st, Q (snd (step st))) ->
  Q (snd (settle steps st)).
Proof.
  revert st. induction steps as [|s rest IH]; simpl; intros st Hnt Hk Hin Hq.
  - contradiction.
  - destruct (Hnt s (or_introl eq_refl) st) as [[] Hs].
    destruct Hin as [->|Hin].
    + specialize (Hq st). destruct (step st) as [c st']. simpl in *. subst c.
      revert Hq.
      apply (sound_settle (R := fun st st' => Q st -> Q st')); auto.
    + destruct (s st) as [c st']. simpl in Hs. subst c. apply IH; auto.
Qed.

Lemma allSettled_reaches (sched : list bool) (a b : list (M unit))
      (step : M unit) (st : State) :
  (forall s, In s a \/ In s b -> no_throw s) ->
  (forall s, In s a \/ In s b -> sound (fun st st' => Q st -> Q st') s) ->
  In step a \/ In step b -> (forall st, Q (snd (step st))) ->
  Q (snd (allSettled sched a b st)).
Proof.
  set (K := fun st st' : State => Q st -> Q st').
  assert (Krefl : forall st, K st st) by (unfold K; auto).
  assert (Ktrans : forall s1 s2 s3, K s1 s2 -> K s2 s3 -> K s1 s3)
    by (unfold K; auto).
  revert a b st. induction sched as [|pick sched IH];
    intros a b st Hnt Hk Hin Hq.
  - simpl.
    pose proof (settle_fulfilled a st (fun s H => Hnt s (or_introl H))) as Fa.
    destruct Hin as [Hin|Hin].
    + pose proof (@settle_reaches a step st (fun s H => Hnt s (or_introl H))
                    (fun s H => Hk s (or_introl H)) Hin Hq) as H1.
      destruct (settle a st) as [ra st1]. simpl in *.
      pose proof (sound_settle (R := K) Krefl Ktrans b st1
                    (fun s H => Hk s (or_intror H))) as H2.
      destruct (settle b st1) as [rb st2]. simpl in *. now apply H2.
    + destruct (settle a st) as [ra st1]. simpl in *.
      pose proof (@settle_reaches b step st1 (fun s H => Hnt s (or_intror H))
                    (fun s H => Hk s (or_intror H)) Hin Hq) as H2.
      now destruct (settle b st1) as [rb st2].
  - destruct pick; simpl.
    + destruct a as [|s a'].
      * destruct Hin as [[]|Hin].
        pose proof (@settle_reaches b step st (fun s H => Hnt s (or_intror H))
                      (fun s H => Hk s (or_intror H)) Hin Hq) as H2.
        now destruct (settle b st) as [rb st2].
      * destruct (Hnt s (or_introl (or_introl eq_refl)) st) as [[] Hs].
        destruct Hin as [[->|Hin]|Hin].
        -- specialize (Hq st). destruct (step st) as [c st']. simpl in *. subst c.
           revert Hq. apply (sound_allSettled (R := K) Krefl Ktrans).
           ++ intros s0 H0. apply Hk. left. now right.
           ++ intros s0 H0. apply Hk. now right.
        -- destruct (s st) as [c st']. simpl in Hs. subst c.
           apply IH; auto.
           ++ intros s0 [H0|H0]; apply Hnt; [left; now right|now right].
           ++ intros s0 [H0|H0]; apply Hk; [left; now right|now right].
        -- destruct (s st) as [c st']. simpl in Hs. subst c.
           apply IH; auto.
           ++ intros s0 [H0|H0]; apply Hnt; [left; now right|now right].
           ++ intros s0 [H0|H0]; apply Hk; [left; now right|now right].
    + destruct b as [|s b'].
      * destruct Hin as [Hin|[]].
        pose proof (@settle_reaches a step st (fun s H => Hnt s (or_introl H))
                      (fun s H => Hk s (or_introl H)) Hin Hq) as H2.
        now destruct (settle a st) as [ra st2].
      * destruct (Hnt s (or_intror (or_introl eq_refl)) st) as [[] Hs].
        destruct Hin as [Hin|[->|Hin]].
        -- destruct (s st) as [c st']. simpl in Hs. subst c.
           apply IH; auto.
           ++ intros s0 [H0|H0]; apply Hnt; [now left|right; now right].
           ++ intros s0 [H0|H0]; apply Hk; [now left|right; now right].
        -- specialize (Hq st). destruct (step st) as [c st']. simpl in *. subst c.
           revert Hq. apply (sound_allSettled (R := K) Krefl Ktrans).
           ++ intros s0 H0. apply Hk. now left.
           ++ intros s0 H0. apply Hk. right. now right.
        -- destruct (s st) as [c st']. simpl in Hs. subst c.
           apply IH; auto.
           ++ intros s0 [H0|H0]; apply Hnt; [now left|right; now right].
           ++ intros s0 [H0|H0]; apply Hk; [now left|right; now right].
Qed.

End Reach.

End NoThrow.

(* ================================================================== *)
(** * [insertPost.run] *)

Section InsertPost.
Context {N : JsNumber} {B : JsBuiltins}.
Variable w : World.

Lemma bindRow_Normal (p : PostParams) (now : string) (r : Row) :
  bindRow p now = Normal r ->
  id r = at_id p /\ source r = at_source p /\
  bindValue (at_body p) = Normal (body r) /\
  created_at r = at_created_at p /\ fetched_at r = now.
Proof.
  unfold bindRow.
  destruct (bindValue (at_title p)); simpl; [|discriminate].
  destruct (bindValue (at_body p)); simpl; [|discriminate].
  destruct (bindValue (at_url p)); simpl; [|discriminate].
  destruct (bindValue (at_author p)); simpl; [|discriminate].
  destruct (bindValue (at_score p)); simpl; [|discriminate].
  destruct (bindValue (at_subreddit p)); simpl; [|discriminate].
  destruct (bindValue (at_permalink p)); simpl; [|discriminate].
  destruct (bindValue (at_metrics p)); simpl; [|discriminate].
  intros H. injection H as <-. simpl. auto.
Qed.

Lemma bindRow_clock (p : PostParams) (now now' : string) (r : Row) :
  bindRow p now = Normal r -> exists r', bindRow p now' = Normal r'.
Proof.
  unfold bindRow.
  destruct (bindValue (at_title p)); simpl; [|discriminate].
  destruct (bindValue (at_body p)); simpl; [|discriminate].
  destruct (bindValue (at_url p)); simpl; [|discriminate].
  destruct (bindValue (at_author p)); simpl; [|discriminate].
  destruct (bindValue (at_score p)); simpl; [|discriminate].
  destruct (bindValue (at_subreddit p)); simpl; [|discriminate].
  destruct (bindValue (at_permalink p)); simpl; [|discriminate].
  destruct (bindValue (at_metrics p)); simpl; [|discriminate].
  intros _. eexists. reflexivity.
Qed.

Lemma bindable_bindRow (p : PostParams) (now : string) :
  bindable p = true -> exists r, bindRow p now = Normal r.
Proof.
  unfold bindable. destruct (bindRow p "") as [r|e] eqn:E; [|discriminate].
  intros _. eapply bindRow_clock. eassumption.
Qed.

(** The two ways a call ends: a TypeError before the statement runs, or
    the statement's effect on the table. *)
Lemma insertPost_cases (p : PostParams) (st : State) :
  (exists e, insertPost w p st = (Throw e, st)) \/
  (exists r,
      bindRow p (datetime_now w (statements st)) = Normal r /\
      insertPost w p st =
        (Normal (snd (insert_or_ignore r (posts st))),
         after_statement (fst (insert_or_ignore r (posts st))) st)).
Proof.
  unfold insertPost.
  destruct (bindRow p (datetime_now w (statements st))) as [r|e].
  - right. exists r. split; [reflexivity|].
    now destruct (insert_or_ignore r (posts st)).
  - left. now exists e.
Qed.

(** A property of the table that every accepted row keeps is kept by the
    call. *)
Lemma insertPost_table (P : Table -> Prop) (p : PostParams) :
  (forall now r t,
      bindRow p now = Normal r -> P t -> P (fst (insert_or_ignore r t))) ->
  sound (fun st st' => P (posts st) -> P (posts st')) (insertPost w p).
Proof.
  intros H st. destruct (insertPost_cases p st) as [[e ->]|[r [Hr ->]]]; simpl.
  - auto.
  - eauto.
Qed.

(** The table only grows. *)
Lemma insertPost_has_id (i : string) (p : PostParams) :
  sound (fun st st' => has_id i (posts st) = true -> has_id i (posts st') = true)
        (insertPost w p).
Proof.
  apply (insertPost_table (fun t => has_id i t = true)).
  intros now r t _ Hi.
  destruct (insert_or_ignore_extends r t) as [added ->].
  rewrite has_id_app, Hi. reflexivity.
Qed.

Lemma insertPost_pk (p : PostParams) :
  sound (fun st st' => pk_unique (posts st) -> pk_unique (posts st'))
        (insertPost w p).
Proof.
  apply (insertPost_table pk_unique).
  intros now r t _. apply insert_or_ignore_pk.
Qed.

Lemma counts_refl (f : Frame) (st : State) : counts f st st.
Proof. unfold counts. lia. Qed.

Lemma counts_trans (f : Frame) (s1 s2 s3 : State) :
  counts f s1 s2 -> counts f s2 s3 -> counts f s1 s3.
Proof. unfold counts. lia. Qed.

Lemma run_and_count_counts (f : Frame) (p : PostParams) :
  sound (counts f) (run_and_count w f p).
Proof.
  intros st. unfold run_and_count, bind, counts.
  destruct (insertPost_cases p st) as [[e ->]|[r [Hr ->]]]; simpl; [lia|].
  unfold insert_or_ignore. destruct (has_id (id r) (posts st)); simpl.
  - destruct f; simpl; lia.
  - destruct f; simpl; rewrite length_app; simpl; lia.
Qed.

Lemma forOf_counts (f : Frame) (item : JSValue -> Completion (option PostParams))
      (body : JSValue -> M unit) (children : list JSValue) :
  (forall child,
      body child = (o <- lift (item child);;
                    match o with
                    | None => ret tt
                    | Some p => run_and_count w f p
                    end)) ->
  sound (counts f) (forOf body children).
Proof.
  intros Hbody.
  apply sound_forOf; [apply counts_refl|apply counts_trans|].
  intros child. rewrite Hbody.
  apply sound_bind_lift; [apply counts_refl|].
  intros [p|] _.
  - apply run_and_count_counts.
  - apply sound_ret. apply counts_refl.
Qed.

Lemma insertRedditChild_shape (child : JSValue) :
  insertRedditChild w child =
    (o <- lift (redditItem child);;
     match o with
     | None => ret tt
     | Some p => run_and_count w in_pollReddit p
     end).
Proof.
  unfold insertRedditChild, redditItem, bind, lift, cbind.
  now destruct (redditPost child).
Qed.

Lemma insertTweet_shape (tweet : JSValue) :
  insertTweet w tweet =
    (o <- lift (tweetItem tweet);;
     match o with
     | None => ret tt
     | Some p => run_and_count w in_pollX p
     end).
Proof.
  unfold insertTweet, tweetItem, bind, lift, cbind.
  now destruct (xPost tweet).
Qed.

End InsertPost.

(* ================================================================== *)
(** * What the loops build *)

Section Items.
Context {N : JsNumber} {B : JsBuiltins}.
Variable w : World.

Lemma redditPost_Normal (child : JSValue) (p : PostParams) :
  redditPost child = Normal p ->
  at_id p = "reddit_" ++ ToString (prop (prop child "data") "id") /\
  at_source p = "reddit" /\
  at_body p = js_or (prop (prop child "data") "selftext") JNull.
Proof.
  unfold redditPost, member, template, date_string.
  destruct (nullish child); simpl; [discriminate|].
  destruct (nullish (prop child "data")); simpl; [discriminate|].
  destruct (printable (prop (prop child "data") "id")); simpl; [|discriminate].
  destruct (printable (prop (prop child "data") "permalink")); simpl;
    [|discriminate].
  destruct (printable (prop (prop child "data") "created_utc")); simpl;
    [|discriminate].
  destruct (epoch_toISOString (prop (prop child "data") "created_utc"));
    simpl; [|discriminate].
  intros H. injection H as <-. simpl. auto.
Qed.

Lemma redditComment_Normal (c : JSValue) (p : PostParams) :
  redditComment c = Normal p ->
  at_id p = "reddit_comment_" ++ ToString (prop c "id") /\
  at_source p = "reddit_comment" /\
  at_body p = prop c "body".
Proof.
  unfold redditComment, member, template, date_string.
  destruct (nullish c); simpl; [discriminate|].
  destruct (printable (prop c "id")); simpl; [|discriminate].
  destruct (printable (prop c "permalink")); simpl; [|discriminate].
  destruct (printable (prop c "created_utc")); simpl; [|discriminate].
  destruct (epoch_toISOString (prop c "created_utc")); simpl; [|discriminate].
  intros H. injection H as <-. simpl. auto.
Qed.

Lemma commentItem_Some (child : JSValue) (p : PostParams) :
  commentItem child = Normal (Some p) ->
  at_id p = "reddit_comment_" ++ ToString (prop (prop child "data") "id") /\
  at_source p = "reddit_comment" /\
  at_body p = prop (prop child "data") "body" /\
  truthy (at_body p) = true /\
  strict_eq_str (at_body p) "[deleted]" = false /\
  strict_eq_str (at_body p) "[removed]" = false.
Proof.
  unfold commentItem, member.
  destruct (nullish child); simpl; [discriminate|].
  destruct (negb (strict_eq_str (prop child "kind") "t1")); [discriminate|].
  destruct (nullish (prop child "data")); simpl; [discriminate|].
  destruct (truthy (prop (prop child "data") "body")) eqn:Et; simpl;
    [|discriminate].
  destruct (strict_eq_str (prop (prop child "data") "body") "[deleted]") eqn:Ed;
    simpl; [discriminate|].
  destruct (strict_eq_str (prop (prop child "data") "body") "[removed]") eqn:Er;
    simpl; [discriminate|].
  destruct (redditComment (prop child "data")) as [q|e] eqn:Eq; simpl;
    [|discriminate].
  intros H. injection H as <-.
  destruct (redditComment_Normal _ Eq) as [Hi [Hs Hb]].
  rewrite Hb. repeat split; assumption.
Qed.

Lemma xPost_Normal (tweet : JSValue) (p : PostParams) :
  xPost tweet = Normal p ->
  at_id p = "x_" ++ ToString (prop tweet "id") /\ at_source p = "x".
Proof.
  unfold xPost, member, template, date_string.
  destruct (nullish tweet); simpl; [discriminate|].
  destruct (printable (prop tweet "id")); simpl; [|discriminate].
  destruct (printable (prop tweet "created_at")); simpl; [|discriminate].
  destruct (date_toISOString (prop tweet "created_at")); simpl; [|discriminate].
  intros H. injection H as <-. simpl. auto.
Qed.

(** ** Invariants of the table over a whole cycle *)

Section TableInvariant.
Variable P : Table -> Prop.
Hypothesis P_post : forall child p now r t,
  redditPost child = Normal p -> bindRow p now = Normal r ->
  P t -> P (fst (insert_or_ignore r t)).
Hypothesis P_comment : forall child p now r t,
  commentItem child = Normal (Some p) -> bindRow p now = Normal r ->
  P t -> P (fst (insert_or_ignore r t)).
Hypothesis P_tweet : forall tweet p now r t,
  xPost tweet = Normal p -> bindRow p now = Normal r ->
  P t -> P (fst (insert_or_ignore r t)).

Let K (st st' : State) : Prop := P (posts st) -> P (posts st').

Lemma table_step_refl (st : State) : K st st.
Proof. unfold K. auto. Qed.

Lemma table_step_trans (s1 s2 s3 : State) : K s1 s2 -> K s2 s3 -> K s1 s3.
Proof. unfold K. auto. Qed.

Lemma table_step_console (ev : LogEvent) (st : State) :
  True -> K st (write_console ev st).
Proof. unfold K. auto. Qed.

Lemma table_step_inserted (f : Frame) (n : nat) (st : State) : K st (set_inserted f n st).
Proof. unfold K. destruct f; auto. Qed.

Lemma table_invariant_reddit_step (step : M unit) :
  In step (pollReddit_steps w) -> sound K step.
Proof.
  apply (sound_pollReddit_steps table_step_refl table_step_trans (fun _ => True)
           table_step_console table_step_inserted); [auto| |].
  - intros child p Hp. apply (insertPost_table w P). eauto.
  - intros child p Hp. apply (insertPost_table w P). eauto.
Qed.

Lemma table_invariant_x_step (step : M unit) :
  In step (pollX_steps w) -> sound K step.
Proof.
  apply (sound_pollX_steps table_step_refl table_step_trans (fun _ => True)
           table_step_console table_step_inserted); [auto|].
  intros tweet p Hp. apply (insertPost_table w P). eauto.
Qed.

Lemma table_invariant_cycle (sched : list bool) (st : State) :
  P (posts st) -> P (posts (snd (pollAll_settled w sched st))).
Proof.
  unfold pollAll_settled.
  apply (sound_allSettled table_step_refl table_step_trans).
  - intros step. apply table_invariant_reddit_step.
  - intros step. apply table_invariant_x_step.
Qed.

End TableInvariant.

Lemma pollAll_has_id (i : string) (sched : list bool) (st : State) :
  has_id i (posts st) = true ->
  has_id i (posts (snd (pollAll_settled w sched st))) = true.
Proof.
  apply (table_invariant_cycle (fun t => has_id i t = true));
    intros ? ? ? r t _ _ Hi;
    destruct (insert_or_ignore_extends r t) as [added ->];
    rewrite has_id_app, Hi; reflexivity.
Qed.

Lemma pollAll_pk_unique (sched : list bool) (st : State) :
  pk_unique (posts st) -> pk_unique (posts (snd (pollAll_settled w sched st))).
Proof.
  apply (table_invariant_cycle pk_unique);
    intros ? ? ? r t _ _; apply insert_or_ignore_pk.
Qed.

End Items.

(* ================================================================== *)
(** * The items of a path reach the store *)

Section Reach.
Context {N : JsNumber} {B : JsBuiltins}.
Variable w : World.

Lemma keeps_refl (i : string) (st : State) : keeps i st st.
Proof. unfold keeps. auto. Qed.

Lemma keeps_trans (i : string) (s1 s2 s3 : State) :
  keeps i s1 s2 -> keeps i s2 s3 -> keeps i s1 s3.
Proof. unfold keeps. auto. Qed.

Lemma keeps_console (i : string) (ev : LogEvent) (st : State) :
  True -> keeps i st (write_console ev st).
Proof. unfold keeps. auto. Qed.

Lemma keeps_inserted (i : string) (f : Frame) (n : nat) (st : State) :
  keeps i st (set_inserted f n st).
Proof. unfold keeps. destruct f; auto. Qed.

Lemma keeps_run_and_count (i : string) (f : Frame) (p : PostParams) :
  sound (keeps i) (run_and_count w f p).
Proof.
  apply sound_run_and_count.
  - apply keeps_refl.
  - apply keeps_trans.
  - apply keeps_inserted.
  - apply insertPost_has_id.
Qed.

Lemma run_and_count_bindable (f : Frame) (p : PostParams) (st : State) :
  bindable p = true ->
  fst (run_and_count w f p st) = Normal tt /\
  has_id (at_id p) (posts (snd (run_and_count w f p st))) = true.
Proof.
  intros Hb. unfold run_and_count, bind.
  destruct (insertPost_cases w p st) as [[e He]|[r [Hr ->]]].
  - exfalso. unfold insertPost in He.
    destruct (bindable_bindRow p (datetime_now w (statements st)) Hb) as [r' Hr'].
    rewrite Hr' in He. destruct (insert_or_ignore r' (posts st)). discriminate.
  - destruct (bindRow_Normal _ _ Hr) as [Hid _].
    pose proof (insert_or_ignore_has_id r (posts st)) as Hin.
    rewrite Hid in Hin.
    unfold count_changes.
    destruct (Nat.ltb 0 (snd (insert_or_ignore r (posts st)))); simpl.
    + split; [reflexivity|]. destruct f; exact Hin.
    + split; [reflexivity|]. exact Hin.
Qed.

Section Loop.
Variable f : Frame.
Variable item : JSValue -> Completion (option PostParams).
Variable body : JSValue -> M unit.
Hypothesis body_shape : forall child,
  body child = (o <- lift (item child);;
                match o with
                | None => ret tt
                | Some p => run_and_count w f p
                end).

Lemma loop_keeps (i : string) (children : list JSValue) :
  sound (keeps i) (forOf body children).
Proof.
  apply sound_forOf; [apply keeps_refl|apply keeps_trans|].
  intros child. rewrite body_shape.
  apply sound_bind_lift; [apply keeps_refl|].
  intros [p|] _.
  - apply keeps_run_and_count.
  - apply sound_ret, keeps_refl.
Qed.

Lemma loop_stores_yielded (children : list JSValue) (st : State) :
  all_stored (yielded item children) (snd (forOf body children st)).
Proof.
  revert st. induction children as [|child rest IH]; intros st p Hin.
  - contradiction.
  - simpl in Hin. simpl. unfold bind at 1. rewrite body_shape.
    unfold bind at 1, lift.
    destruct (item child) as [[q|]|e]; simpl in *.
    + destruct (bindable q) eqn:Hb; [|contradiction].
      destruct (run_and_count_bindable f q st Hb) as [Hn Hq].
      destruct (run_and_count w f q st) as [c st1]. simpl in *. subst c.
      destruct Hin as [<-|Hin].
      * revert Hq. apply loop_keeps.
      * now apply IH.
    + now apply IH.
    + contradiction.
Qed.

End Loop.

Lemma insertCommentChild_shape (child : JSValue) :
  insertCommentChild w child =
    (o <- lift (commentItem child);;
     match o with
     | None => ret tt
     | Some p => run_and_count w in_pollSubredditComments p
     end).
Proof. reflexivity. Qed.

Lemma all_stored_nil (st : State) : all_stored [] st.
Proof. intros p []. Qed.

Lemma primary_stores (st : State) :
  all_stored (primary_items w) (snd (pollReddit_primary w st)).
Proof.
  unfold pollReddit_primary, primary_items, visited, try_catch, bind,
    await_fetch, await_json, lift.
  destruct (fetch w primary_url) as [res|]; simpl;
    [|apply all_stored_nil].
  destruct (ok res); simpl; [|apply all_stored_nil].
  destruct (json res) as [data|]; simpl; [|apply all_stored_nil].
  destruct (iterate (listing_children data)) as [items|e]; simpl;
    [|apply all_stored_nil].
  pose proof (loop_stores_yielded in_pollReddit redditItem
                (insertRedditChild w) (insertRedditChild_shape w) items st) as H.
  destruct (forOf (insertRedditChild w) items st) as [[[]|e] st']; simpl in *;
    assumption.
Qed.

Lemma search_stores (subreddit : string) (st : State) :
  all_stored (search_items w subreddit) (snd (pollReddit_search w subreddit st)).
Proof.
  unfold pollReddit_search, search_items, visited, try_catch, bind,
    await_fetch, await_json, lift.
  destruct (fetch w (search_url subreddit)) as [res|]; simpl;
    [|apply all_stored_nil].
  destruct (ok res); simpl; [|apply all_stored_nil].
  destruct (json res) as [data|]; simpl; [|apply all_stored_nil].
  destruct (iterate (listing_children data)) as [items|e]; simpl;
    [|apply all_stored_nil].
  pose proof (loop_stores_yielded in_pollReddit redditItem
                (insertRedditChild w) (insertRedditChild_shape w) items st) as H.
  destruct (forOf (insertRedditChild w) items st) as [[[]|e] st']; simpl in *;
    assumption.
Qed.

Lemma comments_stores (st : State) :
  all_stored (comment_items w) (snd (pollSubredditComments w st)).
Proof.
  unfold pollSubredditComments. unfold bind at 1. unfold let_inserted.
  cbv beta iota.
  generalize (set_inserted in_pollSubredditComments 0 st). clear st. intros st.
  unfold comment_items, visited, try_catch, bind,
    await_fetch, await_json, lift, get_inserted, log, ret.
  destruct (fetch w comments_url) as [res|]; simpl;
    [|apply all_stored_nil].
  destruct (ok res); simpl; [|apply all_stored_nil].
  destruct (json res) as [data|]; simpl; [|apply all_stored_nil].
  destruct (iterate (listing_children data)) as [items|e]; simpl;
    [|apply all_stored_nil].
  pose proof (loop_stores_yielded in_pollSubredditComments commentItem
                (insertCommentChild w) (insertCommentChild_shape) items st) as H.
  destruct (forOf (insertCommentChild w) items st)
    as [[[]|e] st']; simpl in *; assumption.
Qed.

Lemma x_stores (st : State) :
  all_stored (x_items w) (snd (pollX_search w st)).
Proof.
  unfold pollX_search, x_items, visited, try_catch, bind,
    await_fetch, await_json, await_text, lift, get_inserted, log, ret.
  destruct (fetch w x_url) as [res|]; simpl; [|apply all_stored_nil].
  destruct (ok res); simpl;
    [|destruct (text res); simpl; apply all_stored_nil].
  destruct (json res) as [data|]; simpl; [|apply all_stored_nil].
  destruct (iterate (coalesce (optMember data "data") (JArr []))) as [items|e];
    simpl; [|apply all_stored_nil].
  pose proof (loop_stores_yielded in_pollX tweetItem
                (insertTweet w) (insertTweet_shape w) items st) as H.
  destruct (forOf (insertTweet w) items st) as [[[]|e] st']; simpl in *;
    assumption.
Qed.

End Reach.

(* ================================================================== *)
(** * The properties of the pipeline *)

Section Claims.
Context {N : JsNumber} {B : JsBuiltins}.
Variable w : World.

Lemma insertPost_second (p : PostParams) (st st1 : State) (c1 : nat) :
  insertPost w p st = (Normal c1, st1) ->
  has_id (at_id p) (posts st1) = true /\
  insertPost w p st1 = (Normal 0, after_statement (posts st1) st1).
Proof.
  intros H1.
  destruct (insertPost_cases w p st) as [[e He]|[r [Hr He]]];
    rewrite He in H1; [discriminate|].
  injection H1 as <- <-.
  destruct (bindRow_Normal _ _ Hr) as [Hid _].
  assert (Hin : has_id (at_id p)
                  (posts (after_statement (fst (insert_or_ignore r (posts st))) st))
                = true).
  { simpl. rewrite <- Hid. apply insert_or_ignore_has_id. }
  split; [exact Hin|].
  set (st1 := after_statement (fst (insert_or_ignore r (posts st))) st) in *.
  destruct (@bindRow_clock _ p _ (datetime_now w (statements st1)) _ Hr)
    as [r' Hr'].
  unfold insertPost. rewrite Hr'.
  destruct (bindRow_Normal _ _ Hr') as [Hid' _].
  rewrite insert_or_ignore_present; [reflexivity|].
  now rewrite Hid'.
Qed.

(** C1. Upsert is idempotent.  When [insertPost.run(x)] has returned on a
    store that respects its primary key, running it again returns
    [changes = 0], leaves the table as it is, and the table holds exactly
    one row with the id of [x].  The first call returns [changes = 1]
    exactly when no row had that id, and the table grows by [changes]
    rows; the [inserted] counter of each of the three loops moves by the
    number of rows the loop added, whether the loop finishes or throws. *)
Theorem upsert_idempotent (p : PostParams) (st st1 : State) (c1 : nat) :
  pk_unique (posts st) ->
  insertPost w p st = (Normal c1, st1) ->
  (c1 = 1 <-> has_id (at_id p) (posts st) = false) /\
  length (posts st1) = length (posts st) + c1 /\
  insertPost w p st1 = (Normal 0, after_statement (posts st1) st1) /\
  count_id (at_id p) (posts st1) = 1 /\
  (forall children st0,
      counts in_pollReddit st0
        (snd (forOf (insertRedditChild w) children st0)) /\
      counts in_pollSubredditComments st0
        (snd (forOf (insertCommentChild w) children st0)) /\
      counts in_pollX st0
        (snd (forOf (insertTweet w) children st0))).
Proof.
  intros Hpk H1.
  destruct (insertPost_second _ _ H1) as [Hin H2].
  assert (Hpk1 : pk_unique (posts st1)).
  { pose proof (insertPost_pk w p st Hpk) as H. now rewrite H1 in H. }
  destruct (insertPost_cases w p st) as [[e He]|[r [Hr He]]];
    rewrite He in H1; [discriminate|].
  injection H1 as <- <-.
  destruct (bindRow_Normal _ _ Hr) as [Hid _].
  repeat split.
  - unfold insert_or_ignore. rewrite Hid.
    destruct (has_id (at_id p) (posts st)); simpl; congruence.
  - unfold insert_or_ignore. rewrite Hid.
    destruct (has_id (at_id p) (posts st)); simpl; congruence.
  - simpl. unfold insert_or_ignore.
    destruct (has_id (id r) (posts st)); simpl;
      [|rewrite length_app; simpl]; lia.
  - exact H2.
  - now apply count_id_present.
  - apply (forOf_counts w in_pollReddit redditItem).
    apply insertRedditChild_shape.
  - apply (forOf_counts w in_pollSubredditComments commentItem).
    reflexivity.
  - apply (forOf_counts w in_pollX tweetItem).
    apply insertTweet_shape.
Qed.

(** C5. First write wins.  When a row with the id of the item is already
    stored, [insertPost.run] does not touch the table: every row, and so
    every column of the stored row, is what it was, and no change is
    reported. *)
Theorem first_write_wins (p : PostParams) (st : State) :
  has_id (at_id p) (posts st) = true ->
  posts (snd (insertPost w p st)) = posts st /\
  find_id (at_id p) (posts (snd (insertPost w p st)))
    = find_id (at_id p) (posts st) /\
  (forall c, fst (insertPost w p st) = Normal c -> c = 0).
Proof.
  intros Hin.
  destruct (insertPost_cases w p st) as [[e He]|[r [Hr He]]]; rewrite He; simpl.
  - repeat split; auto. discriminate.
  - destruct (bindRow_Normal _ _ Hr) as [Hid _].
    rewrite insert_or_ignore_present by now rewrite Hid.
    simpl. repeat split; auto. congruence.
Qed.

Lemma prefix_differs (s : string) : "reddit_" ++ s <> "reddit_comment_" ++ s.
Proof.
  intros H. apply (f_equal String.length) in H. simpl in H. lia.
Qed.

Lemma insertPost_bindable (p : PostParams) (st : State) :
  bindable p = true ->
  exists r,
    id r = at_id p /\
    insertPost w p st =
      (Normal (snd (insert_or_ignore r (posts st))),
       after_statement (fst (insert_or_ignore r (posts st))) st).
Proof.
  intros Hb.
  destruct (bindable_bindRow p (datetime_now w (statements st)) Hb) as [r Hr].
  exists r. destruct (bindRow_Normal _ _ Hr) as [Hid _]. split; [exact Hid|].
  unfold insertPost. rewrite Hr.
  now destruct (insert_or_ignore r (posts st)).
Qed.

Lemma upsert_both_distinct (p q : PostParams) (st : State) :
  bindable p = true -> bindable q = true -> at_id p <> at_id q ->
  has_id (at_id p) (posts (upsert_both w p q st)) = true /\
  has_id (at_id q) (posts (upsert_both w p q st)) = true /\
  (has_id (at_id p) (posts st) = false ->
   has_id (at_id q) (posts st) = false ->
   length (posts (upsert_both w p q st)) = length (posts st) + 2).
Proof.
  intros Hp Hq Hne. unfold upsert_both.
  destruct (insertPost_bindable p st Hp) as [r [Hr ->]]. simpl.
  set (st1 := after_statement (fst (insert_or_ignore r (posts st))) st).
  destruct (insertPost_bindable q st1 Hq) as [r' [Hr' ->]]. simpl.
  pose proof (insert_or_ignore_has_id r (posts st)) as H1. rewrite Hr in H1.
  pose proof (insert_or_ignore_has_id r' (fst (insert_or_ignore r (posts st))))
    as H2. rewrite Hr' in H2.
  repeat split.
  - destruct (insert_or_ignore_extends r' (fst (insert_or_ignore r (posts st))))
      as [added ->].
    rewrite has_id_app, H1. reflexivity.
  - exact H2.
  - intros Ap Aq. subst st1. cbn [posts after_statement].
    assert (E1 : insert_or_ignore r (posts st) = ((posts st ++ [r])%list, 1)).
    { apply insert_or_ignore_absent. now rewrite Hr. }
    rewrite E1. cbn [fst].
    rewrite insert_or_ignore_absent.
    + cbn [fst]. rewrite !length_app. simpl. lia.
    + rewrite Hr', has_id_app, Aq. unfold has_id. simpl. rewrite Hr.
      destruct (at_id p =? at_id q) eqn:E; [|reflexivity].
      apply String.eqb_eq in E. contradiction.
Qed.

(** C2. Cross-source uniqueness.  A post and a comment with the same
    native id get different storage ids, one under the prefix of posts
    and one under the prefix of comments; whichever is upserted first,
    both ids are in the table afterwards, and two rows were added when
    neither id was stored before. *)
Theorem cross_source_uniqueness (post comment : JSValue) (p q : PostParams) :
  redditPost post = Normal p ->
  commentItem comment = Normal (Some q) ->
  prop (prop post "data") "id" = prop (prop comment "data") "id" ->
  bindable p = true -> bindable q = true ->
  at_id p = "reddit_" ++ ToString (prop (prop post "data") "id") /\
  at_id q = "reddit_comment_" ++ ToString (prop (prop post "data") "id") /\
  at_id p <> at_id q /\
  forall st,
    (has_id (at_id p) (posts (upsert_both w p q st)) = true /\
     has_id (at_id q) (posts (upsert_both w p q st)) = true /\
     (has_id (at_id p) (posts st) = false ->
      has_id (at_id q) (posts st) = false ->
      length (posts (upsert_both w p q st)) = length (posts st) + 2)) /\
    (has_id (at_id p) (posts (upsert_both w q p st)) = true /\
     has_id (at_id q) (posts (upsert_both w q p st)) = true /\
     (has_id (at_id p) (posts st) = false ->
      has_id (at_id q) (posts st) = false ->
      length (posts (upsert_both w q p st)) = length (posts st) + 2)).
Proof.
  intros Hp Hq Hsame Bp Bq.
  destruct (redditPost_Normal _ Hp) as [Ip _].
  destruct (commentItem_Some _ Hq) as [Iq _].
  rewrite <- Hsame in Iq.
  assert (Hne : at_id p <> at_id q).
  { rewrite Ip, Iq. apply prefix_differs. }
  repeat split; try assumption.
  - now apply upsert_both_distinct.
  - now apply upsert_both_distinct.
  - now apply upsert_both_distinct.
  - apply (upsert_both_distinct q p st); auto.
  - apply (upsert_both_distinct q p st); auto.
  - intros Ap Aq. apply (upsert_both_distinct q p st); auto.
Qed.

End Claims.

Section ReadClaims.
Context {N : JsNumber}.

Lemma order_by_length (t : list Row) :
  length (order_by_created_at_desc t) = length t.
Proof. symmetry. apply Permutation_length, order_by_Permutation. Qed.

Lemma order_by_In (r : Row) (t : list Row) :
  In r (order_by_created_at_desc t) -> In r t.
Proof.
  apply Permutation_in. symmetry. apply order_by_Permutation.
Qed.

Lemma firstn_In {A} (n : nat) (l : list A) (x : A) :
  In x (firstn n l) -> In x l.
Proof.
  intros H. rewrite <- (firstn_skipn n l). apply in_or_app. now left.
Qed.

(** C6, as the code has it.  Both read queries return their rows ordered
    by [created_at] descending, ties allowed: no row is older than the
    one before it, comparing the stored texts.  The rows are rows of the
    table, those of [selectBySource] all of the requested source. *)
Theorem reads_ordered_by_created_at_desc (t : Table) (src : string) :
  Sorted not_older (selectAll t) /\
  Sorted not_older (selectBySource src t) /\
  (forall r, In r (selectAll t) -> In r t) /\
  (forall r, In r (selectBySource src t) -> In r t /\ source r = src).
Proof.
  unfold selectAll, selectBySource. repeat split.
  - apply Sorted_firstn, order_by_Sorted.
  - apply Sorted_firstn, order_by_Sorted.
  - intros r H. apply order_by_In. eapply firstn_In. eassumption.
  - apply firstn_In, order_by_In, filter_In in H. tauto.
  - apply firstn_In, order_by_In, filter_In in H.
    destruct H as [_ H]. now apply String.eqb_eq in H.
Qed.

(** C9. Bounded query results.  [selectBySource] returns at most 200 rows
    and [selectAll] at most 400, however many rows the table holds: the
    number returned is the smaller of the cap and the number of rows that
    qualify. *)
Theorem query_results_bounded (t : Table) (src : string) :
  length (selectBySource src t) <= 200 /\
  length (selectAll t) <= 400 /\
  length (selectBySource src t) = Nat.min 200 (count_source src t) /\
  length (selectAll t) = Nat.min 400 (length t).
Proof.
  unfold selectBySource, selectAll, count_source. repeat split.
  - apply firstn_le_length.
  - apply firstn_le_length.
  - now rewrite length_firstn, order_by_length.
  - now rewrite length_firstn, order_by_length.
Qed.

End ReadClaims.

(* ================================================================== *)
(** * Properties of a whole cycle *)

Section CycleClaims.
Context {N : JsNumber} {B : JsBuiltins}.
Variable w : World.

Lemma yielded_from (item : JSValue -> Completion (option PostParams))
      (children : list JSValue) (p : PostParams) :
  In p (yielded item children) ->
  exists child,
    In child children /\ item child = Normal (Some p) /\ bindable p = true.
Proof.
  induction children as [|c rest IH]; simpl; [contradiction|].
  destruct (item c) as [[q|]|e] eqn:E.
  - destruct (bindable q) eqn:Hb; [|contradiction].
    intros [<-|Hin].
    + exists c. auto.
    + destruct (IH Hin) as [child [H1 H2]]. exists child. auto.
  - intros Hin. destruct (IH Hin) as [child [H1 H2]]. exists child. auto.
  - contradiction.
Qed.

Lemma insert_or_ignore_Forall (G : Row -> Prop) (r : Row) (t : Table) :
  G r -> (forall x, In x t -> G x) ->
  forall x, In x (fst (insert_or_ignore r t)) -> G x.
Proof.
  intros Hr Ht x. unfold insert_or_ignore.
  destruct (has_id (id r) t); simpl; [apply Ht|].
  rewrite in_app_iff. simpl. intros [H|[<-|[]]]; auto.
Qed.

Lemma redditPost_row (child : JSValue) (p : PostParams) (now : string) (r : Row) :
  redditPost child = Normal p -> bindRow p now = Normal r ->
  source r = "reddit" /\
  (truthy (prop (prop child "data") "selftext") = false -> body r = SqlNull) /\
  body r <> SqlText "" /\
  (forall n, body r = SqlNumber n -> number_falsy n = false).
Proof.
  intros Hp Hr.
  destruct (redditPost_Normal _ Hp) as [_ [Hs Hb]].
  destruct (bindRow_Normal _ _ Hr) as [_ [Hs' [Hb' _]]].
  rewrite Hb in Hb'. unfold js_or in Hb'.
  split; [congruence|].
  destruct (prop (prop child "data") "selftext") as [| |b|n|s|l|o];
    simpl in *; try discriminate;
    try (injection Hb' as <-; repeat split; try discriminate; auto; fail).
  - destruct b; simpl in *; [discriminate|].
    injection Hb' as <-. repeat split; try discriminate; auto.
  - destruct (number_falsy n) eqn:En; simpl in *.
    + injection Hb' as <-. repeat split; try discriminate; auto.
    + injection Hb' as <-. repeat split; try discriminate.
      intros m Hm. injection Hm as <-. exact En.
  - destruct (s =? "") eqn:Es; simpl in *.
    + injection Hb' as <-. repeat split; try discriminate; auto.
    + injection Hb' as <-. repeat split; try discriminate.
      intros Hm. injection Hm as ->. discriminate.
Qed.

Lemma commentItem_row (child : JSValue) (p : PostParams) (now : string) (r : Row) :
  commentItem child = Normal (Some p) -> bindRow p now = Normal r ->
  source r = "reddit_comment" /\
  body r <> SqlNull /\ body r <> SqlText "[deleted]"
  /\ body r <> SqlText "[removed]".
Proof.
  intros Hp Hr.
  destruct (commentItem_Some _ Hp) as [_ [Hs [_ [Ht [Hd Hm]]]]].
  destruct (bindRow_Normal _ _ Hr) as [_ [Hs' [Hb' _]]].
  split; [congruence|].
  destruct (at_body p) as [| |b|n|s|l|o]; simpl in *; try discriminate;
    injection Hb' as <-; repeat split; try discriminate.
  - intros E. injection E as ->. discriminate.
  - intros E. injection E as ->. discriminate.
Qed.

Lemma xPost_row (tweet : JSValue) (p : PostParams) (now : string) (r : Row) :
  xPost tweet = Normal p -> bindRow p now = Normal r -> source r = "x".
Proof.
  intros Hp Hr.
  destruct (xPost_Normal _ Hp) as [_ Hs].
  destruct (bindRow_Normal _ _ Hr) as [_ [Hs' _]]. congruence.
Qed.

(** C7. Sentinel filtering.  A comment whose body is missing, [null],
    ["[deleted]"] or ["[removed]"] is never handed to [insertPost.run]; no
    item of the comments path has such a body; and a cycle leaves no
    stored comment with a NULL or marker body if there was none before. *)
Theorem sentinel_comments_never_stored :
  (forall child p,
      absent_or_sentinel (prop (prop child "data") "body") ->
      commentItem child <> Normal (Some p)) /\
  (forall p, In p (comment_items w) -> ~ absent_or_sentinel (at_body p)) /\
  (forall sched st,
      no_sentinel_comment (posts st) ->
      no_sentinel_comment (posts (snd (pollAll_settled w sched st)))).
Proof.
  assert (Hitem : forall child p,
             commentItem child = Normal (Some p) ->
             ~ absent_or_sentinel (at_body p)).
  { intros child p Hp Ha.
    destruct (commentItem_Some _ Hp) as [_ [_ [_ [Ht [Hd Hr]]]]].
    destruct Ha as [E|[E|[E|E]]]; rewrite E in *; discriminate. }
  split; [|split].
  - intros child p Ha Hp.
    apply (Hitem _ _ Hp).
    destruct (commentItem_Some _ Hp) as [_ [_ [Hb _]]]. now rewrite Hb.
  - intros p Hin.
    destruct (yielded_from _ _ _ Hin) as [child [_ [Hc _]]].
    now apply (Hitem child).
  - intros sched st.
    apply (table_invariant_cycle w no_sentinel_comment).
    + intros child p now r t Hp Hr Ht. unfold no_sentinel_comment.
      apply (insert_or_ignore_Forall
               (fun x => source x = "reddit_comment" ->
                         body x <> SqlNull /\ body x <> SqlText "[deleted]"
                         /\ body x <> SqlText "[removed]")); [|exact Ht].
      destruct (redditPost_row _ _ Hp Hr) as [Hs _]. rewrite Hs. discriminate.
    + intros child p now r t Hp Hr Ht. unfold no_sentinel_comment.
      apply (insert_or_ignore_Forall
               (fun x => source x = "reddit_comment" ->
                         body x <> SqlNull /\ body x <> SqlText "[deleted]"
                         /\ body x <> SqlText "[removed]")); [|exact Ht].
      intros _. now apply (commentItem_row _ _ Hp Hr).
    + intros tweet p now r t Hp Hr Ht. unfold no_sentinel_comment.
      apply (insert_or_ignore_Forall
               (fun x => source x = "reddit_comment" ->
                         body x <> SqlNull /\ body x <> SqlText "[deleted]"
                         /\ body x <> SqlText "[removed]")); [|exact Ht].
      rewrite (xPost_row _ _ Hp Hr). discriminate.
Qed.

(** ** Every path delivers, whatever the others do *)

Lemma all_stored_table_step (items : list PostParams) :
  (forall step, In step (pollReddit_steps w) ->
                sound (fun s s' => all_stored items s -> all_stored items s') step)
  /\
  (forall step, In step (pollX_steps w) ->
                sound (fun s s' => all_stored items s -> all_stored items s') step).
Proof.
  assert (Hins : forall (r : Row) (t : Table),
             (forall p, In p items -> has_id (at_id p) t = true) ->
             forall p, In p items ->
                       has_id (at_id p) (fst (insert_or_ignore r t)) = true).
  { intros r t Ht p Hin.
    destruct (insert_or_ignore_extends r t) as [added ->].
    rewrite has_id_app, (Ht p Hin). reflexivity. }
  split; intros step Hstep.
  - apply (table_invariant_reddit_step (w := w)
             (fun t => forall p, In p items -> has_id (at_id p) t = true));
      eauto.
  - apply (table_invariant_x_step w
             (fun t => forall p, In p items -> has_id (at_id p) t = true));
      eauto.
Qed.

Lemma primary_in_steps : In (pollReddit_primary w) (pollReddit_steps w).
Proof. unfold pollReddit_steps. simpl. auto. Qed.

Lemma search_in_steps (subreddit : string) :
  In subreddit (searchSubs w) ->
  In (pollReddit_search w subreddit) (pollReddit_steps w).
Proof.
  intros H. unfold pollReddit_steps. simpl. right. right.
  apply in_or_app. left. now apply in_map.
Qed.

Lemma comments_in_steps : In (pollSubredditComments w) (pollReddit_steps w).
Proof.
  unfold pollReddit_steps. simpl. right. right.
  apply in_or_app. right. simpl. auto.
Qed.

Lemma x_search_in_steps :
  truthy (env_value (X_BEARER_TOKEN w)) = true ->
  In (pollX_search w) (pollX_steps w).
Proof. intros H. unfold pollX_steps. rewrite H. simpl. auto. Qed.

Lemma cycle_no_throw (s : M unit) :
  In s (pollReddit_steps w) \/ In s (pollX_steps w) -> no_throw s.
Proof.
  intros [H|H];
    [eapply no_throw_pollReddit_steps|eapply no_throw_pollX_steps];
    eassumption.
Qed.

Lemma cycle_fulfilled (sched : list bool) (st : State) :
  fst (pollAll_settled w sched st) = (fulfilled, fulfilled).
Proof.
  unfold pollAll_settled. apply allSettled_fulfilled.
  - apply no_throw_pollReddit_steps.
  - apply no_throw_pollX_steps.
Qed.

Lemma cycle_stores (items : list PostParams) (step : M unit)
      (sched : list bool) (st : State) :
  In step (pollReddit_steps w) \/ In step (pollX_steps w) ->
  (forall s, all_stored items (snd (step s))) ->
  all_stored items (snd (pollAll_settled w sched st)).
Proof.
  intros Hin Hstep. unfold pollAll_settled.
  apply (allSettled_reaches (all_stored items)) with (step := step); auto.
  - apply cycle_no_throw.
  - destruct (all_stored_table_step items) as [Hr Hx].
    intros s [H|H]; auto.
Qed.

Lemma cycle_stores_reddit (sched : list bool) (st : State) :
  all_stored (primary_items w) (snd (pollAll_settled w sched st)) /\
  (forall subreddit,
      In subreddit (searchSubs w) ->
      all_stored (search_items w subreddit) (snd (pollAll_settled w sched st))) /\
  all_stored (comment_items w) (snd (pollAll_settled w sched st)).
Proof.
  split; [|split].
  - apply cycle_stores with (step := pollReddit_primary w).
    + left. apply primary_in_steps.
    + apply primary_stores.
  - intros subreddit Hsub.
    apply cycle_stores with (step := pollReddit_search w subreddit).
    + left. now apply search_in_steps.
    + apply search_stores.
  - apply cycle_stores with (step := pollSubredditComments w).
    + left. apply comments_in_steps.
    + apply comments_stores.
Qed.

(** C3. Partial-failure isolation.  Whatever the requests of a cycle
    answer, neither poller throws (both promises are fulfilled) and
    [pollAll] returns; the items of each path, which depend on the answer
    to that path's own request only, are in the table afterwards, each
    search path included, and so is everything that was stored before. *)
Theorem partial_failure_isolation (sched : list bool) (st : State) :
  fst (pollAll_settled w sched st) = (fulfilled, fulfilled) /\
  fst (pollAll w sched st) = Normal tt /\
  all_stored (primary_items w) (snd (pollAll w sched st)) /\
  (forall subreddit,
      In subreddit (searchSubs w) ->
      all_stored (search_items w subreddit) (snd (pollAll w sched st))) /\
  all_stored (comment_items w) (snd (pollAll w sched st)) /\
  (truthy (env_value (X_BEARER_TOKEN w)) = true ->
   all_stored (x_items w) (snd (pollAll w sched st))) /\
  (forall i, keeps i st (snd (pollAll w sched st))).
Proof.
  destruct (cycle_stores_reddit sched st) as [H1 [H2 H3]].
  unfold pollAll. simpl.
  repeat split; try assumption.
  - apply cycle_fulfilled.
  - intros Htok. apply cycle_stores with (step := pollX_search w).
    + right. now apply x_search_in_steps.
    + apply x_stores.
  - intros i. unfold keeps. apply pollAll_has_id.
Qed.

(** ** Without a credential *)

Lemma allSettled_nil_r (sched : list bool) (a : list (M unit)) (st : State) :
  allSettled sched a [] st =
    ((fst (settle a st), fulfilled), snd (settle a st)).
Proof.
  revert a st. induction sched as [|pick sched IH]; intros a st.
  - simpl. now destruct (settle a st).
  - destruct pick; simpl.
    + destruct a as [|s a']; [reflexivity|]. simpl.
      destruct (s st) as [[[]|e] st']; [apply IH|reflexivity].
    + now destruct (settle a st).
Qed.

Lemma x_rows_insert (r : Row) (t : Table) :
  source r <> "x" -> x_rows (fst (insert_or_ignore r t)) = x_rows t.
Proof.
  intros Hs. unfold insert_or_ignore, x_rows.
  destruct (has_id (id r) t); simpl; [reflexivity|].
  rewrite filter_app. simpl.
  destruct (source r =? "x") eqn:E.
  - apply String.eqb_eq in E. contradiction.
  - apply app_nil_r.
Qed.

Lemma reddit_steps_x_rows (rows : list Row) (step : M unit) :
  In step (pollReddit_steps w) ->
  sound (fun s s' => x_rows (posts s) = rows -> x_rows (posts s') = rows) step.
Proof.
  apply (table_invariant_reddit_step (w := w) (fun t => x_rows t = rows)).
  - intros child p now r t Hp Hr <-. apply x_rows_insert.
    destruct (redditPost_row _ _ Hp Hr) as [-> _]. discriminate.
  - intros child p now r t Hp Hr <-. apply x_rows_insert.
    destruct (commentItem_row _ _ Hp Hr) as [-> _]. discriminate.
Qed.

Lemma reddit_steps_x_console (evs : list LogEvent) (step : M unit) :
  In step (pollReddit_steps w) ->
  sound (fun s s' => filter x_event (console s) = evs ->
                     filter x_event (console s') = evs) step.
Proof.
  set (K := fun s s' : State =>
              filter x_event (console s) = evs ->
              filter x_event (console s') = evs).
  assert (Krefl : forall s, K s s) by (unfold K; auto).
  assert (Ktrans : forall s1 s2 s3, K s1 s2 -> K s2 s3 -> K s1 s3)
    by (unfold K; auto).
  assert (Kcons : forall ev s, x_event ev = false -> K s (write_console ev s)).
  { unfold K. intros ev s Hev <-. simpl. rewrite filter_app. simpl.
    rewrite Hev. apply app_nil_r. }
  assert (Kins : forall f n s, K s (set_inserted f n s))
    by (unfold K; intros [] ? ?; auto).
  assert (Kpost : forall p, sound K (insertPost w p)).
  { intros p s. unfold K.
    destruct (insertPost_cases w p s) as [[e ->]|[r [_ ->]]]; simpl; auto. }
  apply (sound_pollReddit_steps Krefl Ktrans (fun ev => x_event ev = false)
           Kcons Kins (fun _ H => H) (fun _ p _ => Kpost p)
           (fun _ p _ => Kpost p)).
Qed.

(** Without a credential [pollX] ends in its first step and the cycle is
    [pollReddit] with one warning on the console. *)
Lemma pollAll_without_token (sched : list bool) (st : State) :
  truthy (env_value (X_BEARER_TOKEN w)) = false ->
  exists first rest,
    pollReddit_steps w = first :: rest /\
    snd (pollAll_settled w sched st) =
      snd (settle rest (write_console warn_x_skipping (snd (first st)))).
Proof.
  intros Htok. unfold pollAll_settled, pollX_steps. rewrite Htok. simpl negb.
  cbv iota.
  destruct (pollReddit_steps w) as [|first rest] eqn:Esteps.
  - discriminate.
  - exists first, rest. split; [reflexivity|].
    assert (Hnt : no_throw first).
    { apply (no_throw_pollReddit_steps (w := w)). rewrite Esteps. now left. }
    destruct (Hnt st) as [[] Hf].
    simpl. destruct (first st) as [c st0]. simpl in Hf. subst c.
    rewrite allSettled_nil_r. reflexivity.
Qed.

(** C8. Credential gating.  When [X_BEARER_TOKEN] is unset or empty, a
    cycle fulfils both promises, leaves the rows of source ["x"] as they
    were, writes the skip warning and no other X event on the console, in
    particular no error, and still delivers the items of every Reddit
    path. *)
Theorem credential_gating (sched : list bool) (st : State) :
  truthy (env_value (X_BEARER_TOKEN w)) = false ->
  fst (pollAll_settled w sched st) = (fulfilled, fulfilled) /\
  x_rows (posts (snd (pollAll w sched st))) = x_rows (posts st) /\
  filter x_event (console (snd (pollAll w sched st)))
    = (filter x_event (console st) ++ [warn_x_skipping])%list /\
  all_stored (primary_items w) (snd (pollAll w sched st)) /\
  (forall subreddit,
      In subreddit (searchSubs w) ->
      all_stored (search_items w subreddit) (snd (pollAll w sched st))) /\
  all_stored (comment_items w) (snd (pollAll w sched st)).
Proof.
  intros Htok.
  destruct (cycle_stores_reddit sched st) as [H1 [H2 H3]].
  destruct (pollAll_without_token sched st Htok) as [first [rest [Esteps Est]]].
  assert (Hfirst : In first (pollReddit_steps w)) by (rewrite Esteps; now left).
  assert (Hrest : forall s, In s rest -> In s (pollReddit_steps w))
    by (intros s Hs; rewrite Esteps; now right).
  unfold pollAll. cbn [snd].
  repeat split; try assumption.
  - apply cycle_fulfilled.
  - rewrite Est.
    apply (sound_settle
             (R := fun s s' => x_rows (posts s) = x_rows (posts st) ->
                               x_rows (posts s') = x_rows (posts st))); auto.
    + intros s Hs. apply reddit_steps_x_rows. auto.
    + simpl. exact (@reddit_steps_x_rows (x_rows (posts st)) first Hfirst st
                      eq_refl).
  - rewrite Est.
    apply (sound_settle
             (R := fun s s' =>
                     filter x_event (console s)
                       = (filter x_event (console st) ++ [warn_x_skipping])%list ->
                     filter x_event (console s')
                       = (filter x_event (console st) ++ [warn_x_skipping])%list));
      auto.
    + intros s Hs. apply reddit_steps_x_console. auto.
    + simpl. rewrite filter_app. simpl. f_equal.
      exact (@reddit_steps_x_console (filter x_event (console st)) first Hfirst
               st eq_refl).
Qed.

End CycleClaims.

(* ================================================================== *)
(** * [POST /api/refresh] *)

Section Refresh.
Context {N : JsNumber} {B : JsBuiltins}.
Variable w : World.

Lemma lookup_obj_set (k k' : string) (v : JSValue) (o : list (string * JSValue)) :
  lookup k (obj_set k' v o) = if k' =? k then v else lookup k o.
Proof.
  induction o as [|[k1 v1] o IH]; simpl.
  - reflexivity.
  - destruct (k1 =? k') eqn:E1; simpl.
    + apply String.eqb_eq in E1. subst k1.
      now destruct (k' =? k).
    + destruct (k1 =? k) eqn:E2; [|exact IH].
      apply String.eqb_eq in E2. subst k1. now rewrite String.eqb_sym, E1.
Qed.

Lemma lookup_assign_absent (k : string) (c o : list (string * JSValue)) :
  ~ In k (map fst c) -> lookup k (assign_entries c o) = lookup k o.
Proof.
  unfold assign_entries. revert o.
  induction c as [|[k1 v1] c IH]; simpl; intros o Hk; [reflexivity|].
  rewrite IH by tauto. rewrite lookup_obj_set.
  destruct (k1 =? k) eqn:E; [|reflexivity].
  apply String.eqb_eq in E. tauto.
Qed.

Lemma lookup_assign_present (k : string) (c o : list (string * JSValue)) :
  NoDup (map fst c) -> In k (map fst c) ->
  lookup k (assign_entries c o) = lookup k c.
Proof.
  unfold assign_entries. revert o.
  induction c as [|[k1 v1] c IH]; simpl; intros o Hnd Hk; [contradiction|].
  inversion Hnd as [|? ? Hnot Hnd']; subst.
  destruct (k1 =? k) eqn:E.
  - apply String.eqb_eq in E. subst k1.
    change (fold_left (fun o0 kv => obj_set (fst kv) (snd kv) o0) c (obj_set k v1 o))
      with (assign_entries c (obj_set k v1 o)).
    rewrite lookup_assign_absent by assumption.
    now rewrite lookup_obj_set, String.eqb_refl.
  - apply IH; [assumption|].
    destruct Hk as [Hk|Hk]; [|assumption].
    subst k1. now rewrite String.eqb_refl in E.
Qed.

Lemma obj_set_fresh (k : string) (v : JSValue) (o : list (string * JSValue)) :
  ~ In k (map fst o) -> obj_set k v o = (o ++ [(k, v)])%list.
Proof.
  induction o as [|[k1 v1] o IH]; simpl; intros Hk; [reflexivity|].
  destruct (k1 =? k) eqn:E.
  - apply String.eqb_eq in E. tauto.
  - f_equal. apply IH. tauto.
Qed.

Lemma assign_entries_fresh (c o : list (string * JSValue)) :
  NoDup (map fst (o ++ c)) -> assign_entries c o = (o ++ c)%list.
Proof.
  unfold assign_entries. revert o.
  induction c as [|[k1 v1] c IH]; simpl; intros o Hnd.
  - now rewrite app_nil_r.
  - rewrite obj_set_fresh.
    + rewrite IH; rewrite <- app_assoc; [reflexivity|exact Hnd].
    + rewrite map_app in Hnd. simpl in Hnd.
      apply NoDup_remove_2 in Hnd. rewrite in_app_iff in Hnd. tauto.
Qed.

Lemma sources_In (s : string) (t : Table) :
  In s (sources t) <-> exists r, In r t /\ source r = s.
Proof.
  induction t as [|r t IH]; simpl.
  - split; [contradiction|]. intros [r [[] _]].
  - rewrite filter_In, IH. split.
    + intros [<-|[[x [Hx <-]] _]]; eauto.
    + intros [x [[<-|Hx] <-]]; [now left|].
      destruct (String.eqb_spec (source x) (source r)) as [E|E].
      * left. now symmetry.
      * right. split; [eauto|reflexivity].
Qed.

Lemma sources_NoDup (t : Table) : NoDup (sources t).
Proof.
  induction t as [|r t IH]; simpl; constructor.
  - rewrite filter_In. intros [_ H]. now rewrite String.eqb_refl in H.
  - now apply NoDup_filter.
Qed.

Lemma lookup_map (f : string -> JSValue) (l : list string) (s : string) :
  In s l -> lookup s (map (fun k => (k, f k)) l) = f s.
Proof.
  induction l as [|k l IH]; simpl; [contradiction|].
  intros H. destruct (k =? s) eqn:E.
  - apply String.eqb_eq in E. now subst.
  - destruct H as [->|H]; [now rewrite String.eqb_refl in E|auto].
Qed.

Lemma keys_obj_set (k k' : string) (v : JSValue) (o : list (string * JSValue)) :
  In k (map fst (obj_set k' v o)) <-> k = k' \/ In k (map fst o).
Proof.
  induction o as [|[k1 v1] o IH]; simpl.
  - intuition congruence.
  - destruct (k1 =? k') eqn:E; simpl.
    + apply String.eqb_eq in E. subst k1. intuition congruence.
    + rewrite IH. intuition congruence.
Qed.

Lemma NoDup_obj_set (k : string) (v : JSValue) (o : list (string * JSValue)) :
  NoDup (map fst o) -> NoDup (map fst (obj_set k v o)).
Proof.
  induction o as [|[k1 v1] o IH]; simpl; intros Hnd.
  - constructor; [intros []|constructor].
  - inversion Hnd as [|? ? Hnot Hnd']; subst.
    destruct (k1 =? k) eqn:E; simpl.
    + constructor; assumption.
    + constructor; [|auto].
      rewrite keys_obj_set. intros [H|H]; [|contradiction].
      subst k1. now rewrite String.eqb_refl in E.
Qed.

Lemma keys_assign_entries (k : string) (c o : list (string * JSValue)) :
  In k (map fst (assign_entries c o)) <-> In k (map fst o) \/ In k (map fst c).
Proof.
  unfold assign_entries. revert o.
  induction c as [|[k1 v1] c IH]; simpl; intros o; [tauto|].
  rewrite IH, keys_obj_set. intuition congruence.
Qed.

Lemma NoDup_assign_entries (c o : list (string * JSValue)) :
  NoDup (map fst o) -> NoDup (map fst (assign_entries c o)).
Proof.
  unfold assign_entries. revert o.
  induction c as [|[k1 v1] c IH]; simpl; intros o Hnd; [exact Hnd|].
  apply IH. now apply NoDup_obj_set.
Qed.

Lemma In_lookup (k : string) (v : JSValue) (o : list (string * JSValue)) :
  NoDup (map fst o) -> In (k, v) o -> lookup k o = v.
Proof.
  induction o as [|[k1 v1] o IH]; simpl; intros Hnd Hin; [contradiction|].
  inversion Hnd as [|? ? Hnot Hnd']; subst.
  destruct Hin as [E|Hin].
  - injection E as -> ->. now rewrite String.eqb_refl.
  - destruct (k1 =? k) eqn:E; [|auto].
    apply String.eqb_eq in E. subst k1.
    exfalso. apply Hnot. apply in_map_iff. now exists (k, v).
Qed.

(** C4, as the code has it.  [/api/refresh] runs one cycle and then always
    answers, never throwing for what the pollers met; the answer holds,
    under each source present in the table after the cycle, the total
    number of rows of that source, and [ok: true] unless a source is
    itself called ["ok"].  It holds nothing else: its keys are ["ok"] and
    the sources present, each once, and every member is [ok: true] or the
    total of a source; so it carries no count of the rows the cycle
    inserted and no per-source status. *)
Theorem refresh_returns_row_counts (sched : list bool) (st : State) :
  exists props,
    api_refresh w sched st = (Normal (JObj props), snd (pollAll w sched st)) /\
    (forall src,
        In src (sources (posts (snd (pollAll w sched st)))) ->
        lookup src props =
          JNum (number_of_nat
                  (count_source src (posts (snd (pollAll w sched st)))))) /\
    (~ In "ok" (sources (posts (snd (pollAll w sched st)))) ->
     lookup "ok" props = JBool true) /\
    (forall r, In r (posts (snd (pollAll w sched st))) ->
               In (source r) (sources (posts (snd (pollAll w sched st))))) /\
    NoDup (map fst props) /\
    (forall k, In k (map fst props) <->
               k = "ok" \/ In k (sources (posts (snd (pollAll w sched st))))) /\
    (forall k v, In (k, v) props ->
                 (k = "ok" /\ v = JBool true /\
                  ~ In "ok" (sources (posts (snd (pollAll w sched st)))))
                 \/
                 (In k (sources (posts (snd (pollAll w sched st)))) /\
                  v = JNum (number_of_nat
                              (count_source k (posts (snd (pollAll w sched st))))))).
Proof.
  unfold api_refresh, bind, pollAll. cbn [fst snd].
  set (t := posts (snd (pollAll_settled w sched st))).
  set (entries := map (fun r : string * nat =>
                         (fst r, JNum (number_of_nat (snd r))))
                      (countBySource t)).
  assert (Hentries : entries
            = map (fun s => (s, JNum (number_of_nat (count_source s t))))
                  (sources t)).
  { unfold entries, countBySource. rewrite map_map. reflexivity. }
  assert (Hkeys : map fst entries = sources t).
  { rewrite Hentries, map_map. simpl. apply map_id. }
  assert (Hcounts : assign_entries entries [] = entries).
  { apply assign_entries_fresh. simpl. rewrite Hkeys. apply sources_NoDup. }
  eexists. split; [reflexivity|]. rewrite Hcounts.
  assert (Hsrc : forall src, In src (sources t) ->
             lookup src (assign_entries entries [("ok", JBool true)])
             = JNum (number_of_nat (count_source src t))).
  { intros src Hsrc.
    rewrite lookup_assign_present.
    + rewrite Hentries.
      apply (lookup_map (fun s => JNum (number_of_nat (count_source s t)))).
      exact Hsrc.
    + rewrite Hkeys. apply sources_NoDup.
    + now rewrite Hkeys. }
  assert (Hok : ~ In "ok" (sources t) ->
                lookup "ok" (assign_entries entries [("ok", JBool true)])
                = JBool true).
  { intros Hok. rewrite lookup_assign_absent; [reflexivity|].
    now rewrite Hkeys. }
  assert (Hnd : NoDup (map fst (assign_entries entries [("ok", JBool true)]))).
  { apply NoDup_assign_entries. simpl. constructor; [intros []|constructor]. }
  assert (Hks : forall k,
             In k (map fst (assign_entries entries [("ok", JBool true)])) <->
             k = "ok" \/ In k (sources t)).
  { intros k. rewrite keys_assign_entries, Hkeys. simpl. intuition congruence. }
  split; [exact Hsrc|]. split; [exact Hok|].
  split; [intros r Hr; apply sources_In; eauto|].
  split; [exact Hnd|]. split; [exact Hks|].
  intros k v Hin.
  pose proof (@In_lookup _ _ _ Hnd Hin) as Hv.
  assert (Hk : In k (map fst (assign_entries entries [("ok", JBool true)])))
    by (apply in_map_iff; now exists (k, v)).
  apply Hks in Hk.
  destruct (in_dec string_dec k (sources t)) as [Hs|Hs].
  - right. split; [exact Hs|]. rewrite <- Hv. now apply Hsrc.
  - left. destruct Hk as [->|Hk]; [|contradiction].
    split; [reflexivity|]. split; [|exact Hs]. rewrite <- Hv. now apply Hok.
Qed.

End Refresh.


(* ================================================================== *)
(** * More on the read queries *)

Section ReadFacts.
Context {N : JsNumber}.

Lemma ascii_compare_lt_trans (a b c : ascii) :
  Ascii.compare a b = Lt -> Ascii.compare b c = Lt -> Ascii.compare a c = Lt.
Proof.
  unfold Ascii.compare. rewrite !N.compare_lt_iff. lia.
Qed.

Lemma string_compare_lt_trans (a b c : string) :
  String.compare a b = Lt -> String.compare b c = Lt -> String.compare a c = Lt.
Proof.
  revert b c. induction a as [|a0 a IH]; intros [|b0 b] [|c0 c]; simpl;
    try discriminate; try reflexivity.
  intros Hab Hbc.
  destruct (Ascii.compare a0 b0) eqn:Eab; [| |discriminate];
    (destruct (Ascii.compare b0 c0) eqn:Ebc; [| |discriminate]).
  - apply Ascii.compare_eq_iff in Eab, Ebc. subst.
    assert (E : Ascii.compare c0 c0 = Eq)
      by (unfold Ascii.compare; apply N.compare_refl).
    rewrite E. eauto.
  - apply Ascii.compare_eq_iff in Eab. subst. now rewrite Ebc.
  - apply Ascii.compare_eq_iff in Ebc. subst. now rewrite Eab.
  - now rewrite (ascii_compare_lt_trans _ _ _ Eab Ebc).
Qed.

Lemma string_leb_trans (a b c : string) :
  (a <=? b)%string = true -> (b <=? c)%string = true -> (a <=? c)%string = true.
Proof.
  unfold String.leb. intros Hab Hbc.
  destruct (String.compare a b) eqn:Eab; [| |discriminate];
    (destruct (String.compare b c) eqn:Ebc; [| |discriminate]).
  - apply String.compare_eq_iff in Eab. subst. now rewrite Ebc.
  - apply String.compare_eq_iff in Eab. subst. now rewrite Ebc.
  - apply String.compare_eq_iff in Ebc. subst. now rewrite Eab.
  - now rewrite (string_compare_lt_trans _ _ _ Eab Ebc).
Qed.

Lemma not_older_trans (a b c : Row) :
  not_older a b -> not_older b c -> not_older a c.
Proof.
  unfold not_older. intros Hab Hbc. eapply string_leb_trans; eassumption.
Qed.

Lemma order_by_StronglySorted (t : list Row) :
  StronglySorted not_older (order_by_created_at_desc t).
Proof.
  apply Sorted_StronglySorted.
  - intros a b c. apply not_older_trans.
  - apply order_by_Sorted.
Qed.

Lemma StronglySorted_split {A} (R : A -> A -> Prop) (n : nat) (l : list A) :
  StronglySorted R l ->
  forall a b, In a (firstn n l) -> In b (skipn n l) -> R a b.
Proof.
  revert l. induction n as [|n IH]; intros l Hs a b Ha Hb.
  - contradiction.
  - destruct l as [|x l]; [contradiction|].
    apply StronglySorted_inv in Hs. destruct Hs as [Hs Hall].
    simpl in Ha, Hb. destruct Ha as [<-|Ha].
    + rewrite Forall_forall in Hall. apply Hall.
      rewrite <- (firstn_skipn n l). apply in_or_app. now right.
    + eapply IH; eassumption.
Qed.

(** X1. The rows a query leaves out are never newer than a row it returns:
    the cap cuts the old end of the ordering. *)
Theorem reads_keep_the_newest (t : Table) (src : string) :
  (exists dropped,
      Permutation t (selectAll t ++ dropped) /\
      forall a b, In a (selectAll t) -> In b dropped -> not_older a b) /\
  (exists dropped,
      Permutation (filter (fun r => source r =? src) t)
                  (selectBySource src t ++ dropped) /\
      forall a b, In a (selectBySource src t) -> In b dropped -> not_older a b).
Proof.
  unfold selectAll, selectBySource. split.
  - exists (skipn 400 (order_by_created_at_desc t)). split.
    + rewrite firstn_skipn. apply order_by_Permutation.
    + apply StronglySorted_split, order_by_StronglySorted.
  - exists (skipn 200 (order_by_created_at_desc
                         (filter (fun r => source r =? src) t))). split.
    + rewrite firstn_skipn. apply order_by_Permutation.
    + apply StronglySorted_split, order_by_StronglySorted.
Qed.

Lemma select_complete (t : Table) (src : string) :
  (length t <= 400 -> Permutation t (selectAll t)) /\
  (count_source src t <= 200 ->
   Permutation (filter (fun r => source r =? src) t) (selectBySource src t)).
Proof.
  unfold selectAll, selectBySource, count_source. split; intros Hlen.
  - rewrite firstn_all2 by now rewrite order_by_length.
    apply order_by_Permutation.
  - rewrite firstn_all2 by now rewrite order_by_length.
    apply order_by_Permutation.
Qed.

(** X2. Below the cap a query drops nothing: it returns the table, or the rows
    of the source, reordered. *)
Theorem reads_complete_below_cap (t : Table) (src : string) :
  (length t <= 400 -> Permutation t (selectAll t)) /\
  (count_source src t <= 200 ->
   Permutation (filter (fun r => source r =? src) t) (selectBySource src t)).
Proof. apply select_complete. Qed.

Lemma count_source_cons (s : string) (r : Row) (t : Table) :
  count_source s (r :: t)
  = (if source r =? s then 1 else 0) + count_source s t.
Proof. unfold count_source. simpl. now destruct (source r =? s). Qed.

Lemma indicator_sum (s : string) (l : list string) :
  NoDup l -> In s l ->
  list_sum (map (fun k => if s =? k then 1 else 0) l) = 1.
Proof.
  induction l as [|k l IH]; simpl; intros Hnd Hin; [contradiction|].
  inversion Hnd as [|? ? Hnot Hnd']; subst.
  destruct (String.eqb_spec s k) as [->|Hne].
  - f_equal. clear IH Hnd Hin Hnd'.
    induction l as [|k' l IH]; simpl; [reflexivity|].
    destruct (String.eqb_spec k k') as [->|_].
    + exfalso. apply Hnot. now left.
    + apply IH. intros H. apply Hnot. now right.
  - destruct Hin as [->|Hin]; [contradiction|]. now apply IH.
Qed.

Lemma counts_sum (l : list string) (t : Table) :
  NoDup l -> (forall r, In r t -> In (source r) l) ->
  list_sum (map (fun s => count_source s t) l) = length t.
Proof.
  intros Hnd. induction t as [|r t IH]; intros Hin.
  - simpl. clear Hnd Hin. induction l as [|k l IHl]; simpl; auto.
  - assert (Hsplit :
      list_sum (map (fun s => count_source s (r :: t)) l)
      = list_sum (map (fun k => if source r =? k then 1 else 0) l)
        + list_sum (map (fun s => count_source s t) l)).
    { clear IH Hnd Hin. induction l as [|k l IHl]; simpl; [reflexivity|].
      rewrite count_source_cons, IHl. lia. }
    rewrite Hsplit, IH by (intros; apply Hin; now right).
    rewrite indicator_sum; [reflexivity|assumption|apply Hin; now left].
Qed.

(** X3. [countBySource] splits the table: one entry per source present, none
    of them empty, and the counts add up to the number of rows. *)
Theorem countBySource_partitions (t : Table) :
  NoDup (map fst (countBySource t)) /\
  (forall s c, In (s, c) (countBySource t) ->
               c = count_source s t /\ 1 <= c /\
               exists r, In r t /\ source r = s) /\
  (forall r, In r t -> In (source r, count_source (source r) t)
                          (countBySource t)) /\
  list_sum (map snd (countBySource t)) = length t.
Proof.
  unfold countBySource. repeat split.
  - rewrite map_map. simpl. rewrite map_id. apply sources_NoDup.
  - apply in_map_iff in H. destruct H as [k [E _]]. now injection E as <- <-.
  - apply in_map_iff in H. destruct H as [k [E Hk]]. injection E as <- <-.
    apply sources_In in Hk. destruct Hk as [r [Hr <-]].
    unfold count_source.
    assert (Hin : In r (filter (fun x => source x =? source r) t))
      by (apply filter_In; split; [assumption|apply String.eqb_refl]).
    destruct (filter (fun x => source x =? source r) t);
      [contradiction|simpl; lia].
  - apply in_map_iff in H. destruct H as [k [E Hk]]. injection E as <- <-.
    now apply sources_In.
  - intros r Hr. apply in_map_iff. exists (source r). split; [reflexivity|].
    apply sources_In. eauto.
  - rewrite map_map. simpl. apply counts_sum.
    + apply sources_NoDup.
    + intros r Hr. apply sources_In. eauto.
Qed.

End ReadFacts.

(* ================================================================== *)
(** * What a cycle does to the table *)

Section CycleFacts.
Context {N : JsNumber} {B : JsBuiltins}.
Variable w : World.

(** X4. A row that [insertPost.run] reports as inserted is returned by the
    read queries as long as the caps are not exceeded, with the id, source
    and creation time of the item and the store's clock as [fetched_at]. *)
Theorem inserted_item_is_listed (p : PostParams) (st st1 : State) :
  insertPost w p st = (Normal 1, st1) ->
  exists r,
    id r = at_id p /\ source r = at_source p /\
    created_at r = at_created_at p /\
    fetched_at r = datetime_now w (statements st) /\
    posts st1 = (posts st ++ [r])%list /\
    (length (posts st1) <= 400 -> In r (selectAll (posts st1))) /\
    (count_source (at_source p) (posts st1) <= 200 ->
     In r (selectBySource (at_source p) (posts st1))).
Proof.
  intros H.
  destruct (insertPost_cases w p st) as [[e He]|[r [Hr He]]];
    rewrite He in H; [discriminate|].
  injection H as Hc <-.
  destruct (bindRow_Normal _ _ Hr) as [Hid [Hs [_ [Hcr Hf]]]].
  exists r. repeat split; try assumption.
  - unfold insert_or_ignore in *. simpl.
    destruct (has_id (id r) (posts st)); [discriminate|reflexivity].
  - intros Hlen.
    apply (Permutation_in r (proj1 (select_complete _ "") Hlen)).
    simpl. unfold insert_or_ignore in *.
    destruct (has_id (id r) (posts st)); [discriminate|].
    simpl. apply in_or_app. right. now left.
  - intros Hlen.
    apply (Permutation_in r
             (proj2 (select_complete _ (at_source p)) Hlen)).
    apply filter_In. split; [|rewrite Hs; apply String.eqb_refl].
    simpl. unfold insert_or_ignore in *.
    destruct (has_id (id r) (posts st)); [discriminate|].
    simpl. apply in_or_app. right. now left.
Qed.

Lemma appended_refl (st : State) : appended st st.
Proof. exists []. now rewrite app_nil_r. Qed.

Lemma appended_same (st st' : State) :
  posts st' = posts st -> appended st st'.
Proof. intros H. exists []. now rewrite app_nil_r. Qed.

Lemma appended_trans (s1 s2 s3 : State) :
  appended s1 s2 -> appended s2 s3 -> appended s1 s3.
Proof.
  intros [a1 H1] [a2 H2]. exists (a1 ++ a2)%list.
  now rewrite H2, H1, app_assoc.
Qed.

Lemma appended_insertPost (p : PostParams) : sound appended (insertPost w p).
Proof.
  intros st. destruct (insertPost_cases w p st) as [[e ->]|[r [_ ->]]]; simpl.
  - apply appended_refl.
  - unfold appended. simpl. apply insert_or_ignore_extends.
Qed.

(** X5. A cycle only appends: the rows stored before it are all still there,
    unchanged and in the same order, whatever the feeds answer. *)
Theorem cycle_only_appends (sched : list bool) (st : State) :
  exists added,
    posts (snd (pollAll w sched st)) = (posts st ++ added)%list.
Proof.
  unfold pollAll. cbn [snd]. unfold pollAll_settled.
  apply (sound_allSettled (R := appended) appended_refl appended_trans).
  - intros step.
    apply (sound_pollReddit_steps appended_refl appended_trans (fun _ => True)).
    + intros ev s _. now apply appended_same.
    + intros [] n s; now apply appended_same.
    + auto.
    + intros _ p _. apply appended_insertPost.
    + intros _ p _. apply appended_insertPost.
  - intros step.
    apply (sound_pollX_steps appended_refl appended_trans (fun _ => True)).
    + intros ev s _. now apply appended_same.
    + intros [] n s; now apply appended_same.
    + auto.
    + intros _ p _. apply appended_insertPost.
Qed.

Lemma pollAll_keeps_pk (sched : list bool) (st : State) :
  pk_unique (posts st) -> pk_unique (posts (snd (pollAll w sched st))).
Proof. unfold pollAll. cbn [snd]. apply pollAll_pk_unique. Qed.

(** X6. A cycle keeps the primary key: no two rows share an id afterwards if
    none did before. *)
Theorem cycle_keeps_primary_key (sched : list bool) (st : State) :
  pk_unique (posts st) -> pk_unique (posts (snd (pollAll w sched st))).
Proof. apply pollAll_keeps_pk. Qed.

Lemma prefix_app (a b : string) : prefix a (a ++ b) = true.
Proof.
  induction a as [|c a IH]; simpl.
  - now destruct b.
  - destruct (ascii_dec c c) as [_|H]; [exact IH|contradiction].
Qed.

(** X7. A cycle stores rows of the three sources only, each under the id
    prefix of its source. *)
Theorem cycle_keeps_sources (sched : list bool) (st : State) :
  (forall r, In r (posts st) -> well_sourced r) ->
  forall r, In r (posts (snd (pollAll w sched st))) -> well_sourced r.
Proof.
  unfold pollAll. cbn [snd].
  apply (table_invariant_cycle w (fun t => forall r, In r t -> well_sourced r)).
  - intros child p now r t Hp Hr Ht.
    apply (insert_or_ignore_Forall well_sourced); [|exact Ht].
    destruct (redditPost_Normal _ Hp) as [Hi [Hs _]].
    destruct (bindRow_Normal _ _ Hr) as [Hi' [Hs' _]].
    left. rewrite Hi', Hs', Hi, Hs. split; [reflexivity|apply prefix_app].
  - intros child p now r t Hp Hr Ht.
    apply (insert_or_ignore_Forall well_sourced); [|exact Ht].
    destruct (commentItem_Some _ Hp) as [Hi [Hs _]].
    destruct (bindRow_Normal _ _ Hr) as [Hi' [Hs' _]].
    right. left. rewrite Hi', Hs', Hi, Hs. split; [reflexivity|apply prefix_app].
  - intros tweet p now r t Hp Hr Ht.
    apply (insert_or_ignore_Forall well_sourced); [|exact Ht].
    destruct (xPost_Normal _ Hp) as [Hi Hs].
    destruct (bindRow_Normal _ _ Hr) as [Hi' [Hs' _]].
    right. right. rewrite Hi', Hs', Hi, Hs. split; [reflexivity|apply prefix_app].
Qed.

End CycleFacts.

Section CycleExact.
Context {N : JsNumber} {B : JsBuiltins}.
Variable w : World.

Lemma adds_only_refl (ids : list string) (st : State) : adds_only ids st st.
Proof. intros i H. now left. Qed.

Lemma adds_only_same (ids : list string) (st st' : State) :
  posts st' = posts st -> adds_only ids st st'.
Proof. intros E i H. left. now rewrite <- E. Qed.

Lemma adds_only_trans (ids : list string) (s1 s2 s3 : State) :
  adds_only ids s1 s2 -> adds_only ids s2 s3 -> adds_only ids s1 s3.
Proof.
  intros H12 H23 i H. destruct (H23 i H) as [H2|H2]; auto.
Qed.

Lemma adds_only_incl (ids ids' : list string) (st st' : State) :
  incl ids ids' -> adds_only ids st st' -> adds_only ids' st st'.
Proof. intros Hincl H i Hi. destruct (H i Hi); auto. Qed.

Lemma run_and_count_posts (f : Frame) (p : PostParams) (st : State) :
  (bindable p = false /\ exists e, run_and_count w f p st = (Throw e, st)) \/
  (bindable p = true /\ exists r,
      id r = at_id p /\ source r = at_source p /\
      fst (run_and_count w f p st) = Normal tt /\
      posts (snd (run_and_count w f p st))
        = fst (insert_or_ignore r (posts st)) /\
      inserted f (snd (run_and_count w f p st))
        = inserted f st + snd (insert_or_ignore r (posts st)) /\
      forall g, g <> f ->
                inserted g (snd (run_and_count w f p st)) = inserted g st).
Proof.
  unfold run_and_count, bind.
  destruct (insertPost_cases w p st) as [[e He]|[r [Hr He]]]; rewrite He.
  - left. split; [|eauto].
    destruct (bindable p) eqn:Hb; [|reflexivity].
    destruct (bindable_bindRow p (datetime_now w (statements st)) Hb) as [r Hr].
    unfold insertPost in He. rewrite Hr in He.
    destruct (insert_or_ignore r (posts st)). discriminate.
  - right. split.
    + unfold bindable.
      destruct (@bindRow_clock _ p _ "" _ Hr) as [r' ->]. reflexivity.
    + exists r. destruct (bindRow_Normal _ _ Hr) as [Hid [Hs _]].
      split; [exact Hid|]. split; [exact Hs|].
      unfold count_changes, insert_or_ignore.
      destruct (has_id (id r) (posts st)); simpl.
      * repeat split; try lia. destruct f; simpl; lia.
      * repeat split.
        -- destruct f; reflexivity.
        -- destruct f; simpl; lia.
        -- intros g Hg. destruct f, g; simpl; congruence.
Qed.

Lemma adds_only_insert (r : Row) (st : State) (t : Table) :
  t = fst (insert_or_ignore r (posts st)) ->
  forall i, has_id i t = true -> has_id i (posts st) = true \/ i = id r.
Proof.
  intros -> i. unfold insert_or_ignore.
  destruct (has_id (id r) (posts st)); simpl; [auto|].
  rewrite has_id_app. unfold has_id at 2. simpl.
  destruct (has_id i (posts st)); [auto|]. simpl.
  rewrite orb_false_r. intros H. apply String.eqb_eq in H. auto.
Qed.

Section LoopExact.
Variable f : Frame.
Variable item : JSValue -> Completion (option PostParams).
Variable body : JSValue -> M unit.
Hypothesis body_shape : forall child,
  body child = (o <- lift (item child);;
                match o with
                | None => ret tt
                | Some p => run_and_count w f p
                end).

Lemma loop_adds_only_yielded (children : list JSValue) (st : State) :
  adds_only (map at_id (yielded item children)) st
            (snd (forOf body children st)).
Proof.
  revert st. induction children as [|child rest IH]; intros st.
  - apply adds_only_refl.
  - simpl. unfold bind at 1. rewrite body_shape. unfold bind at 1, lift.
    destruct (item child) as [[q|]|e]; simpl.
    + destruct (run_and_count_posts f q st)
        as [[Hb [e He]]|[Hb [r [Hid [_ [Hn [Hp _]]]]]]]; rewrite Hb.
      * rewrite He. apply adds_only_refl.
      * destruct (run_and_count w f q st) as [c st1]. simpl in *. subst c.
        intros i Hi. destruct (IH st1 i Hi) as [H1|H1].
        -- destruct (adds_only_insert r st Hp i H1) as [H0|H0]; [now left|].
           right. left. congruence.
        -- right. now right.
    + apply IH.
    + apply adds_only_refl.
Qed.

End LoopExact.

Lemma primary_adds_only (st : State) :
  adds_only (map at_id (primary_items w)) st (snd (pollReddit_primary w st)).
Proof.
  unfold pollReddit_primary, primary_items, visited, try_catch, bind,
    await_fetch, await_json, lift.
  destruct (fetch w primary_url) as [res|]; simpl;
    [|now apply adds_only_same].
  destruct (ok res); simpl; [|apply adds_only_refl].
  destruct (json res) as [data|]; simpl; [|now apply adds_only_same].
  destruct (iterate (listing_children data)) as [items|e]; simpl;
    [|now apply adds_only_same].
  pose proof (loop_adds_only_yielded in_pollReddit redditItem
                (insertRedditChild w) (insertRedditChild_shape w) items st) as H.
  destruct (forOf (insertRedditChild w) items st) as [[[]|e] st']; simpl in *;
    assumption.
Qed.

Lemma search_adds_only (subreddit : string) (st : State) :
  adds_only (map at_id (search_items w subreddit)) st
            (snd (pollReddit_search w subreddit st)).
Proof.
  unfold pollReddit_search, search_items, visited, try_catch, bind,
    await_fetch, await_json, lift.
  destruct (fetch w (search_url subreddit)) as [res|]; simpl;
    [|now apply adds_only_same].
  destruct (ok res); simpl; [|now apply adds_only_same].
  destruct (json res) as [data|]; simpl; [|now apply adds_only_same].
  destruct (iterate (listing_children data)) as [items|e]; simpl;
    [|now apply adds_only_same].
  pose proof (loop_adds_only_yielded in_pollReddit redditItem
                (insertRedditChild w) (insertRedditChild_shape w) items st) as H.
  destruct (forOf (insertRedditChild w) items st) as [[[]|e] st']; simpl in *;
    assumption.
Qed.

Lemma comments_adds_only (st : State) :
  adds_only (map at_id (comment_items w)) st
            (snd (pollSubredditComments w st)).
Proof.
  unfold pollSubredditComments. unfold bind at 1. unfold let_inserted.
  cbv beta iota.
  apply adds_only_trans
    with (s2 := set_inserted in_pollSubredditComments 0 st);
    [now apply adds_only_same|].
  generalize (set_inserted in_pollSubredditComments 0 st). clear st. intros st.
  unfold comment_items, visited, try_catch, bind,
    await_fetch, await_json, lift, get_inserted, log, ret.
  destruct (fetch w comments_url) as [res|]; simpl;
    [|now apply adds_only_same].
  destruct (ok res); simpl; [|now apply adds_only_same].
  destruct (json res) as [data|]; simpl; [|now apply adds_only_same].
  destruct (iterate (listing_children data)) as [items|e]; simpl;
    [|now apply adds_only_same].
  pose proof (loop_adds_only_yielded in_pollSubredditComments commentItem
                (insertCommentChild w) (insertCommentChild_shape w) items st) as H.
  destruct (forOf (insertCommentChild w) items st)
    as [[[]|e] st']; simpl in *; assumption.
Qed.

Lemma x_adds_only (st : State) :
  adds_only (map at_id (x_items w)) st (snd (pollX_search w st)).
Proof.
  unfold pollX_search, x_items, visited, try_catch, bind,
    await_fetch, await_json, await_text, lift, get_inserted, log, ret.
  destruct (fetch w x_url) as [res|]; simpl; [|now apply adds_only_same].
  destruct (ok res); simpl;
    [|destruct (text res); simpl; now apply adds_only_same].
  destruct (json res) as [data|]; simpl; [|now apply adds_only_same].
  destruct (iterate (coalesce (optMember data "data") (JArr []))) as [items|e];
    simpl; [|now apply adds_only_same].
  pose proof (loop_adds_only_yielded in_pollX tweetItem
                (insertTweet w) (insertTweet_shape w) items st) as H.
  destruct (forOf (insertTweet w) items st) as [[[]|e] st']; simpl in *;
    assumption.
Qed.

Lemma all_items_In (p : PostParams) :
  In p (all_items w) <->
  In p (primary_items w) \/
  (exists subreddit, In subreddit (searchSubs w) /\
                     In p (search_items w subreddit)) \/
  In p (comment_items w) \/
  (truthy (env_value (X_BEARER_TOKEN w)) = true /\ In p (x_items w)).
Proof.
  unfold all_items. rewrite !in_app_iff, in_flat_map.
  destruct (truthy (env_value (X_BEARER_TOKEN w))); simpl; intuition congruence.
Qed.

Lemma reddit_step_adds_only (step : M unit) :
  In step (pollReddit_steps w) ->
  sound (adds_only (map at_id (all_items w))) step.
Proof.
  unfold pollReddit_steps. rewrite !in_app_iff. simpl.
  intros [[H|[]]|[[H|[]]|[H|[[H|[]]|[H|[]]]]]] st; subst.
  - now apply adds_only_same.
  - eapply adds_only_incl; [|apply primary_adds_only].
    intros i Hi. apply in_map_iff in Hi. destruct Hi as [p [<- Hp]].
    apply in_map. apply all_items_In. auto.
  - apply in_map_iff in H. destruct H as [sub [<- Hsub]].
    eapply adds_only_incl; [|apply search_adds_only].
    intros i Hi. apply in_map_iff in Hi. destruct Hi as [p [<- Hp]].
    apply in_map. apply all_items_In. right. left. eauto.
  - now apply adds_only_same.
  - eapply adds_only_incl; [|apply comments_adds_only].
    intros i Hi. apply in_map_iff in Hi. destruct Hi as [p [<- Hp]].
    apply in_map. apply all_items_In. auto.
Qed.

Lemma x_step_adds_only (step : M unit) :
  In step (pollX_steps w) ->
  sound (adds_only (map at_id (all_items w))) step.
Proof.
  unfold pollX_steps.
  destruct (truthy (env_value (X_BEARER_TOKEN w))) eqn:Htok; simpl.
  - intros [H|[H|[]]] st; subst.
    + now apply adds_only_same.
    + eapply adds_only_incl; [|apply x_adds_only].
      intros i Hi. apply in_map_iff in Hi. destruct Hi as [p [<- Hp]].
      apply in_map. apply all_items_In. auto.
  - intros [H|[]] st; subst. now apply adds_only_same.
Qed.

Lemma pollAll_ids (sched : list bool) (st : State) (i : string) :
  has_id i (posts (snd (pollAll w sched st))) = true <->
  has_id i (posts st) = true \/ In i (map at_id (all_items w)).
Proof.
  unfold pollAll. cbn [snd]. split.
  - revert i. change (adds_only (map at_id (all_items w)) st
                        (snd (pollAll_settled w sched st))).
    unfold pollAll_settled.
    apply (sound_allSettled (R := adds_only (map at_id (all_items w)))).
    + apply adds_only_refl.
    + apply adds_only_trans.
    + apply reddit_step_adds_only.
    + apply x_step_adds_only.
  - intros [H|H].
    + now apply pollAll_has_id.
    + apply in_map_iff in H. destruct H as [p [<- Hp]].
      destruct (cycle_stores_reddit w sched st) as [H1 [H2 H3]].
      apply all_items_In in Hp.
      destruct Hp as [Hp|[[sub [Hsub Hp]]|[Hp|[Htok Hp]]]].
      * now apply H1.
      * now apply (H2 sub).
      * now apply H3.
      * apply cycle_stores with (items := x_items w) (step := pollX_search w);
          [right; now apply x_search_in_steps|apply x_stores|exact Hp].
Qed.

(** X8. The ids stored after a cycle are exactly the ids stored before and
    the ids of the items of its paths: a cycle stores every item it was
    given and nothing else, for instance nothing from a listing past the
    child that made its loop throw. *)
Theorem cycle_stores_exactly (sched : list bool) (st : State) (i : string) :
  has_id i (posts (snd (pollAll w sched st))) = true <->
  has_id i (posts st) = true \/ In i (map at_id (all_items w)).
Proof. apply pollAll_ids. Qed.

Lemma same_ids_same_length (t1 t2 : Table) :
  pk_unique t1 -> pk_unique t2 ->
  (forall i, has_id i t1 = has_id i t2) -> length t1 = length t2.
Proof.
  intros H1 H2 H.
  rewrite <- (length_map id t1), <- (length_map id t2).
  apply Permutation_length, NoDup_Permutation; try assumption.
  intros i. rewrite <- !has_id_In, H. reflexivity.
Qed.

(** X9. Which ids are stored after a cycle, and how many rows, does not
    depend on how the event loop interleaves the two pollers. *)
Theorem cycle_result_independent_of_schedule
        (sched1 sched2 : list bool) (st : State) :
  pk_unique (posts st) ->
  (forall i, has_id i (posts (snd (pollAll w sched1 st)))
             = has_id i (posts (snd (pollAll w sched2 st)))) /\
  length (posts (snd (pollAll w sched1 st)))
  = length (posts (snd (pollAll w sched2 st))).
Proof.
  intros Hpk.
  assert (Hids : forall i, has_id i (posts (snd (pollAll w sched1 st)))
                           = has_id i (posts (snd (pollAll w sched2 st)))).
  { intros i.
    pose proof (pollAll_ids sched1 st i) as E1.
    pose proof (pollAll_ids sched2 st i) as E2.
    destruct (has_id i (posts (snd (pollAll w sched1 st))));
      destruct (has_id i (posts (snd (pollAll w sched2 st)))); try reflexivity.
    - symmetry. apply E2, E1. reflexivity.
    - apply E1, E2. reflexivity. }
  split; [exact Hids|].
  apply same_ids_same_length; try assumption;
    unfold pollAll; cbn [snd]; now apply pollAll_pk_unique.
Qed.

End CycleExact.

(* ================================================================== *)
(** * Where the rows of a cycle come from *)

Section PostBodies.
Context {N : JsNumber} {B : JsBuiltins}.
Variable w : World.

Lemma rows_from_refl (items : list PostParams) (st : State) :
  rows_from items st st.
Proof. intros r H. now left. Qed.

Lemma rows_from_same (items : list PostParams) (st st' : State) :
  posts st' = posts st -> rows_from items st st'.
Proof. intros E r H. left. now rewrite <- E. Qed.

Lemma rows_from_trans (items : list PostParams) (s1 s2 s3 : State) :
  rows_from items s1 s2 -> rows_from items s2 s3 -> rows_from items s1 s3.
Proof.
  intros H12 H23 r H. destruct (H23 r H) as [H2|H2]; auto.
Qed.

Lemma rows_from_incl (items items' : list PostParams) (st st' : State) :
  incl items items' -> rows_from items st st' -> rows_from items' st st'.
Proof.
  intros Hincl H r Hr. destruct (H r Hr) as [H0|[p [Hp H0]]]; [now left|].
  right. exists p. split; [now apply Hincl|exact H0].
Qed.

Lemma run_and_count_rows (f : Frame) (p : PostParams) (st : State) (r : Row) :
  In r (posts (snd (run_and_count w f p st))) ->
  In r (posts st) \/
  (id r = at_id p /\ source r = at_source p /\
   bindValue (at_body p) = Normal (body r)).
Proof.
  unfold run_and_count, bind.
  destruct (insertPost_cases w p st) as [[e He]|[r0 [Hr He]]]; rewrite He.
  - simpl. auto.
  - destruct (bindRow_Normal _ _ Hr) as [Hid [Hs [Hb _]]].
    assert (Hposts : posts (snd (count_changes f
                                   (snd (insert_or_ignore r0 (posts st)))
                                   (after_statement
                                      (fst (insert_or_ignore r0 (posts st))) st)))
                     = fst (insert_or_ignore r0 (posts st))).
    { unfold count_changes.
      destruct (Nat.ltb 0 (snd (insert_or_ignore r0 (posts st))));
        destruct f; reflexivity. }
    rewrite Hposts. unfold insert_or_ignore.
    destruct (has_id (id r0) (posts st)); simpl; [auto|].
    rewrite in_app_iff. simpl. intros [H|[<-|[]]]; auto.
Qed.

Section LoopRows.
Variable f : Frame.
Variable item : JSValue -> Completion (option PostParams).
Variable body : JSValue -> M unit.
Hypothesis body_shape : forall child,
  body child = (o <- lift (item child);;
                match o with
                | None => ret tt
                | Some p => run_and_count w f p
                end).

Lemma loop_rows_from_yielded (children : list JSValue) (st : State) :
  rows_from (yielded item children) st (snd (forOf body children st)).
Proof.
  revert st. induction children as [|child rest IH]; intros st.
  - apply rows_from_refl.
  - simpl. unfold bind at 1. rewrite body_shape. unfold bind at 1, lift.
    destruct (item child) as [[q|]|e]; simpl.
    + pose proof (run_and_count_rows f q st) as Hrows.
      destruct (run_and_count_posts w f q st)
        as [[Hb [e He]]|[Hb [r0 [_ [_ [Hn _]]]]]]; rewrite Hb.
      * rewrite He. apply rows_from_refl.
      * destruct (run_and_count w f q st) as [c st1]. simpl in *. subst c.
        intros r Hr. destruct (IH st1 r Hr) as [H1|[p [Hp H1]]].
        -- destruct (Hrows r H1) as [H0|H0]; [now left|].
           right. exists q. split; [now left|exact H0].
        -- right. exists p. split; [now right|exact H1].
    + apply IH.
    + apply rows_from_refl.
Qed.

End LoopRows.

Lemma primary_rows_from (st : State) :
  rows_from (primary_items w) st (snd (pollReddit_primary w st)).
Proof.
  unfold pollReddit_primary, primary_items, visited, try_catch, bind,
    await_fetch, await_json, lift.
  destruct (fetch w primary_url) as [res|]; simpl;
    [|now apply rows_from_same].
  destruct (ok res); simpl; [|apply rows_from_refl].
  destruct (json res) as [data|]; simpl; [|now apply rows_from_same].
  destruct (iterate (listing_children data)) as [items|e]; simpl;
    [|now apply rows_from_same].
  pose proof (loop_rows_from_yielded in_pollReddit redditItem
                (insertRedditChild w) (insertRedditChild_shape w) items st) as H.
  destruct (forOf (insertRedditChild w) items st) as [[[]|e] st']; simpl in *;
    assumption.
Qed.

Lemma search_rows_from (subreddit : string) (st : State) :
  rows_from (search_items w subreddit) st
            (snd (pollReddit_search w subreddit st)).
Proof.
  unfold pollReddit_search, search_items, visited, try_catch, bind,
    await_fetch, await_json, lift.
  destruct (fetch w (search_url subreddit)) as [res|]; simpl;
    [|now apply rows_from_same].
  destruct (ok res); simpl; [|now apply rows_from_same].
  destruct (json res) as [data|]; simpl; [|now apply rows_from_same].
  destruct (iterate (listing_children data)) as [items|e]; simpl;
    [|now apply rows_from_same].
  pose proof (loop_rows_from_yielded in_pollReddit redditItem
                (insertRedditChild w) (insertRedditChild_shape w) items st) as H.
  destruct (forOf (insertRedditChild w) items st) as [[[]|e] st']; simpl in *;
    assumption.
Qed.

Lemma comments_rows_from (st : State) :
  rows_from (comment_items w) st (snd (pollSubredditComments w st)).
Proof.
  unfold pollSubredditComments. unfold bind at 1. unfold let_inserted.
  cbv beta iota.
  apply rows_from_trans
    with (s2 := set_inserted in_pollSubredditComments 0 st);
    [now apply rows_from_same|].
  generalize (set_inserted in_pollSubredditComments 0 st). clear st. intros st.
  unfold comment_items, visited, try_catch, bind,
    await_fetch, await_json, lift, get_inserted, log, ret.
  destruct (fetch w comments_url) as [res|]; simpl;
    [|now apply rows_from_same].
  destruct (ok res); simpl; [|now apply rows_from_same].
  destruct (json res) as [data|]; simpl; [|now apply rows_from_same].
  destruct (iterate (listing_children data)) as [items|e]; simpl;
    [|now apply rows_from_same].
  pose proof (loop_rows_from_yielded in_pollSubredditComments commentItem
                (insertCommentChild w) (insertCommentChild_shape w) items st) as H.
  destruct (forOf (insertCommentChild w) items st)
    as [[[]|e] st']; simpl in *; assumption.
Qed.

Lemma x_rows_from (st : State) :
  rows_from (x_items w) st (snd (pollX_search w st)).
Proof.
  unfold pollX_search, x_items, visited, try_catch, bind,
    await_fetch, await_json, await_text, lift, get_inserted, log, ret.
  destruct (fetch w x_url) as [res|]; simpl; [|now apply rows_from_same].
  destruct (ok res); simpl;
    [|destruct (text res); simpl; now apply rows_from_same].
  destruct (json res) as [data|]; simpl; [|now apply rows_from_same].
  destruct (iterate (coalesce (optMember data "data") (JArr []))) as [items|e];
    simpl; [|now apply rows_from_same].
  pose proof (loop_rows_from_yielded in_pollX tweetItem
                (insertTweet w) (insertTweet_shape w) items st) as H.
  destruct (forOf (insertTweet w) items st) as [[[]|e] st']; simpl in *;
    assumption.
Qed.

Lemma reddit_step_rows_from (step : M unit) :
  In step (pollReddit_steps w) -> sound (rows_from (all_items w)) step.
Proof.
  unfold pollReddit_steps. rewrite !in_app_iff. simpl.
  intros [[H|[]]|[[H|[]]|[H|[[H|[]]|[H|[]]]]]] st; subst.
  - now apply rows_from_same.
  - eapply rows_from_incl; [|apply primary_rows_from].
    intros p Hp. apply all_items_In. auto.
  - apply in_map_iff in H. destruct H as [sub [<- Hsub]].
    eapply rows_from_incl; [|apply search_rows_from].
    intros p Hp. apply all_items_In. right. left. eauto.
  - now apply rows_from_same.
  - eapply rows_from_incl; [|apply comments_rows_from].
    intros p Hp. apply all_items_In. auto.
Qed.

Lemma x_step_rows_from (step : M unit) :
  In step (pollX_steps w) -> sound (rows_from (all_items w)) step.
Proof.
  unfold pollX_steps.
  destruct (truthy (env_value (X_BEARER_TOKEN w))) eqn:Htok; simpl.
  - intros [H|[H|[]]] st; subst.
    + now apply rows_from_same.
    + eapply rows_from_incl; [|apply x_rows_from].
      intros p Hp. apply all_items_In. auto.
  - intros [H|[]] st; subst. now apply rows_from_same.
Qed.

Lemma pollAll_rows_from (sched : list bool) (st : State) :
  rows_from (all_items w) st (snd (pollAll w sched st)).
Proof.
  unfold pollAll. cbn [snd]. unfold pollAll_settled.
  apply (sound_allSettled (R := rows_from (all_items w))).
  - apply rows_from_refl.
  - apply rows_from_trans.
  - apply reddit_step_rows_from.
  - apply x_step_rows_from.
Qed.

(** A stored item whose id was free, when every item it may have been
    bound from has a [null] body, has a NULL body. *)
Lemma stored_with_null_body (items : list PostParams) (i : string)
      (st st' : State) :
  rows_from items st st' ->
  has_id i (posts st) = false ->
  has_id i (posts st') = true ->
  (forall p, In p items -> at_id p = i -> at_body p = JNull) ->
  exists r, In r (posts st') /\ id r = i /\ body r = SqlNull.
Proof.
  intros Hfrom Hfree Hin Hnull.
  apply has_id_In in Hin. apply in_map_iff in Hin.
  destruct Hin as [r [Hid Hr]].
  exists r. split; [exact Hr|]. split; [exact Hid|].
  destruct (Hfrom r Hr) as [H0|[p [Hp [Hidp [_ Hb]]]]].
  - exfalso. assert (H1 : has_id i (posts st) = true).
    { apply has_id_In. apply in_map_iff. now exists r. }
    congruence.
  - rewrite (Hnull p Hp) in Hb by congruence.
    simpl in Hb. now injection Hb as <-.
Qed.

(** C10. A falsy self-text is stored as NULL.  The object both post loops
    build has [body = null] when [selftext] is falsy, and the row bound
    from it has a NULL body; every item of the primary listing and of a
    search is such an object; neither path ever adds a post whose stored
    body is the empty string or a falsy number.  And the row is there:
    for a post with a falsy [selftext] that the primary loop, or the loop
    of a search, hands to [insertPost.run], whose id was not stored yet,
    the table holds a row with that id and a NULL body after the loop,
    and after a whole cycle under every schedule, provided the items of
    that id agree on the body (with [INSERT OR IGNORE] the first item of
    an id decides). *)
Theorem falsy_selftext_stored_as_null (st : State) (subreddit : string) :
  (forall child p,
      redditPost child = Normal p ->
      truthy (prop (prop child "data") "selftext") = false ->
      at_body p = JNull /\
      forall now r, bindRow p now = Normal r -> body r = SqlNull) /\
  (forall p,
      In p (primary_items w) \/ In p (search_items w subreddit) ->
      exists child, redditPost child = Normal p) /\
  (no_falsy_post_body (posts st) ->
   no_falsy_post_body (posts (snd (pollReddit_primary w st))) /\
   no_falsy_post_body (posts (snd (pollReddit_search w subreddit st)))) /\
  (forall child p,
      redditPost child = Normal p ->
      truthy (prop (prop child "data") "selftext") = false ->
      has_id (at_id p) (posts st) = false ->
      (In p (primary_items w) ->
       (forall p', In p' (primary_items w) -> at_id p' = at_id p ->
                   at_body p' = at_body p) ->
       exists r, In r (posts (snd (pollReddit_primary w st))) /\
                 id r = at_id p /\ body r = SqlNull) /\
      (In p (search_items w subreddit) ->
       (forall p', In p' (search_items w subreddit) -> at_id p' = at_id p ->
                   at_body p' = at_body p) ->
       exists r, In r (posts (snd (pollReddit_search w subreddit st))) /\
                 id r = at_id p /\ body r = SqlNull) /\
      (In p (primary_items w) \/
       In subreddit (searchSubs w) /\ In p (search_items w subreddit) ->
       (forall p', In p' (all_items w) -> at_id p' = at_id p ->
                   at_body p' = at_body p) ->
       forall sched,
       exists r, In r (posts (snd (pollAll w sched st))) /\
                 id r = at_id p /\ body r = SqlNull)).
Proof.
  split; [|split; [|split]].
  - intros child p Hp Hf. split.
    + destruct (redditPost_Normal _ Hp) as [_ [_ Hb]].
      rewrite Hb. unfold js_or. now rewrite Hf.
    + intros now r Hr. now apply (redditPost_row _ _ Hp Hr).
  - assert (Hitem : forall children p,
               In p (yielded redditItem children) ->
               exists child, redditPost child = Normal p).
    { intros children p Hin.
      destruct (yielded_from _ _ _ Hin) as [child [_ [Hc _]]].
      exists child. unfold redditItem in Hc.
      destruct (redditPost child); simpl in Hc; congruence. }
    intros p [Hin|Hin]; eapply Hitem; eassumption.
  - set (K := fun s s' : State =>
                no_falsy_post_body (posts s) -> no_falsy_post_body (posts s')).
    assert (Krefl : forall s, K s s) by (unfold K; auto).
    assert (Ktrans : forall s1 s2 s3, K s1 s2 -> K s2 s3 -> K s1 s3)
      by (unfold K; auto).
    assert (Kcons : forall ev s, True -> K s (write_console ev s))
      by (unfold K; auto).
    assert (Kins : forall f n s, K s (set_inserted f n s))
      by (unfold K; intros [] ? ?; auto).
    assert (Kpost : forall child p,
               redditPost child = Normal p -> sound K (insertPost w p)).
    { intros child p Hp. apply (insertPost_table w no_falsy_post_body).
      intros now r t Hr Ht. unfold no_falsy_post_body.
      apply (insert_or_ignore_Forall
               (fun x => source x = "reddit" ->
                         body x <> SqlText "" /\
                         (forall n, body x = SqlNumber n -> number_falsy n = false)));
        [|exact Ht].
      intros _. now apply (redditPost_row _ _ Hp Hr). }
    intros Hst. split.
    + revert Hst.
      apply (sound_pollReddit_primary Krefl Ktrans (fun _ => True) Kcons Kins
               (fun _ _ => I) Kpost).
    + revert Hst.
      apply (sound_pollReddit_search Krefl Ktrans (fun _ => True) Kcons Kins
               (fun _ _ => I) Kpost).
  - intros child p Hp Hf Hfree.
    assert (Hb : at_body p = JNull).
    { destruct (redditPost_Normal _ Hp) as [_ [_ Hb]].
      rewrite Hb. unfold js_or. now rewrite Hf. }
    rewrite Hb. split; [|split].
    + intros Hin Hnull.
      apply (stored_with_null_body (items := primary_items w) (st := st));
        [apply primary_rows_from|exact Hfree| |exact Hnull].
      now apply primary_stores.
    + intros Hin Hnull.
      apply (stored_with_null_body (items := search_items w subreddit) (st := st));
        [apply search_rows_from|exact Hfree| |exact Hnull].
      now apply search_stores.
    + intros Hin Hnull sched.
      apply (stored_with_null_body (items := all_items w) (st := st));
        [apply pollAll_rows_from|exact Hfree| |exact Hnull].
      apply pollAll_ids. right. apply in_map. apply all_items_In.
      destruct Hin as [Hin|[Hsub Hin]]; [now left|].
      right. left. eauto.
Qed.

End PostBodies.

Section CycleCounters.
Context {N : JsNumber} {B : JsBuiltins}.
Variable w : World.
Variable f : Frame.

Let R : State -> State -> Prop := counts_source f (source_of_frame f).

Lemma cs_refl (st : State) : R st st.
Proof. unfold R, counts_source. lia. Qed.

Lemma cs_trans (s1 s2 s3 : State) : R s1 s2 -> R s2 s3 -> R s1 s3.
Proof. unfold R, counts_source. lia. Qed.

Lemma cs_same (st st' : State) :
  posts st' = posts st -> inserted f st' = inserted f st -> R st st'.
Proof. unfold R, counts_source. intros -> ->. reflexivity. Qed.

Lemma cs_log (ev : LogEvent) : sound R (log ev).
Proof. intros st. apply cs_same; destruct f; reflexivity. Qed.

Lemma cs_let (g : Frame) (n : nat) : g <> f -> sound R (let_inserted g n).
Proof.
  intros Hg st. apply cs_same; [destruct g; reflexivity|].
  destruct f, g; try reflexivity; contradiction.
Qed.

Lemma count_source_insert (src : string) (r : Row) (t : Table) :
  count_source src (fst (insert_or_ignore r t))
  = count_source src t
    + (if source r =? src then snd (insert_or_ignore r t) else 0).
Proof.
  unfold insert_or_ignore, count_source.
  destruct (has_id (id r) t); simpl.
  - destruct (source r =? src); lia.
  - rewrite filter_app, length_app. simpl.
    destruct (source r =? src); simpl; lia.
Qed.

Lemma cs_run (g : Frame) (p : PostParams) :
  at_source p = source_of_frame g -> sound R (run_and_count w g p).
Proof.
  intros Hsrc st. unfold R, counts_source.
  destruct (run_and_count_posts w g p st)
    as [[_ [e ->]]|[_ [r [_ [Hs [_ [Hp [Hi Ho]]]]]]]]; [simpl; lia|].
  rewrite Hp, count_source_insert, Hs, Hsrc.
  pose proof (Ho f) as Hof. clear Ho.
  destruct f, g; simpl in *;
    try lia; rewrite Hof by discriminate; lia.
Qed.

Lemma cs_insertRedditChild (child : JSValue) :
  sound R (insertRedditChild w child).
Proof.
  unfold insertRedditChild. apply sound_bind_lift; [exact cs_refl|].
  intros p Hp. apply cs_run. now destruct (redditPost_Normal _ Hp) as [_ [-> _]].
Qed.

Lemma cs_insertCommentChild (child : JSValue) :
  sound R (insertCommentChild w child).
Proof.
  unfold insertCommentChild. apply sound_bind_lift; [exact cs_refl|].
  intros [p|] Hp; [|apply sound_ret, cs_refl].
  apply cs_run. now destruct (commentItem_Some _ Hp) as [_ [-> _]].
Qed.

Lemma cs_insertTweet (tweet : JSValue) : sound R (insertTweet w tweet).
Proof.
  unfold insertTweet. apply sound_bind_lift; [exact cs_refl|].
  intros p Hp. apply cs_run. now destruct (xPost_Normal _ Hp) as [_ ->].
Qed.

Lemma cs_primary : sound R (pollReddit_primary w).
Proof.
  unfold pollReddit_primary.
  apply sound_try_catch; [exact cs_trans| |intros e; apply cs_log].
  apply sound_bind; [exact cs_trans|apply sound_await_fetch, cs_refl|].
  intros res. destruct (ok res); [|apply sound_ret, cs_refl].
  apply sound_bind; [exact cs_trans|apply sound_await_json, cs_refl|].
  intros data. apply sound_bind_lift; [exact cs_refl|]. intros items _.
  apply sound_forOf; [exact cs_refl|exact cs_trans|].
  apply cs_insertRedditChild.
Qed.

Lemma cs_search (subreddit : string) : sound R (pollReddit_search w subreddit).
Proof.
  unfold pollReddit_search.
  apply sound_try_catch; [exact cs_trans| |intros e; apply cs_log].
  apply sound_bind; [exact cs_trans|apply sound_await_fetch, cs_refl|].
  intros res. destruct (negb (ok res)); [apply cs_log|].
  apply sound_bind; [exact cs_trans|apply sound_await_json, cs_refl|].
  intros data. apply sound_bind_lift; [exact cs_refl|]. intros items _.
  apply sound_forOf; [exact cs_refl|exact cs_trans|].
  apply cs_insertRedditChild.
Qed.

Lemma cs_done : sound R (n <- get_inserted in_pollReddit;; log (log_reddit_done n)).
Proof.
  apply sound_bind; [exact cs_trans|apply sound_get_inserted, cs_refl|].
  intros n. apply cs_log.
Qed.

Lemma cs_comments :
  f <> in_pollSubredditComments -> sound R (pollSubredditComments w).
Proof.
  intros Hf. unfold pollSubredditComments.
  apply sound_bind; [exact cs_trans|apply cs_let; congruence|]. intros _.
  apply sound_bind; [exact cs_trans| |].
  - apply sound_try_catch; [exact cs_trans| |].
    + apply sound_bind; [exact cs_trans|apply sound_await_fetch, cs_refl|].
      intros res. destruct (negb (ok res)).
      * apply sound_bind; [exact cs_trans|apply cs_log|].
        intros _. apply sound_ret, cs_refl.
      * apply sound_bind; [exact cs_trans|apply sound_await_json, cs_refl|].
        intros data. apply sound_bind_lift; [exact cs_refl|]. intros items _.
        apply sound_bind; [exact cs_trans| |intros _; apply sound_ret, cs_refl].
        apply sound_forOf; [exact cs_refl|exact cs_trans|].
        apply cs_insertCommentChild.
    + intros e. apply sound_bind; [exact cs_trans|apply cs_log|].
      intros _. apply sound_ret, cs_refl.
  - intros [|]; [apply sound_ret, cs_refl|].
    apply sound_bind; [exact cs_trans|apply sound_get_inserted, cs_refl|].
    intros n. apply cs_log.
Qed.

Lemma cs_x_search : sound R (pollX_search w).
Proof.
  unfold pollX_search.
  apply sound_bind; [exact cs_trans| |].
  - apply sound_try_catch; [exact cs_trans| |].
    + apply sound_bind; [exact cs_trans|apply sound_await_fetch, cs_refl|].
      intros res. destruct (negb (ok res)).
      * apply sound_bind; [exact cs_trans|apply sound_await_text, cs_refl|].
        intros body.
        apply sound_bind; [exact cs_trans|apply cs_log|].
        intros _. apply sound_ret, cs_refl.
      * apply sound_bind; [exact cs_trans|apply sound_await_json, cs_refl|].
        intros data. apply sound_bind_lift; [exact cs_refl|]. intros items _.
        apply sound_bind; [exact cs_trans| |intros _; apply sound_ret, cs_refl].
        apply sound_forOf; [exact cs_refl|exact cs_trans|].
        apply cs_insertTweet.
    + intros e. apply sound_bind; [exact cs_trans|apply cs_log|].
      intros _. apply sound_ret, cs_refl.
  - intros [|]; [apply sound_ret, cs_refl|].
    apply sound_bind; [exact cs_trans|apply sound_get_inserted, cs_refl|].
    intros n. apply cs_log.
Qed.

Lemma cs_reddit_rest (step : M unit) :
  f <> in_pollSubredditComments ->
  In step (tl (pollReddit_steps w)) -> sound R step.
Proof.
  intros Hf. unfold pollReddit_steps. simpl. rewrite !in_app_iff. simpl.
  intros [H|[H|[H|[H|[]]]]]; subst.
  - apply cs_primary.
  - apply in_map_iff in H. destruct H as [sub [<- _]]. apply cs_search.
  - apply cs_done.
  - now apply cs_comments.
Qed.

End CycleCounters.

Section CycleCountersMain.
Context {N : JsNumber} {B : JsBuiltins}.
Variable w : World.

Lemma pollAll_after_first_step (sched : list bool) (st : State) :
  pollAll_settled w sched st =
    allSettled (false :: sched) (tl (pollReddit_steps w)) (pollX_steps w)
      (set_inserted in_pollReddit 0 (write_console log_reddit_polling st)).
Proof. reflexivity. Qed.

Lemma cs_x_steps (f : Frame) (step : M unit) :
  f <> in_pollX ->
  In step (pollX_steps w) ->
  sound (counts_source f (source_of_frame f)) step.
Proof.
  intros Hf. unfold pollX_steps.
  destruct (negb (truthy (env_value (X_BEARER_TOKEN w)))); simpl.
  - intros [H|[]]; subst. apply cs_log.
  - intros [H|[H|[]]]; subst.
    + apply sound_bind; [apply cs_trans|apply cs_log|].
      intros _. apply cs_let. congruence.
    + apply cs_x_search.
Qed.

(** X10. At the end of a cycle the [inserted] counter of [pollReddit] is the
    number of rows of source ["reddit"] the cycle added, and with a
    credential the counter of [pollX] is the number of rows of source
    ["x"] it added, under every interleaving of the two pollers. *)
Theorem cycle_counters_count_new_rows (sched : list bool) (st : State) :
  inserted in_pollReddit (snd (pollAll w sched st))
    + count_source "reddit" (posts st)
  = count_source "reddit" (posts (snd (pollAll w sched st)))
  /\
  (truthy (env_value (X_BEARER_TOKEN w)) = true ->
   inserted in_pollX (snd (pollAll w sched st))
     + count_source "x" (posts st)
   = count_source "x" (posts (snd (pollAll w sched st)))).
Proof.
  unfold pollAll. cbn [snd]. rewrite pollAll_after_first_step.
  set (st0 := set_inserted in_pollReddit 0
                (write_console log_reddit_polling st)).
  assert (E0 : inserted in_pollReddit st0 = 0) by reflexivity.
  assert (P0 : posts st0 = posts st) by reflexivity.
  clearbody st0. split.
  - assert (H : counts_source in_pollReddit "reddit" st0
                  (snd (allSettled (false :: sched) (tl (pollReddit_steps w))
                          (pollX_steps w) st0))).
    { apply (sound_allSettled (R := counts_source in_pollReddit "reddit")).
      - apply (cs_refl in_pollReddit).
      - apply (@cs_trans _ in_pollReddit).
      - intros step. apply (@cs_reddit_rest _ _ w in_pollReddit). discriminate.
      - intros step. apply (@cs_x_steps in_pollReddit). discriminate. }
    unfold counts_source in H. rewrite E0, P0 in H. exact H.
  - intros Htok.
    assert (Hx : pollX_steps w
                 = [log log_x_polling ;;; let_inserted in_pollX 0;
                    pollX_search w])
      by (unfold pollX_steps; now rewrite Htok).
    rewrite Hx.
    set (st1 := set_inserted in_pollX 0 (write_console log_x_polling st0)).
    assert (E1 : inserted in_pollX st1 = 0) by reflexivity.
    assert (P1 : posts st1 = posts st) by (rewrite <- P0; reflexivity).
    change (allSettled (false :: sched) (tl (pollReddit_steps w))
              [log log_x_polling ;;; let_inserted in_pollX 0; pollX_search w]
              st0)
      with (allSettled sched (tl (pollReddit_steps w)) [pollX_search w] st1).
    clearbody st1.
    assert (H : counts_source in_pollX "x" st1
                  (snd (allSettled sched (tl (pollReddit_steps w))
                          [pollX_search w] st1))).
    { apply (sound_allSettled (R := counts_source in_pollX "x")).
      - apply (cs_refl in_pollX).
      - apply (@cs_trans _ in_pollX).
      - intros step. apply (@cs_reddit_rest _ _ w in_pollX). discriminate.
      - intros step [<-|[]]. apply (@cs_x_search _ _ w in_pollX). }
    unfold counts_source in H. rewrite E1, P1 in H. exact H.
Qed.

End CycleCountersMain.

(* ================================================================== *)
(** * Session auth *)

Section AuthFacts.
Context {N : JsNumber}.

Lemma string_app_assoc (a b c : string) : (a ++ b) ++ c = a ++ (b ++ c).
Proof. induction a as [|x a IH]; simpl; [reflexivity|now rewrite IH]. Qed.

Lemma split_char_nonempty (sep : ascii) (s : string) : split_char sep s <> [].
Proof.
  destruct s as [|c s]; simpl; [discriminate|].
  destruct (c =? sep)%char; [discriminate|].
  destruct (split_char sep s); discriminate.
Qed.

Lemma split_char_app (sep : ascii) (a b : string) :
  split_char sep (a ++ String sep b)
  = (split_char sep a ++ split_char sep b)%list.
Proof.
  induction a as [|c a IH]; simpl.
  - now rewrite Ascii.eqb_refl.
  - destruct (c =? sep)%char; [now rewrite IH|].
    rewrite IH.
    pose proof (split_char_nonempty sep a) as Hne.
    destruct (split_char sep a); [contradiction|reflexivity].
Qed.

Lemma split_char_free (sep : ascii) (s : string) :
  Forall (fun c => (c =? sep)%char = false) (list_ascii_of_string s) ->
  split_char sep s = [s].
Proof.
  induction s as [|c s IH]; simpl; intros H; [reflexivity|].
  inversion H as [|? ? Hc Hs]; subst. rewrite Hc, IH by assumption.
  reflexivity.
Qed.

Lemma join_split_char (sep : ascii) (s : string) :
  join (String sep "") (split_char sep s) = s.
Proof.
  induction s as [|c s IH]; simpl; [reflexivity|].
  destruct (Ascii.eqb_spec c sep) as [->|Hne].
  - pose proof (split_char_nonempty sep s) as Hnil.
    destruct (split_char sep s) as [|h t] eqn:E; [contradiction|].
    simpl. simpl in IH. now rewrite IH.
  - pose proof (split_char_nonempty sep s) as Hnil.
    destruct (split_char sep s) as [|h t] eqn:E; [contradiction|].
    destruct t as [|h' t]; simpl in *; now rewrite <- IH.
Qed.

Lemma trim_end_no_space (s : string) :
  Forall (fun c => is_space c = false) (list_ascii_of_string s) ->
  trim_end s = s.
Proof.
  induction s as [|c s IH]; simpl; intros H; [reflexivity|].
  inversion H as [|? ? Hc Hs]; subst. rewrite IH by assumption.
  destruct s; [now rewrite Hc|reflexivity].
Qed.

Lemma trim_no_space (s : string) :
  Forall (fun c => is_space c = false) (list_ascii_of_string s) ->
  trim s = s.
Proof.
  intros H. unfold trim.
  assert (E : trim_start s = s).
  { destruct s as [|c s]; [reflexivity|]. simpl.
    inversion H as [|? ? Hc _]; subst. now rewrite Hc. }
  rewrite E. now apply trim_end_no_space.
Qed.

Lemma cookie_safe_parts (s : string) :
  cookie_safe s ->
  Forall (fun c => (c =? ";")%char = false) (list_ascii_of_string s) /\
  Forall (fun c => (c =? "=")%char = false) (list_ascii_of_string s) /\
  Forall (fun c => is_space c = false) (list_ascii_of_string s).
Proof.
  unfold cookie_safe. intros H.
  repeat split; eapply Forall_impl; try exact H; simpl; tauto.
Qed.

(** The cookie named [session] that comes last in the header decides:
    whatever the cookies in front of it, the token read is the value of
    that last pair. *)
Lemma session_token_last (front token : string) (p : string) :
  cookie_safe token ->
  session_token {| path := p;
                   cookie := Some (front ++ "; session=" ++ token);
                   req_body := JUndefined |}
  = JStr token /\
  session_token {| path := p; cookie := Some ("session=" ++ token);
                   req_body := JUndefined |}
  = JStr token.
Proof.
  intros Hsafe. destruct (cookie_safe_parts Hsafe) as [Hsemi [Heq Hsp]].
  assert (Hpair : forall lead cookies,
             trim (lead ++ "session") = "session" ->
             Forall (fun c => (c =? "=")%char = false)
                    (list_ascii_of_string (lead ++ "session")) ->
             lookup "session"
               (set_cookie_pair cookies (lead ++ "session=" ++ token))
             = JStr token).
  { intros lead cookies Htrim Hlead. unfold set_cookie_pair.
    replace (lead ++ "session=" ++ token)
      with ((lead ++ "session") ++ String "="%char token)
      by (rewrite string_app_assoc; reflexivity).
    rewrite split_char_app.
    rewrite (split_char_free "=" (lead ++ "session")) by assumption.
    rewrite (split_char_free "=" token) by assumption.
    simpl app. cbv iota. rewrite Htrim. simpl String.eqb. cbv iota.
    rewrite lookup_obj_set. simpl join.
    now rewrite (trim_no_space _ Hsp). }
  unfold session_token, parseCookies. cbn [cookie]. split.
  - assert (Hne : truthy (env_value (Some (front ++ "; session=" ++ token)))
                  = true).
    { simpl. destruct front; reflexivity. }
    rewrite Hne. simpl negb. cbv iota.
    replace (front ++ "; session=" ++ token)
      with (front ++ String ";"%char (" session=" ++ token)) by reflexivity.
    rewrite split_char_app, fold_left_app.
    rewrite (split_char_free ";" (" session=" ++ token)).
    + simpl fold_left. apply (Hpair " "); [reflexivity|].
      repeat constructor.
    + simpl. repeat constructor; assumption.
  - simpl negb. cbv iota.
    rewrite (split_char_free ";" ("session=" ++ token)).
    + simpl fold_left. apply (Hpair ""); [reflexivity|].
      repeat constructor.
    + simpl. repeat constructor; assumption.
Qed.

Lemma hex_digit_safe (n : nat) :
  n < 16 ->
  (hex_digit n =? ";")%char = false /\ (hex_digit n =? "=")%char = false
  /\ is_space (hex_digit n) = false.
Proof.
  intros H.
  do 16 (destruct n as [|n]; [repeat split; reflexivity|]). lia.
Qed.

Lemma toString_hex_safe (bytes : list ascii) : cookie_safe (toString_hex bytes).
Proof.
  unfold cookie_safe. induction bytes as [|b rest IH].
  - constructor.
  - cbn [toString_hex list_ascii_of_string].
    constructor; [|constructor; [|exact IH]]; apply hex_digit_safe.
    + apply Nat.Div0.div_lt_upper_bound.
      pose proof (nat_ascii_bounded b). lia.
    + apply Nat.mod_upper_bound. lia.
Qed.

Lemma toString_hex_length (bytes : list ascii) :
  String.length (toString_hex bytes) = 2 * length bytes.
Proof.
  induction bytes as [|b rest IH]; [reflexivity|].
  cbn [toString_hex String.length length]. lia.
Qed.

Lemma sessions_has_add (t : string) (sessions : Sessions) :
  sessions_has t (sessions_add t sessions) = true.
Proof.
  unfold sessions_add. destruct (sessions_has t sessions) eqn:E; [exact E|].
  unfold sessions_has. rewrite existsb_app. simpl.
  now rewrite String.eqb_refl, orb_true_r.
Qed.

(** X11. Logging in and coming back.  With the right password [POST /login]
    answers a redirect to [/] that sets the session cookie, and from then
    on [requireAuth] lets through every request whose [Cookie] header
    ends in that cookie, on any path. *)
Theorem login_then_authorized (env_AUTH_PASSWORD : option string)
        (random : list ascii) (sessions : Sessions) (req : Request)
        (front p : string) :
  random <> [] ->
  prop (req_body req) "password" = JStr (AUTH_PASSWORD env_AUTH_PASSWORD) ->
  exists sessions',
    login env_AUTH_PASSWORD random sessions req
    = Normal (sessions',
              redirect "/"
                (Some ("session=" ++ toString_hex random
                       ++ "; HttpOnly; Path=/; SameSite=Lax; Max-Age=604800")))
    /\
    requireAuth sessions'
      {| path := p; cookie := Some ("session=" ++ toString_hex random);
         req_body := JUndefined |} = next
    /\
    requireAuth sessions'
      {| path := p;
         cookie := Some (front ++ "; session=" ++ toString_hex random);
         req_body := JUndefined |} = next.
Proof.
  intros Hrandom Hpw.
  exists (sessions_add (toString_hex random) sessions).
  assert (Hbody : nullish (req_body req) = false).
  { destruct (req_body req); try reflexivity; discriminate. }
  split; [|split].
  - unfold login, member. rewrite Hbody. simpl cbind. rewrite Hpw.
    simpl strict_eq_str. now rewrite String.eqb_refl.
  - unfold requireAuth.
    rewrite (proj2 (session_token_last front p (toString_hex_safe random))).
    unfold token_known. rewrite sessions_has_add.
    destruct random as [|b rest]; [contradiction|]. reflexivity.
  - unfold requireAuth.
    rewrite (proj1 (session_token_last front p (toString_hex_safe random))).
    unfold token_known. rewrite sessions_has_add.
    destruct random as [|b rest]; [contradiction|]. reflexivity.
Qed.

Lemma sessions_add_In (t s : string) (sessions : Sessions) :
  In s (sessions_add t sessions) <-> In s sessions \/ (s = t).
Proof.
  unfold sessions_add. destruct (sessions_has t sessions) eqn:E.
  - split; [auto|]. intros [H|H]; [exact H|]. subst s.
    unfold sessions_has in E. apply existsb_exists in E.
    destruct E as [x [Hx Ex]]. apply String.eqb_eq in Ex. now subst.
  - rewrite in_app_iff. simpl. intuition.
Qed.

(** X12. No session without the password.  [POST /login] adds at most one
    token, and only when [req.body.password] is the string
    [AUTH_PASSWORD]; any other body, a missing or non-string password
    included, leaves the sessions as they are and is sent back to the
    form with [error=1] and no cookie. *)
Theorem login_needs_password (env_AUTH_PASSWORD : option string)
        (random : list ascii) (sessions sessions' : Sessions)
        (req : Request) (reply : Reply) :
  login env_AUTH_PASSWORD random sessions req = Normal (sessions', reply) ->
  (prop (req_body req) "password" = JStr (AUTH_PASSWORD env_AUTH_PASSWORD) /\
   forall s, In s sessions' <-> In s sessions \/ s = toString_hex random)
  \/
  (prop (req_body req) "password" <> JStr (AUTH_PASSWORD env_AUTH_PASSWORD) /\
   sessions' = sessions /\ reply = redirect "/login?error=1" None).
Proof.
  unfold login, member.
  destruct (nullish (req_body req)); simpl; [discriminate|].
  destruct (prop (req_body req) "password") as [| |b|n|s|l|o] eqn:E;
    simpl; try (intros H; injection H as <- <-; right;
                repeat split; discriminate).
  destruct (String.eqb_spec s (AUTH_PASSWORD env_AUTH_PASSWORD)) as [->|Hne];
    simpl; intros H; injection H as <- <-.
  - left. split; [reflexivity|]. intros x. apply sessions_add_In.
  - right. repeat split. congruence.
Qed.

Lemma sessions_has_delete (t : string) (sessions : Sessions) :
  sessions_has t (sessions_delete t sessions) = false.
Proof.
  unfold sessions_has, sessions_delete.
  induction sessions as [|s rest IH]; simpl; [reflexivity|].
  destruct (String.eqb_spec s t) as [->|Hne]; simpl; [exact IH|].
  rewrite IH, orb_false_r.
  destruct (String.eqb_spec t s); [congruence|reflexivity].
Qed.

(** X13. After [GET /logout] the cookie that was presented is refused:
    [requireAuth] answers 401 on an API path and a redirect to [/login]
    elsewhere, for any later request carrying the same [Cookie] header. *)
Theorem logout_revokes (sessions : Sessions) (req later : Request) :
  cookie later = cookie req ->
  requireAuth (fst (logout sessions req)) later
  = if prefix "/api/" (path later)
    then answer (json_status 401 (JObj [("error", JStr "unauthorized")]))
    else answer (redirect "/login" None).
Proof.
  intros Hc. unfold requireAuth, logout, session_token. rewrite Hc. simpl fst.
  assert (E : token_known (lookup "session" (parseCookies (cookie req)))
                match lookup "session" (parseCookies (cookie req)) with
                | JStr t =>
                    if truthy (lookup "session" (parseCookies (cookie req)))
                    then sessions_delete t sessions else sessions
                | _ => sessions
                end = false).
  { unfold token_known.
    destruct (lookup "session" (parseCookies (cookie req))) as [| |b|n|s|l|o];
      simpl; try reflexivity; try apply andb_false_r.
    destruct (s =? "") eqn:Es; simpl; [reflexivity|].
    apply sessions_has_delete. }
  now rewrite E.
Qed.

(** X14. Without a usable cookie nothing gets through: no [Cookie] header, an
    empty one, or an empty session set, and [requireAuth] answers 401 on
    an API path and a redirect to [/login] elsewhere. *)
Theorem requireAuth_refuses (sessions : Sessions) (req : Request) :
  sessions = [] \/ cookie req = None \/ cookie req = Some "" ->
  requireAuth sessions req
  = if prefix "/api/" (path req)
    then answer (json_status 401 (JObj [("error", JStr "unauthorized")]))
    else answer (redirect "/login" None).
Proof.
  intros H. unfold requireAuth.
  assert (E : token_known (session_token req) sessions = false).
  { unfold token_known, session_token.
    destruct H as [->|[H|H]].
    - destruct (lookup "session" (parseCookies (cookie req)));
        simpl; try reflexivity; apply andb_false_r.
    - rewrite H. reflexivity.
    - rewrite H. reflexivity. }
  now rewrite E.
Qed.

End AuthFacts.

(* ================================================================== *)
(** * Configuration and storage ids *)

Section ConfigFacts.
Context {N : JsNumber} {B : JsBuiltins}.
Variable w : World.

Lemma split_comma_split_char (s : string) :
  split_comma s = split_char "," s.
Proof. induction s as [|c s IH]; simpl; [reflexivity|now rewrite IH]. Qed.

Lemma split_char_parts_free (sep : ascii) (s : string) :
  Forall (fun part =>
            Forall (fun c => (c =? sep)%char = false) (list_ascii_of_string part))
         (split_char sep s).
Proof.
  induction s as [|c s IH]; simpl.
  - repeat constructor.
  - destruct (c =? sep)%char eqn:E.
    + constructor; [constructor|exact IH].
    + destruct (split_char sep s) as [|h t].
      * repeat constructor. exact E.
      * inversion IH as [|? ? Hh Ht]; subst.
        constructor; [|exact Ht]. simpl. constructor; assumption.
Qed.

Lemma split_char_join (sep : ascii) (l : list string) :
  l <> [] ->
  Forall (fun part =>
            Forall (fun c => (c =? sep)%char = false) (list_ascii_of_string part))
         l ->
  split_char sep (join (String sep "") l) = l.
Proof.
  induction l as [|x l IH]; [contradiction|].
  intros _ H. inversion H as [|? ? Hx Hl]; subst.
  destruct l as [|y l].
  - simpl. now apply split_char_free.
  - change (join (String sep "") (x :: y :: l))
      with (x ++ String sep "" ++ join (String sep "") (y :: l)).
    change (String sep "" ++ join (String sep "") (y :: l))
      with (String sep (join (String sep "") (y :: l))).
    rewrite split_char_app, split_char_free by assumption.
    rewrite IH by (try discriminate; assumption). reflexivity.
Qed.

Lemma filter_remove (x : string) (l : list string) :
  filter (fun s => negb (s =? x)) l = remove string_dec x l.
Proof.
  induction l as [|y l IH]; simpl; [reflexivity|].
  destruct (string_dec x y) as [E|E].
  - subst y. rewrite String.eqb_refl. simpl. exact IH.
  - destruct (String.eqb_spec y x) as [E'|E']; [now subst|].
    simpl. now rewrite IH.
Qed.

(** X15. The subreddit setting is split on commas and on nothing else: joining
    the list with commas gives back the setting, or the default when the
    variable is unset or empty; no name of the list holds a comma, and the
    list is the only non-empty list of names without commas that joins to
    the setting.  The list is never empty.  The subreddits searched are
    that list, in its order and with its repeats, without every occurrence
    of the primary subreddit, which is therefore never searched. *)
Theorem subreddit_setting_round_trip :
  join "," (REDDIT_SUBREDDITS w)
  = match env_REDDIT_SUBREDDITS w with
    | Some s => if s =? "" then "puertovallarta,mexico,travel" else s
    | None => "puertovallarta,mexico,travel"
    end /\
  REDDIT_SUBREDDITS w <> [] /\
  ~ In REDDIT_PRIMARY_SUB (searchSubs w) /\
  (forall s, In s (searchSubs w) <->
             In s (REDDIT_SUBREDDITS w) /\ s <> REDDIT_PRIMARY_SUB) /\
  (forall name c, In name (REDDIT_SUBREDDITS w) ->
                  In c (list_ascii_of_string name) -> c <> ","%char) /\
  (forall names,
      names <> [] ->
      (forall name c, In name names ->
                      In c (list_ascii_of_string name) -> c <> ","%char) ->
      join "," names = join "," (REDDIT_SUBREDDITS w) ->
      names = REDDIT_SUBREDDITS w) /\
  searchSubs w = remove string_dec REDDIT_PRIMARY_SUB (REDDIT_SUBREDDITS w).
Proof.
  assert (E : exists s,
             REDDIT_SUBREDDITS w = split_char "," s /\
             s = match env_REDDIT_SUBREDDITS w with
                 | Some s => if s =? "" then "puertovallarta,mexico,travel"
                             else s
                 | None => "puertovallarta,mexico,travel"
                 end).
  { unfold REDDIT_SUBREDDITS, js_or.
    destruct (env_REDDIT_SUBREDDITS w) as [s|]; simpl.
    - destruct (s =? "") eqn:Es; simpl.
      + exists "puertovallarta,mexico,travel". split; reflexivity.
      + exists s. split; [apply split_comma_split_char|reflexivity].
    - exists "puertovallarta,mexico,travel". split; reflexivity. }
  destruct E as [s [Hs Es]].
  assert (Hsub : forall x, In x (searchSubs w) <->
                           In x (REDDIT_SUBREDDITS w) /\ x <> REDDIT_PRIMARY_SUB).
  { intros x. unfold searchSubs. rewrite filter_In. split; intros [H1 H2].
    - split; [exact H1|]. intros ->. now rewrite String.eqb_refl in H2.
    - split; [exact H1|].
      destruct (String.eqb_spec x REDDIT_PRIMARY_SUB); [contradiction|reflexivity]. }
  assert (Hfree : forall (l : list string),
             (forall name c, In name l ->
                             In c (list_ascii_of_string name) -> c <> ","%char) <->
             Forall (fun part =>
                       Forall (fun c => (c =? ",")%char = false)
                              (list_ascii_of_string part)) l).
  { intros l. rewrite Forall_forall. split.
    - intros H name Hn. apply Forall_forall. intros c Hc.
      apply Ascii.eqb_neq. eauto.
    - intros H name c Hn Hc. apply Ascii.eqb_neq.
      specialize (H name Hn). rewrite Forall_forall in H. auto. }
  split; [|split; [|split; [|split; [|split; [|split]]]]].
  - rewrite Hs, <- Es. apply (join_split_char ","%char).
  - rewrite Hs. apply split_char_nonempty.
  - intros H. apply Hsub in H. destruct H as [_ H]. now apply H.
  - exact Hsub.
  - apply Hfree. rewrite Hs. apply split_char_parts_free.
  - intros names Hne Hnames Hjoin.
    rewrite Hs in Hjoin. rewrite (join_split_char ","%char) in Hjoin.
    rewrite Hs, <- Hjoin. symmetry.
    apply (split_char_join ","%char); [exact Hne|].
    now apply Hfree.
  - unfold searchSubs. apply filter_remove.
Qed.

Lemma append_inj_l (a b c : string) : a ++ b = a ++ c -> b = c.
Proof.
  induction a as [|x a IH]; simpl; [auto|].
  intros H. injection H as H. auto.
Qed.

(** X16. How far the id prefixes separate the sources.  The id of a tweet is
    never the id of a post or of a comment.  The id of a post is the id of
    a comment exactly when the native id of the post is ["comment_"]
    followed by the native id of the comment; two posts, or two comments,
    share an id exactly when their native ids print the same. *)
Theorem id_prefixes_separate_sources
        (post post' comment comment' tweet : JSValue)
        (p p' q q' t : PostParams) :
  redditPost post = Normal p -> redditPost post' = Normal p' ->
  commentItem comment = Normal (Some q) ->
  commentItem comment' = Normal (Some q') ->
  xPost tweet = Normal t ->
  at_id t <> at_id p /\ at_id t <> at_id q /\
  (at_id p = at_id q <->
   ToString (prop (prop post "data") "id")
   = "comment_" ++ ToString (prop (prop comment "data") "id")) /\
  (at_id p = at_id p' <->
   ToString (prop (prop post "data") "id")
   = ToString (prop (prop post' "data") "id")) /\
  (at_id q = at_id q' <->
   ToString (prop (prop comment "data") "id")
   = ToString (prop (prop comment' "data") "id")).
Proof.
  intros Hp Hp' Hq Hq' Ht.
  destruct (redditPost_Normal _ Hp) as [-> _].
  destruct (redditPost_Normal _ Hp') as [-> _].
  destruct (commentItem_Some _ Hq) as [-> _].
  destruct (commentItem_Some _ Hq') as [-> _].
  destruct (xPost_Normal _ Ht) as [-> _].
  repeat split; try discriminate.
  - intros H. apply (append_inj_l "reddit_"). exact H.
  - intros ->. reflexivity.
  - intros H. apply (append_inj_l "reddit_"). exact H.
  - intros ->. reflexivity.
  - intros H. apply (append_inj_l "reddit_comment_"). exact H.
  - intros ->. reflexivity.
Qed.

End ConfigFacts.

(* ================================================================== *)
(** * The feed routes *)

Section FeedFacts.
Context {N : JsNumber} {B : JsBuiltins} {D : SqliteRead}.

Lemma formatPost_row (r : Row) :
  match formatPost (row_object r) with
  | Normal post => metrics_readable r = true /\ served_as r post
  | Throw e => e = SyntaxError /\ metrics_readable r = false
  end.
Proof.
  unfold formatPost, metrics_readable.
  change (lookup "metrics" (row_object r)) with (read_text (metrics r)).
  unfold served_as.
  destruct (truthy (read_text (metrics r))).
  - destruct (JSON_parse (ToString (read_text (metrics r)))).
    + split; [reflexivity|]. repeat split; reflexivity.
    + split; reflexivity.
  - split; [reflexivity|]. repeat split; reflexivity.
Qed.

Lemma feed_serves (rows : list Row) : serves rows (feed rows).
Proof.
  unfold feed.
  assert (H : match map_formatPost (map row_object rows) with
              | Normal posts =>
                  forallb metrics_readable rows = true /\
                  Forall2 served_as rows posts
              | Throw e => e = SyntaxError /\
                           forallb metrics_readable rows = false
              end).
  { induction rows as [|r rows IH]; simpl.
    - split; [reflexivity|constructor].
    - pose proof (formatPost_row r) as Hr.
      destruct (formatPost (row_object r)) as [post|e]; simpl.
      + destruct Hr as [Hr Hs]. rewrite Hr. simpl.
        destruct (map_formatPost (map row_object rows)) as [posts|e]; simpl.
        * destruct IH as [IH1 IH2]. split; [exact IH1|].
          constructor; assumption.
        * exact IH.
      + destruct Hr as [-> Hr]. rewrite Hr. split; reflexivity. }
  destruct (map_formatPost (map row_object rows)) as [posts|e]; simpl.
  - destruct H as [H1 H2]. split; [exact H1|].
    exists posts. split; [|exact H2].
    now rewrite (Forall2_length H2).
  - exact H.
Qed.

(** X17. Each feed route answers all or nothing: either one object per row of
    its query, in the order of the query, with [count] the number of rows
    and [metrics] parsed (or null where the column is empty), or a
    SyntaxError as soon as [metrics] of one selected row does not parse;
    it never serves a part of the rows. *)
Theorem feed_routes_all_or_nothing (t : Table) :
  serves (selectAll t) (api_all t) /\
  serves (selectBySource "reddit" t) (api_reddit t) /\
  serves (selectBySource "x" t) (api_x t).
Proof. repeat split; apply feed_serves. Qed.

Lemma selectBySource_In (src : string) (r : Row) (t : Table) :
  In r (selectBySource src t) -> In r t /\ source r = src.
Proof.
  unfold selectBySource. intros H. apply firstn_In in H.
  apply order_by_In in H. apply filter_In in H.
  destruct H as [H1 H2]. split; [exact H1|]. now apply String.eqb_eq.
Qed.

Lemma Forall2_served_r (rows : list Row) (posts : list JSValue) (post : JSValue) :
  Forall2 served_as rows posts -> In post posts ->
  exists row, In row rows /\ served_as row post.
Proof.
  induction 1 as [|row p rows posts Hs _ IH]; simpl; [contradiction|].
  intros [<-|Hin].
  - exists row. auto.
  - destruct (IH Hin) as [row' [H1 H2]]. exists row'. auto.
Qed.

Lemma Forall2_served_l (rows : list Row) (posts : list JSValue) (row : Row) :
  Forall2 served_as rows posts -> In row rows ->
  exists post, In post posts /\ served_as row post.
Proof.
  induction 1 as [|r p rows posts Hs _ IH]; simpl; [contradiction|].
  intros [<-|Hin].
  - exists p. auto.
  - destruct (IH Hin) as [post [H1 H2]]. exists post. auto.
Qed.

Lemma source_feed_posts (src : string) (t : Table) (v : JSValue) :
  feed (selectBySource src t) = Normal v ->
  exists posts,
    prop v "posts" = JArr posts /\
    forall post, In post posts -> prop post "source" = JStr src.
Proof.
  intros Hv. pose proof (feed_serves (selectBySource src t)) as H.
  rewrite Hv in H. destruct H as [_ [posts [-> Hposts]]].
  exists posts. split; [reflexivity|].
  intros post Hin.
  destruct (@Forall2_served_r _ _ _ Hposts Hin) as [row [Hrow [_ [Hs _]]]].
  apply selectBySource_In in Hrow. destruct Hrow as [_ <-]. exact Hs.
Qed.

(** X18. A stored comment is selected by neither [/api/reddit] nor [/api/x]:
    their queries compare [source] with ["reddit"] and ["x"], so every
    object these routes serve has that source and none is the comment.
    With no more than 400 rows in the table the query of [/api/all]
    selects the comment, and [/api/all] serves it whenever it answers;
    when it does not answer, it threw a SyntaxError because [metrics] of
    one selected row does not parse. *)
Theorem comments_only_in_api_all (t : Table) (r : Row) :
  In r t -> source r = "reddit_comment" ->
  ~ In r (selectBySource "reddit" t) /\
  ~ In r (selectBySource "x" t) /\
  (length t <= 400 -> In r (selectAll t)) /\
  (forall v, api_reddit t = Normal v ->
             exists posts,
               prop v "posts" = JArr posts /\
               forall post, In post posts ->
                            prop post "source" = JStr "reddit" /\
                            ~ served_as r post) /\
  (forall v, api_x t = Normal v ->
             exists posts,
               prop v "posts" = JArr posts /\
               forall post, In post posts ->
                            prop post "source" = JStr "x" /\
                            ~ served_as r post) /\
  (length t <= 400 ->
   match api_all t with
   | Normal v =>
       exists posts post,
         prop v "posts" = JArr posts /\ In post posts /\ served_as r post
   | Throw e =>
       e = SyntaxError /\ forallb metrics_readable (selectAll t) = false
   end).
Proof.
  intros Hin Hs.
  assert (Hall : length t <= 400 -> In r (selectAll t)).
  { intros Hlen. unfold selectAll.
    rewrite firstn_all2 by (rewrite order_by_length; exact Hlen).
    apply (Permutation_in _ (order_by_Permutation t)). exact Hin. }
  assert (Hroute : forall src v,
             src <> "reddit_comment" ->
             feed (selectBySource src t) = Normal v ->
             exists posts,
               prop v "posts" = JArr posts /\
               forall post, In post posts ->
                            prop post "source" = JStr src /\
                            ~ served_as r post).
  { intros src v Hsrc Hv.
    destruct (source_feed_posts _ _ Hv) as [posts [Hp Hposts]].
    exists posts. split; [exact Hp|].
    intros post Hpost. split; [now apply Hposts|].
    intros [_ [Hsrc' _]]. rewrite (Hposts post Hpost), Hs in Hsrc'.
    injection Hsrc' as Hsrc'. contradiction. }
  split; [|split; [|split; [|split; [|split]]]].
  - intros H. apply selectBySource_In in H. destruct H as [_ H].
    rewrite Hs in H. discriminate.
  - intros H. apply selectBySource_In in H. destruct H as [_ H].
    rewrite Hs in H. discriminate.
  - exact Hall.
  - intros v. apply Hroute. discriminate.
  - intros v. apply Hroute. discriminate.
  - intros Hlen. unfold api_all.
    pose proof (feed_serves (selectAll t)) as H.
    destruct (feed (selectAll t)) as [v|e]; [|exact H].
    destruct H as [_ [posts [-> Hposts]]].
    destruct (@Forall2_served_l _ _ _ Hposts (Hall Hlen)) as [post [H1 H2]].
    exists posts, post. split; [reflexivity|]. split; assumption.
Qed.

End FeedFacts.

Section FeedCycle.
Context {N : JsNumber} {B : JsBuiltins}.
Variable w : World.

Lemma bindRow_metrics (p : PostParams) (now : string) (r : Row) :
  bindRow p now = Normal r -> bindValue (at_metrics p) = Normal (metrics r).
Proof.
  unfold bindRow.
  destruct (bindValue (at_title p)); simpl; [|discriminate].
  destruct (bindValue (at_body p)); simpl; [|discriminate].
  destruct (bindValue (at_url p)); simpl; [|discriminate].
  destruct (bindValue (at_author p)); simpl; [|discriminate].
  destruct (bindValue (at_score p)); simpl; [|discriminate].
  destruct (bindValue (at_subreddit p)); simpl; [|discriminate].
  destruct (bindValue (at_permalink p)); simpl; [|discriminate].
  destruct (bindValue (at_metrics p)); simpl; [|discriminate].
  intros H. injection H as <-. reflexivity.
Qed.

Lemma redditPost_metrics (child : JSValue) (p : PostParams) :
  redditPost child = Normal p -> at_metrics p = JNull.
Proof.
  unfold redditPost, member, template, date_string.
  destruct (nullish child); simpl; [discriminate|].
  destruct (nullish (prop child "data")); simpl; [discriminate|].
  destruct (printable (prop (prop child "data") "id")); simpl; [|discriminate].
  destruct (printable (prop (prop child "data") "permalink")); simpl;
    [|discriminate].
  destruct (printable (prop (prop child "data") "created_utc")); simpl;
    [|discriminate].
  destruct (epoch_toISOString (prop (prop child "data") "created_utc"));
    simpl; [|discriminate].
  intros H. injection H as <-. reflexivity.
Qed.

Lemma commentItem_metrics (child : JSValue) (p : PostParams) :
  commentItem child = Normal (Some p) ->
  exists v, truthy v = true /\ at_metrics p = JStr (JSON_stringify v).
Proof.
  unfold commentItem, member.
  destruct (nullish child); simpl; [discriminate|].
  destruct (negb (strict_eq_str (prop child "kind") "t1")); [discriminate|].
  destruct (nullish (prop child "data")); simpl; [discriminate|].
  destruct (negb (truthy (prop (prop child "data") "body"))
            || strict_eq_str (prop (prop child "data") "body") "[deleted]"
            || strict_eq_str (prop (prop child "data") "body") "[removed]");
    [discriminate|].
  unfold redditComment, member, template, date_string.
  destruct (nullish (prop child "data")); simpl; [discriminate|].
  destruct (printable (prop (prop child "data") "id")); simpl; [|discriminate].
  destruct (printable (prop (prop child "data") "permalink")); simpl;
    [|discriminate].
  destruct (printable (prop (prop child "data") "created_utc")); simpl;
    [|discriminate].
  destruct (epoch_toISOString (prop (prop child "data") "created_utc"));
    simpl; [|discriminate].
  intros H. injection H as <-. simpl. eexists. split; [|reflexivity].
  reflexivity.
Qed.

Lemma xPost_metrics (tweet : JSValue) (p : PostParams) :
  xPost tweet = Normal p ->
  exists v, truthy v = true /\ at_metrics p = JStr (JSON_stringify v).
Proof.
  unfold xPost, member, template, date_string.
  destruct (nullish tweet); simpl; [discriminate|].
  destruct (printable (prop tweet "id")); simpl; [|discriminate].
  destruct (printable (prop tweet "created_at")); simpl; [|discriminate].
  destruct (date_toISOString (prop tweet "created_at")); simpl; [|discriminate].
  intros H. injection H as <-. simpl.
  exists (js_or (prop tweet "public_metrics") (JObj [])).
  split; [|reflexivity].
  unfold js_or. destruct (truthy (prop tweet "public_metrics")) eqn:E;
    [exact E|reflexivity].
Qed.

(** X19. What a cycle leaves in [metrics]: every row it adds holds NULL (a
    post) or the text [JSON.stringify] returned for an object or another
    truthy value (a comment, a tweet); no other value is ever written to
    the column that the feed routes hand to [JSON.parse]. *)
Theorem cycle_writes_stringified_metrics (sched : list bool) (st : State) :
  (forall r, In r (posts st) -> metrics_written r) ->
  forall r, In r (posts (snd (pollAll w sched st))) -> metrics_written r.
Proof.
  unfold pollAll. cbn [snd].
  apply (table_invariant_cycle w (fun t => forall r, In r t -> metrics_written r)).
  - intros child p now r t Hp Hr Ht.
    apply (insert_or_ignore_Forall metrics_written); [|exact Ht].
    apply bindRow_metrics in Hr. rewrite (redditPost_metrics _ Hp) in Hr.
    simpl in Hr. injection Hr as Hr. left. symmetry. exact Hr.
  - intros child p now r t Hp Hr Ht.
    apply (insert_or_ignore_Forall metrics_written); [|exact Ht].
    apply bindRow_metrics in Hr.
    destruct (commentItem_metrics _ Hp) as [v [Hv Hm]].
    rewrite Hm in Hr. simpl in Hr. injection Hr as Hr.
    right. exists v. split; [exact Hv|symmetry; exact Hr].
  - intros tweet p now r t Hp Hr Ht.
    apply (insert_or_ignore_Forall metrics_written); [|exact Ht].
    apply bindRow_metrics in Hr.
    destruct (xPost_metrics _ Hp) as [v [Hv Hm]].
    rewrite Hm in Hr. simpl in Hr. injection Hr as Hr.
    right. exists v. split; [exact Hv|symmetry; exact Hr].
Qed.

End FeedCycle.

(* ================================================================== *)
(** * The dashboard script *)

Lemma floor_bounds (s size : Z) :
  (0 < size)%Z -> (size * (s / size) <= s < size * (s / size + 1))%Z.
Proof.
  intros H.
  pose proof (Z.mul_div_le s size H) as H1.
  pose proof (Z.mul_succ_div_gt s size H) as H2.
  rewrite Z.mul_succ_r in H2.
  rewrite Z.mul_add_distr_l, Z.mul_1_r. lia.
Qed.

(** X20. The age of a date that is not in the future is shown in the largest
    unit (second, minute, hour, day) that it has reached, rounded down to
    a whole number of that unit. *)
Theorem ago_rounds_down (now t : Z) :
  (t <= now)%Z ->
  exists size unit_ n,
    In (size, unit_) ago_units /\
    ago now (Some t) = Z_toString n ++ unit_ /\
    (size * n <= (now - t) / 1000 < size * (n + 1))%Z /\
    (size <= (now - t) / 1000 \/ size = 1)%Z /\
    (forall size' unit', In (size', unit') ago_units ->
                         (size' <= (now - t) / 1000)%Z -> (size' <= size)%Z).
Proof.
  intros Hle. unfold ago. cbv zeta.
  set (s := ((now - t) / 1000)%Z).
  assert (Hs : (0 <= s)%Z) by (apply Z.div_pos; lia).
  destruct (Z.ltb_spec s 60) as [H1|H1];
    [|destruct (Z.ltb_spec s 3600) as [H2|H2];
      [|destruct (Z.ltb_spec s 86400) as [H3|H3]]].
  - exists 1%Z, "s ago", s. split; [simpl; auto|]. split; [reflexivity|].
    split; [lia|]. split; [now right|].
    intros size' unit' Hin Hsz. simpl in Hin.
    destruct Hin as [E|[E|[E|[E|[]]]]]; injection E as <- _; lia.
  - pose proof (@floor_bounds s 60%Z ltac:(lia)) as Hb.
    exists 60%Z, "m ago", (s / 60)%Z. split; [simpl; auto|].
    split; [reflexivity|]. split; [exact Hb|]. split; [now left|].
    intros size' unit' Hin Hsz. simpl in Hin.
    destruct Hin as [E|[E|[E|[E|[]]]]]; injection E as <- _; lia.
  - pose proof (@floor_bounds s 3600%Z ltac:(lia)) as Hb.
    exists 3600%Z, "h ago", (s / 3600)%Z. split; [simpl; auto|].
    split; [reflexivity|]. split; [exact Hb|]. split; [now left|].
    intros size' unit' Hin Hsz. simpl in Hin.
    destruct Hin as [E|[E|[E|[E|[]]]]]; injection E as <- _; lia.
  - pose proof (@floor_bounds s 86400%Z ltac:(lia)) as Hb.
    exists 86400%Z, "d ago", (s / 86400)%Z. split; [simpl; auto 6|].
    split; [reflexivity|]. split; [exact Hb|]. split; [now left|].
    intros size' unit' Hin Hsz. simpl in Hin.
    destruct Hin as [E|[E|[E|[E|[]]]]]; injection E as <- _; lia.
Qed.

(** X21. A date in the future is never converted to minutes, hours or days:
    its age is printed as a negative number of seconds, however far
    ahead it lies. *)
Theorem ago_future_in_seconds (now t : Z) :
  (now < t)%Z ->
  ago now (Some t) = Z_toString ((now - t) / 1000) ++ "s ago" /\
  ((now - t) / 1000 < 0)%Z.
Proof.
  intros Hlt.
  assert (Hs : ((now - t) / 1000 < 0)%Z)
    by (apply Z.div_lt_upper_bound; lia).
  split; [|exact Hs].
  unfold ago. cbv zeta.
  destruct (Z.ltb_spec ((now - t) / 1000) 60) as [_|H]; [reflexivity|lia].
Qed.
(* ================================================================== *)
(** * The properties on the concrete feeds *)

Example iso_of_1700000000 :
  iso_of_epoch_seconds 1700000000 = Some "2023-11-14T22:13:20.000Z".
Proof. vm_compute. reflexivity. Qed.

(** On [busy_day] one search rejects and one answers 429; the primary
    listing and the comments still land, the deleted comment does not. *)
Example busy_day_ids :
  map id (posts (snd (pollAll busy_day [] empty_state)))
  = ["reddit_a1"; "reddit_a2"; "reddit_comment_c1"; "reddit_comment_a1"].
Proof. vm_compute. reflexivity. Qed.

Example busy_day_console :
  console (snd (pollAll busy_day [] empty_state))
  = [log_reddit_polling; warn_x_skipping;
     error_reddit_fetching "mexico" FetchError;
     error_reddit_returned "travel" 429;
     log_reddit_done 2; log_comments_new 2].
Proof. vm_compute. reflexivity. Qed.

Example busy_day_items :
  map at_id (primary_items busy_day) = ["reddit_a1"; "reddit_a2"] /\
  map at_id (search_items busy_day "mexico") = [] /\
  map at_id (search_items busy_day "travel") = [] /\
  map at_id (comment_items busy_day) = ["reddit_comment_c1"; "reddit_comment_a1"].
Proof. vm_compute. auto. Qed.

(** A tweet without [public_metrics] is stored with an empty map; the
    second tweet has no [created_at] and ends the loop. *)
Example tweet_day_rows :
  map (fun r => (id r, metrics r, created_at r))
      (posts (snd (pollAll tweet_day [false; true] empty_state)))
  = [("x_1725", SqlText "{}", "2024-09-07T12:00:00.000Z")]
  /\ filter x_event (console (snd (pollAll tweet_day [false; true] empty_state)))
     = [log_x_polling; error_x RangeError; log_x_done 1].
Proof. vm_compute. auto. Qed.

Lemma upsert_idempotent_witness :
  pk_unique (posts empty_state) /\
  insertPost busy_day post_a1 empty_state
    = (Normal 1, snd (insertPost busy_day post_a1 empty_state)) /\
  count_id (at_id post_a1)
    (posts (snd (insertPost busy_day post_a1 empty_state))) = 1.
Proof.
  assert (Hpk : pk_unique (posts empty_state)) by constructor.
  assert (Hrun : insertPost busy_day post_a1 empty_state
                 = (Normal 1, snd (insertPost busy_day post_a1 empty_state)))
    by reflexivity.
  split; [exact Hpk|]. split; [exact Hrun|].
  exact (proj1 (proj2 (proj2 (proj2
           (upsert_idempotent busy_day post_a1 empty_state Hpk Hrun))))).
Defined.

Lemma first_write_wins_witness :
  has_id (at_id post_a1) (posts stocked_state) = true /\
  posts (snd (insertPost offline post_a1 stocked_state)) = posts stocked_state.
Proof.
  assert (Hin : has_id (at_id post_a1) (posts stocked_state) = true)
    by reflexivity.
  split; [exact Hin|].
  exact (proj1 (first_write_wins offline post_a1 stocked_state Hin)).
Defined.

Lemma cross_source_uniqueness_witness :
  at_id post_a1 = "reddit_a1" /\ at_id comment_a1 = "reddit_comment_a1" /\
  at_id post_a1 <> at_id comment_a1.
Proof.
  assert (Hp : redditPost (post_child "a1" "Sunset" "" 1700000000)
               = Normal post_a1) by reflexivity.
  assert (Hq : commentItem (comment_child "a1" "Same id as a post" 1700000400)
               = Normal (Some comment_a1)) by reflexivity.
  assert (Hsame : prop (prop (post_child "a1" "Sunset" "" 1700000000) "data") "id"
                  = prop (prop (comment_child "a1" "Same id as a post" 1700000400)
                            "data") "id") by reflexivity.
  assert (Bp : bindable post_a1 = true) by reflexivity.
  assert (Bq : bindable comment_a1 = true) by reflexivity.
  destruct (cross_source_uniqueness busy_day _ _ Hp Hq Hsame Bp Bq)
    as [H1 [H2 [H3 _]]].
  split; [exact H1|]. split; [exact H2|exact H3].
Defined.

Lemma credential_gating_witness :
  truthy (env_value (X_BEARER_TOKEN busy_day)) = false /\
  x_rows (posts (snd (pollAll busy_day [true; false] empty_state)))
    = x_rows (posts empty_state).
Proof.
  assert (Htok : truthy (env_value (X_BEARER_TOKEN busy_day)) = false)
    by reflexivity.
  split; [exact Htok|].
  exact (proj1 (proj2 (credential_gating busy_day [true; false] empty_state Htok))).
Defined.

(** C6, as stated, fails: two posts created in the same second are both
    returned by [selectAll], and neither is strictly later than the
    other. *)
Lemma listAll_not_strictly_descending :
  ~ Sorted strictly_later (selectAll same_second_table).
Proof.
  intros H.
  assert (E : selectAll same_second_table
              = firstn 400 (order_by_created_at_desc same_second_table))
    by reflexivity.
  rewrite E in H. clear E.
  remember (firstn 400 (order_by_created_at_desc same_second_table)) as rows
    eqn:Erows.
  vm_compute in Erows. subst rows.
  inversion H as [|? ? _ Hhd]; subst.
  inversion Hhd as [|? ? Hlt]; subst.
  vm_compute in Hlt. discriminate.
Qed.

(** C4, as stated, fails: after a cycle in which every request failed and
    nothing was inserted, the summary still reports two rows under
    ["reddit"]; it is not a count of the cycle's insertions. *)
Lemma refresh_summary_is_not_cycle_report :
  ~ reports_cycle_insertions stocked_state
      (snd (api_refresh offline [] stocked_state)) offline_summary.
Proof.
  intros H.
  assert (Hsrc : In "reddit"
                    (sources (posts (snd (api_refresh offline [] stocked_state)))))
    by (vm_compute; auto).
  specialize (H "reddit" Hsrc).
  vm_compute in H. discriminate.
Qed.

Example offline_summary_value :
  offline_summary
  = JObj [("ok", JBool true); ("reddit", JNum 2%Z); ("reddit_comment", JNum 2%Z)]
  /\ posts (snd (api_refresh offline [] stocked_state)) = posts stocked_state
  /\ existsb is_error (console (snd (pollAll offline [] empty_state))) = true.
Proof. vm_compute. auto. Qed.

(* ================================================================== *)
(** * The further properties on the concrete feeds and requests *)

Example sample_token_value :
  sample_token
  = "3dc80713fe00855a1142c9300563b4de1f90490cfa6526a00357d740811df00b".
Proof. vm_compute. reflexivity. Qed.

Example ago_values :
  ago 1700003700000%Z (Some 1700000000000%Z) = "1h ago" /\
  ago 1700000059999%Z (Some 1700000000000%Z) = "59s ago" /\
  ago 1700000000000%Z (Some 1700086400000%Z) = "-86400s ago".
Proof. vm_compute. auto. Qed.

Lemma busy_day_pk_unique :
  pk_unique (posts (snd (pollAll busy_day [] empty_state))).
Proof.
  exact (pollAll_keeps_pk busy_day [] empty_state (NoDup_nil string)).
Qed.

Lemma reads_complete_below_cap_witness :
  length (posts stocked_state) <= 400 /\
  Permutation (posts stocked_state) (selectAll (posts stocked_state)).
Proof.
  assert (Hlen : length (posts stocked_state) <= 400)
    by (vm_compute; lia).
  split; [exact Hlen|].
  exact (proj1 (reads_complete_below_cap (posts stocked_state) "reddit") Hlen).
Defined.

Lemma inserted_item_is_listed_witness :
  insertPost busy_day comment_a1 empty_state
    = (Normal 1, snd (insertPost busy_day comment_a1 empty_state)) /\
  exists r,
    id r = "reddit_comment_a1" /\
    posts (snd (insertPost busy_day comment_a1 empty_state)) = [r].
Proof.
  assert (Hrun : insertPost busy_day comment_a1 empty_state
                 = (Normal 1, snd (insertPost busy_day comment_a1 empty_state)))
    by reflexivity.
  split; [exact Hrun|].
  destruct (inserted_item_is_listed busy_day comment_a1 empty_state Hrun)
    as [r [Hid [_ [_ [_ [Hposts _]]]]]].
  exists r. split; [exact Hid|exact Hposts].
Defined.

Lemma cycle_keeps_primary_key_witness :
  pk_unique (posts (snd (pollAll busy_day [] empty_state))) /\
  pk_unique (posts (snd (pollAll tweet_day [true; false]
                           (snd (pollAll busy_day [] empty_state))))).
Proof.
  split; [exact busy_day_pk_unique|].
  exact (cycle_keeps_primary_key tweet_day [true; false]
           (snd (pollAll busy_day [] empty_state)) busy_day_pk_unique).
Defined.

Lemma cycle_keeps_sources_witness :
  (forall r, In r (posts (snd (pollAll busy_day [] empty_state))) ->
             well_sourced r) /\
  (forall r, In r (posts (snd (pollAll tweet_day [false; true]
                                 (snd (pollAll busy_day [] empty_state))))) ->
             well_sourced r).
Proof.
  assert (H0 : forall r, In r (posts (snd (pollAll busy_day [] empty_state))) ->
                         well_sourced r)
    by exact (cycle_keeps_sources busy_day [] empty_state
                (fun r (H : In r []) => match H with end)).
  split; [exact H0|].
  exact (cycle_keeps_sources tweet_day [false; true]
           (snd (pollAll busy_day [] empty_state)) H0).
Defined.

Lemma cycle_result_independent_of_schedule_witness :
  pk_unique (posts (snd (pollAll busy_day [] empty_state))) /\
  length (posts (snd (pollAll tweet_day []
                        (snd (pollAll busy_day [] empty_state)))))
  = length (posts (snd (pollAll tweet_day [false; false; true]
                          (snd (pollAll busy_day [] empty_state))))).
Proof.
  split; [exact busy_day_pk_unique|].
  exact (proj2 (cycle_result_independent_of_schedule
                  tweet_day [] [false; false; true]
                  (snd (pollAll busy_day [] empty_state))
                  busy_day_pk_unique)).
Defined.

Lemma cycle_counters_count_new_rows_witness :
  truthy (env_value (X_BEARER_TOKEN tweet_day)) = true /\
  inserted in_pollX (snd (pollAll tweet_day [false; true] stocked_state))
    + count_source "x" (posts stocked_state)
  = count_source "x" (posts (snd (pollAll tweet_day [false; true] stocked_state))).
Proof.
  assert (Htok : truthy (env_value (X_BEARER_TOKEN tweet_day)) = true)
    by reflexivity.
  split; [exact Htok|].
  exact (proj2 (cycle_counters_count_new_rows tweet_day [false; true]
                  stocked_state) Htok).
Defined.

Lemma login_then_authorized_witness :
  sample_random <> [] /\
  prop (req_body login_request) "password" = JStr (AUTH_PASSWORD None) /\
  requireAuth (sessions_add sample_token [])
              (session_request "/api/all") = next.
Proof.
  assert (Hr : sample_random <> []) by discriminate.
  assert (Hp : prop (req_body login_request) "password"
               = JStr (AUTH_PASSWORD None)) by reflexivity.
  split; [exact Hr|]. split; [exact Hp|].
  destruct (login_then_authorized None [] login_request
              "theme=dark" "/api/all" Hr Hp)
    as [sessions' [Hlogin [_ Hlater]]].
  assert (E : sessions' = sessions_add sample_token []).
  { assert (Hrun : login None sample_random [] login_request
                   = Normal (sessions_add sample_token [],
                             redirect "/"
                               (Some ("session=" ++ sample_token
                                      ++ "; HttpOnly; Path=/; SameSite=Lax; Max-Age=604800"))))
      by reflexivity.
    rewrite Hrun in Hlogin. injection Hlogin as Hlogin. symmetry. exact Hlogin. }
  rewrite <- E. exact Hlater.
Defined.

Lemma login_needs_password_witness :
  login None sample_random ["0f"] wrong_login_request
    = Normal (["0f"], redirect "/login?error=1" None) /\
  prop (req_body wrong_login_request) "password" <> JStr (AUTH_PASSWORD None).
Proof.
  assert (Hrun : login None sample_random ["0f"] wrong_login_request
                 = Normal (["0f"], redirect "/login?error=1" None))
    by reflexivity.
  split; [exact Hrun|].
  destruct (login_needs_password None sample_random ["0f"] wrong_login_request
              Hrun) as [[Hp _]|[Hp _]].
  - discriminate Hp.
  - exact Hp.
Defined.

Lemma logout_revokes_witness :
  requireAuth [sample_token] (session_request "/api/all") = next /\
  cookie (session_request "/api/all") = cookie (session_request "/logout") /\
  requireAuth (fst (logout [sample_token] (session_request "/logout")))
              (session_request "/api/all")
  = answer (json_status 401 (JObj [("error", JStr "unauthorized")])).
Proof.
  assert (Hc : cookie (session_request "/api/all")
               = cookie (session_request "/logout")) by reflexivity.
  split; [vm_compute; reflexivity|]. split; [exact Hc|].
  exact (@logout_revokes _ [sample_token] (session_request "/logout")
           (session_request "/api/all") Hc).
Defined.

Lemma requireAuth_refuses_witness :
  requireAuth [sample_token] (anonymous_request "/")
  = answer (redirect "/login" None).
Proof.
  exact (@requireAuth_refuses _ [sample_token] (anonymous_request "/")
           (or_intror (or_introl eq_refl))).
Defined.

Lemma id_prefixes_separate_sources_witness :
  at_id tweet_1725 <> at_id post_a1 /\
  at_id post_a1 <> at_id comment_a1 /\
  at_id comment_c1 <> at_id comment_a1.
Proof.
  assert (Hp : redditPost (post_child "a1" "Sunset" "" 1700000000)
               = Normal post_a1) by reflexivity.
  assert (Hp' : redditPost (post_child "a2" "Tacos" "Where?" 1700000100)
                = Normal post_a2) by reflexivity.
  assert (Hq : commentItem (comment_child "a1" "Same id as a post" 1700000400)
               = Normal (Some comment_a1)) by reflexivity.
  assert (Hq' : commentItem (comment_child "c1" "Pipis" 1700000200)
                = Normal (Some comment_c1)) by reflexivity.
  assert (Ht : xPost tweet_1725_json = Normal tweet_1725) by reflexivity.
  destruct (@id_prefixes_separate_sources _ _ _ _ _ _ _ _ _ _ _ _
              Hp Hp' Hq Hq' Ht)
    as [H1 [_ [H2 [_ H3]]]].
  split; [exact H1|]. split.
  - intros E. apply H2 in E. discriminate E.
  - intros E. symmetry in E. apply H3 in E. discriminate E.
Defined.

Lemma comments_only_in_api_all_witness :
  In stocked_comment (posts stocked_state) /\
  source stocked_comment = "reddit_comment" /\
  ~ In stocked_comment (selectBySource "reddit" (posts stocked_state)) /\
  In stocked_comment (selectAll (posts stocked_state)) /\
  match api_all (posts stocked_state) with
  | Normal v =>
      exists posts post,
        prop v "posts" = JArr posts /\ In post posts /\
        served_as stocked_comment post
  | Throw e =>
      e = SyntaxError /\
      forallb metrics_readable (selectAll (posts stocked_state)) = false
  end.
Proof.
  assert (Hin : In stocked_comment (posts stocked_state))
    by (vm_compute; auto 6).
  assert (Hs : source stocked_comment = "reddit_comment")
    by (vm_compute; reflexivity).
  assert (Hlen : length (posts stocked_state) <= 400)
    by (vm_compute; lia).
  split; [exact Hin|]. split; [exact Hs|].
  destruct (comments_only_in_api_all (D := IntRead) (posts stocked_state)
              stocked_comment Hin Hs) as [H1 [_ [H2 [_ [_ H3]]]]].
  split; [exact H1|]. split; [exact (H2 Hlen)|exact (H3 Hlen)].
Defined.

Lemma cycle_writes_stringified_metrics_witness :
  (forall r, In r (posts (snd (pollAll busy_day [] empty_state))) ->
             metrics_written r) /\
  (forall r, In r (posts (snd (pollAll tweet_day [false; true]
                                 (snd (pollAll busy_day [] empty_state))))) ->
             metrics_written r).
Proof.
  assert (H0 : forall r, In r (posts (snd (pollAll busy_day [] empty_state))) ->
                         metrics_written r)
    by exact (cycle_writes_stringified_metrics busy_day [] empty_state
                (fun r (H : In r []) => match H with end)).
  split; [exact H0|].
  exact (cycle_writes_stringified_metrics tweet_day [false; true]
           (snd (pollAll busy_day [] empty_state)) H0).
Defined.

Lemma ago_rounds_down_witness :
  (1700000000000 <= 1700003700000)%Z /\
  exists size unit_ n,
    In (size, unit_) ago_units /\
    ago 1700003700000%Z (Some 1700000000000%Z) = Z_toString n ++ unit_ /\
    (size * n <= 3700 < size * (n + 1))%Z.
Proof.
  assert (Hle : (1700000000000 <= 1700003700000)%Z) by lia.
  split; [exact Hle|].
  destruct (ago_rounds_down Hle) as [size [unit_ [n [Hin [Hago [Hb _]]]]]].
  exists size, unit_, n. split; [exact Hin|]. split; [exact Hago|exact Hb].
Defined.

Lemma ago_future_in_seconds_witness :
  (1700000000000 < 1700086400000)%Z /\
  ago 1700000000000%Z (Some 1700086400000%Z)
  = Z_toString ((1700000000000 - 1700086400000) / 1000) ++ "s ago".
Proof.
  assert (Hlt : (1700000000000 < 1700086400000)%Z) by lia.
  split; [exact Hlt|].
  exact (proj1 (ago_future_in_seconds Hlt)).
Defined.

(** The sample reader reads back what the sample engine writes. *)
Example int_parse_stringify :
  int_parse (int_stringify
               (JObj [("link_id", JStr "t3_x");
                      ("n", JArr [JNum 3%Z; JNum (-12)%Z; JNull; JBool true]);
                      ("quote", JStr (dquote ++ "a" ++ backslash));
                      ("empty", JObj [])]))
  = Some (JObj [("link_id", JStr "t3_x");
                ("n", JArr [JNum 3%Z; JNum (-12)%Z; JNull; JBool true]);
                ("quote", JStr (dquote ++ "a" ++ backslash));
                ("empty", JObj [])])
  /\ int_parse "{likes" = None.
Proof. vm_compute. auto. Qed.

(** [/api/all] on the store of [busy_day]: the four rows, newest first,
    the comments with their parsed [metrics]; [/api/reddit] serves the two
    posts only. *)
Example busy_day_feeds :
  match api_all (posts stocked_state) with
  | Normal v =>
      (prop v "count",
       map (fun p => (prop p "id", prop p "metrics"))
           (array_items (prop v "posts")))
      = (JNum 4%Z,
         [(JStr "reddit_comment_a1",
           JObj [("link_id", JStr "t3_x"); ("link_title", JStr "Playa")]);
          (JStr "reddit_comment_c1",
           JObj [("link_id", JStr "t3_x"); ("link_title", JStr "Playa")]);
          (JStr "reddit_a2", JNull);
          (JStr "reddit_a1", JNull)])
  | Throw _ => False
  end /\
  match api_reddit (posts stocked_state) with
  | Normal v =>
      (prop v "count", map (fun p => prop p "id") (array_items (prop v "posts")))
      = (JNum 2%Z, [JStr "reddit_a2"; JStr "reddit_a1"])
  | Throw _ => False
  end.
Proof. vm_compute. auto. Qed.

(** One row with unreadable [metrics] takes down [/api/all] and the feed
    of its source, and leaves the other feed alone. *)
Example spoiled_feeds :
  api_all spoiled_table = Throw SyntaxError /\
  api_x spoiled_table = Throw SyntaxError /\
  api_reddit spoiled_table = api_reddit (posts stocked_state).
Proof. vm_compute. auto. Qed.

(** The post [a1] of [busy_day] has an empty self-text: after the cycle
    its row is there with a NULL body. *)
Lemma falsy_selftext_stored_as_null_witness :
  truthy (prop (prop (post_child "a1" "Sunset" "" 1700000000) "data") "selftext")
  = false /\
  has_id (at_id post_a1) (posts empty_state) = false /\
  exists r, In r (posts (snd (pollAll busy_day [true] empty_state))) /\
            id r = at_id post_a1 /\ body r = SqlNull.
Proof.
  assert (Hp : redditPost (post_child "a1" "Sunset" "" 1700000000)
               = Normal post_a1) by reflexivity.
  assert (Hf : truthy (prop (prop (post_child "a1" "Sunset" "" 1700000000)
                               "data") "selftext") = false) by reflexivity.
  assert (Hfree : has_id (at_id post_a1) (posts empty_state) = false)
    by reflexivity.
  assert (Hin : In post_a1 (primary_items busy_day))
    by (vm_compute; left; reflexivity).
  assert (Hcheck : forallb (fun p' => negb (at_id p' =? "reddit_a1")
                                      || match at_body p' with
                                         | JNull => true
                                         | _ => false
                                         end)
                           (all_items busy_day) = true)
    by (vm_compute; reflexivity).
  assert (Hagree : forall p', In p' (all_items busy_day) ->
                              at_id p' = at_id post_a1 ->
                              at_body p' = at_body post_a1).
  { intros p' Hp' Hid.
    apply (proj1 (forallb_forall _ _) Hcheck) in Hp'.
    change (at_id post_a1) with "reddit_a1" in Hid.
    rewrite Hid in Hp'. simpl in Hp'.
    change (at_body post_a1) with (@JNull IntNumber).
    destruct (at_body p'); try discriminate. reflexivity. }
  split; [exact Hf|]. split; [exact Hfree|].
  destruct (falsy_selftext_stored_as_null busy_day empty_state "mexico")
    as [_ [_ [_ H]]].
  destruct (H _ _ Hp Hf Hfree) as [_ [_ Hcycle]].
  exact (Hcycle (or_introl Hin) Hagree [true]).
Defined.

(** A post whose [id] is an object with a member [toString] has no
    primitive: the template literal of its id throws, and the loop stops
    at it with the posts before it stored. *)
Example unprintable_id_ends_the_loop :
  redditPost (JObj [("data", JObj [("id", JObj [("toString", JNum 1%Z)]);
                                   ("created_utc", JNum 1700000000%Z)])])
  = Throw TypeError /\
  map at_id
      (yielded redditItem
         [post_child "a1" "Sunset" "" 1700000000;
          JObj [("data", JObj [("id", JObj [("toString", JNum 1%Z)]);
                               ("created_utc", JNum 1700000000%Z)])];
          post_child "a2" "Tacos" "Where?" 1700000100])
  = ["reddit_a1"].
Proof. vm_compute. auto. Qed.
